(** * The desktop engine bridge: a shallow embedding and its properties

    The bridge (apps/desktop/src/main/engine-bridge/index.ts) supervises one
    child process per job.  It keeps a map of active jobs, decodes the
    child's JSON-Lines progress stream, and on process exit reconciles the
    exit code, the result manifest and its own cancel/timeout flags into one
    terminal state.

    The embedding follows the source function by function.  Callbacks of
    the host's event loop (stdout data, process close and error, the timeout
    timer, the completion of the manifest read) are the steps of a
    transition system over an explicit bridge state.

    Around the bridge the file embeds what it calls and what calls it: the
    command line it builds for the engine and the process-tree terminator
    (same source file), the startup preflight
    (apps/desktop/src/main/preflight/index.ts), the renderer script
    (apps/desktop/src/renderer/index.ts), the helpers of the smoke runner
    (apps/desktop/scripts/smoke-unpackaged.cjs) and the argument reader of
    the test engine (apps/desktop/tests/fixtures). *)

From Stdlib Require Import ZArith NArith List Bool String Ascii PrimFloat.
From Stdlib Require Import DecimalString.
From Stdlib.Strings Require Import Byte.
From stdpp Require Import gmap list.

Set Default Proof Using "Type".

(** ** JavaScript values *)

(** A JavaScript string is a sequence of UTF-16 code units. *)
Definition jsstring := list N.

(** The string written with the (ASCII) characters of [s]. *)
Definition js (s : string) : jsstring :=
  map N_of_ascii (list_ascii_of_string s).

(** A value produced by [JSON.parse].  Numbers are IEEE doubles, objects keep
    their members in source order. *)
#[warnings="-register-all"]
Inductive json :=
| JNull
| JBool (b : bool)
| JNum (x : float)
| JStr (s : jsstring)
| JArr (items : list json)
| JObj (members : list (jsstring * json)).

(** [v.name] for a property that no prototype defines ([status],
    [errorCode]): the own property of an object, where the last of several
    members with the same key wins, and [undefined] ([None]) on anything
    else.  With [v?.name] a [null] value gives [undefined] too. *)
Fixpoint own_property (members : list (jsstring * json)) (name : jsstring)
  : option json :=
  match members with
  | [] => None
  | (k, v) :: rest =>
      match own_property rest name with
      | Some later => Some later
      | None => if bool_decide (k = name) then Some v else None
      end
  end.

Definition optional_member (v : json) (name : jsstring) : option json :=
  match v with
  | JObj members => own_property members name
  | _ => None
  end.

(** [x === "text"] where [x] may be [undefined]. *)
Definition strictly_equals_string (x : option json) (text : jsstring) : bool :=
  match x with
  | Some (JStr s) => bool_decide (s = text)
  | _ => false
  end.

(** Truthiness of a value: [null], [false], [0], [-0], [NaN] and the empty
    string are falsy. *)
Definition truthy (v : json) : bool :=
  match v with
  | JNull => false
  | JBool b => b
  | JNum x => negb (PrimFloat.eqb x 0%float || PrimFloat.is_nan x)
  | JStr s => negb (bool_decide (s = []))
  | JArr _ | JObj _ => true
  end.

(** [x ?? fallback]: the fallback replaces [undefined] and [null] only. *)
Definition nullish_coalesce (x : option json) (fallback : json) : json :=
  match x with
  | None | Some JNull => fallback
  | Some v => v
  end.

(** ** The data model of the bridge *)

Inductive EngineBridgeState := queued | running | succeeded | failed | cancelled.

#[global] Instance EngineBridgeState_eq_dec : EqDecision EngineBridgeState.
Proof. solve_decision. Defined.

(** The three states that end a job. *)
Definition terminal (s : EngineBridgeState) : bool :=
  match s with
  | succeeded | failed | cancelled => true
  | queued | running => false
  end.

(** An event handed to the caller's sink.  [progressEvent] and
    [ev_errorCode] are [None] where the source passes [undefined]. *)
Record EngineBridgeEvent := mkEvent {
  ev_jobId : jsstring;
  ev_state : EngineBridgeState;
  progressEvent : option json;
  ev_errorCode : option json
}.

(** The value the job's promise resolves to.  [res_exitCode] is [None] for
    [null]; [res_errorCode] and [res_manifest] are [JNull] for [null]. *)
Record EngineBridgeResult := mkResult {
  res_jobId : jsstring;
  res_state : EngineBridgeState;
  res_exitCode : option Z;
  res_errorCode : json;
  res_manifest : json
}.

(** The record of an active job.  The [process] and [resolve] fields of the
    source are identified with the record's own reference (its index in the
    bridge's store): every record has its own child process and its own
    promise.  [timeoutRef] is the timer's identifier, [killTreeRef] tells
    whether a terminator run is in flight. *)
Record ActiveJob := mkJob {
  outputDir : jsstring;
  requestedCancel : bool;
  timedOut : bool;
  settled : bool;
  runningEmitted : bool;
  timeoutRef : option nat;
  killTreeRef : bool;
  stdoutRemainder : jsstring
}.

Definition E_ENGINE_FAILED : jsstring := js "E_ENGINE_FAILED".
Definition E_INVALID_INPUT : jsstring := js "E_INVALID_INPUT".
Definition E_OUTPUT_UNWRITABLE : jsstring := js "E_OUTPUT_UNWRITABLE".
Definition E_CANCELLED : jsstring := js "E_CANCELLED".
Definition E_TIMEOUT : jsstring := js "E_TIMEOUT".

Definition EXIT_CODE_ERROR_MAP : gmap Z jsstring :=
  list_to_map
    [ (1%Z, E_ENGINE_FAILED);
      (2%Z, E_INVALID_INPUT);
      (3%Z, E_OUTPUT_UNWRITABLE);
      (4%Z, E_CANCELLED);
      (5%Z, E_TIMEOUT) ].

Definition KILL_TREE_ESCALATION_MS : Z := 750.

(** The longest delay the host's [setTimeout] keeps: 2^31 - 1 ms. *)
Definition TIMEOUT_MAX : Z := 2147483647.

(** The delay the host's [setTimeout] arms a timer with when it is passed
    [delay]: a delay below 1 or above [TIMEOUT_MAX] is replaced by 1.  On
    integers the sum passed by [run] is exact up to [TIMEOUT_MAX], and above
    it the rounding of the host's addition cannot bring it back below. *)
Definition setTimeout_delay (delay : Z) : Z :=
  if (1 <=? delay)%Z && (delay <=? TIMEOUT_MAX)%Z then delay else 1%Z.

(** [exitCode] is a number or [null] ([None]). *)
Definition mapExitCodeToErrorCode (exitCode : option Z) : jsstring :=
  match exitCode with
  | None => E_ENGINE_FAILED
  | Some code => default E_ENGINE_FAILED (EXIT_CODE_ERROR_MAP !! code)
  end.


(** ** Text: decoding, line splitting, trimming *)

(** [buffer.toString("utf8")]: the UTF-8 decoder of the Encoding Standard.
    A byte that cannot continue or start a well-formed sequence, and a
    sequence cut short by the end of the buffer, decode to U+FFFD. *)
Definition REPLACEMENT_CHARACTER : N := 0xFFFD.

(** The UTF-16 code units of a scalar value. *)
Definition code_units (cp : N) : jsstring :=
  if (cp <? 0x10000)%N then [cp]
  else
    let v := (cp - 0x10000)%N in
    [(0xD800 + N.shiftr v 10)%N; (0xDC00 + N.land v 0x3FF)%N].

(** A multi-byte sequence under way: the bits read so far, the number of
    continuation bytes still needed and the range allowed for the next. *)
Record utf8_pending := mkPending {
  code_point : N;
  bytes_needed : nat;
  lower_boundary : N;
  upper_boundary : N
}.

(** A byte read when no sequence is under way. *)
Definition utf8_lead (b : N) : jsstring * option utf8_pending :=
  if (b <=? 0x7F)%N then ([b], None)
  else if (0xC2 <=? b)%N && (b <=? 0xDF)%N then
    ([], Some (mkPending (N.land b 0x1F) 1 0x80 0xBF))
  else if (0xE0 <=? b)%N && (b <=? 0xEF)%N then
    ([], Some (mkPending (N.land b 0xF) 2
                 (if (b =? 0xE0)%N then 0xA0 else 0x80)
                 (if (b =? 0xED)%N then 0x9F else 0xBF)))
  else if (0xF0 <=? b)%N && (b <=? 0xF4)%N then
    ([], Some (mkPending (N.land b 0x7) 3
                 (if (b =? 0xF0)%N then 0x90 else 0x80)
                 (if (b =? 0xF4)%N then 0x8F else 0xBF)))
  else ([REPLACEMENT_CHARACTER], None).

Fixpoint utf8_decode_from (st : option utf8_pending) (bytes : list byte)
  : jsstring :=
  match bytes with
  | [] =>
      match st with
      | Some _ => [REPLACEMENT_CHARACTER]
      | None => []
      end
  | byte :: rest =>
      let b := Byte.to_N byte in
      match st with
      | None =>
          let '(out, st') := utf8_lead b in
          out ++ utf8_decode_from st' rest
      | Some p =>
          if (lower_boundary p <=? b)%N && (b <=? upper_boundary p)%N then
            let cp := N.lor (N.shiftl (code_point p) 6) (N.land b 0x3F) in
            match bytes_needed p with
            | S (S n) =>
                utf8_decode_from (Some (mkPending cp (S n) 0x80 0xBF)) rest
            | _ => code_units cp ++ utf8_decode_from None rest
            end
          else
            let '(out, st') := utf8_lead b in
            REPLACEMENT_CHARACTER :: out ++ utf8_decode_from st' rest
      end
  end.

Definition utf8_decode (bytes : list byte) : jsstring :=
  utf8_decode_from None bytes.

(** A chunk of the child's standard output: [Buffer | string]. *)
Inductive Chunk :=
| Buffer (bytes : list byte)
| Text (s : jsstring).

(** [chunk.toString("utf8")]; on a string the argument is ignored. *)
Definition chunk_toString (chunk : Chunk) : jsstring :=
  match chunk with
  | Buffer bytes => utf8_decode bytes
  | Text s => s
  end.

Definition LF : N := 10.
Definition CR : N := 13.

Definition cons_to_first (c : N) (lines : list jsstring) : list jsstring :=
  match lines with
  | first :: others => (c :: first) :: others
  | [] => [[c]]
  end.

(** [s.split(/\r?\n/)]: the pieces of [s] between the line breaks, a line
    break being a line feed together with the carriage return right before
    it, if there is one.  The result is never empty. *)
Fixpoint split_lines (s : jsstring) : list jsstring :=
  match s with
  | [] => [[]]
  | c :: t =>
      if (c =? LF)%N then [] :: split_lines t
      else
        match t with
        | d :: t' =>
            if (c =? CR)%N && (d =? LF)%N then [] :: split_lines t'
            else cons_to_first c (split_lines t)
        | [] => [[c]]
        end
  end.

(** The code units removed by [String.prototype.trim]: white space and line
    terminators. *)
Definition is_white_space (c : N) : bool :=
  ((0x9 <=? c) && (c <=? 0xD) || (c =? 0x20) || (c =? 0xA0) || (c =? 0x1680)
   || (0x2000 <=? c) && (c <=? 0x200A) || (c =? 0x2028) || (c =? 0x2029)
   || (c =? 0x202F) || (c =? 0x205F) || (c =? 0x3000) || (c =? 0xFEFF))%N.

Fixpoint trim_start (s : jsstring) : jsstring :=
  match s with
  | c :: t => if is_white_space c then trim_start t else s
  | [] => []
  end.

Definition trim (s : jsstring) : jsstring :=
  rev (trim_start (rev (trim_start s))).

(** [lines.pop()]: the last element, removed from the array; [undefined]
    for an empty array. *)
Definition pop (lines : list jsstring) : list jsstring * option jsstring :=
  (removelast lines, last lines).


(** ** The state of a bridge *)

(** The file system as the manifest reader sees it: [fs.readFile(path,
    "utf8")] resolves to the text of the file or rejects ([None]). *)
Definition FileSystem := jsstring -> option jsstring.

(** The part of a request that the job record depends on.  The command
    line built from the other fields goes to the child and leaves no trace
    in the bridge. *)
Record EngineBridgeRequest := mkRequest {
  req_outputDir : jsstring;
  req_jobId : option jsstring;
  req_timeoutMs : option Z
}.

(** A call of [finishJob] suspended at [await readResultManifest(...)].  It
    holds the reference [activeJob] (not a copy of the record), the
    arguments of the call and the directory the read was started on. *)
Record FinishFrame := mkFrame {
  fr_job : nat;
  fr_jobId : jsstring;
  fr_exitCode : option Z;
  fr_spawnError : option jsstring;
  fr_outputDir : jsstring
}.

(** The bridge and what it has done so far.
    - [store]: the job records ever created, a reference being an index;
    - [activeJobs]: the map from job id to job record of the source;
    - [timers]: the armed timers, with the job id their callback captured
      and the delay in milliseconds the host armed them with;
    - [reading]: the suspended calls of [finishJob];
    - [terminated]: the runs of the process-tree terminator, by process;
    - [delivered]: the events passed to the event sink, oldest first;
    - [resolved]: the calls of a record's [resolve], oldest first. *)
Record Bridge := mkBridge {
  store : list ActiveJob;
  activeJobs : gmap jsstring nat;
  timers : gmap nat (jsstring * Z);
  reading : list FinishFrame;
  terminated : list nat;
  delivered : list EngineBridgeEvent;
  resolved : list (nat * EngineBridgeResult)
}.

Definition createEngineBridge : Bridge :=
  mkBridge [] ∅ ∅ [] [] [] [].

Definition with_requestedCancel (v : bool) (job : ActiveJob) : ActiveJob :=
  mkJob (outputDir job) v (timedOut job) (settled job) (runningEmitted job)
        (timeoutRef job) (killTreeRef job) (stdoutRemainder job).
Definition with_timedOut (v : bool) (job : ActiveJob) : ActiveJob :=
  mkJob (outputDir job) (requestedCancel job) v (settled job)
        (runningEmitted job) (timeoutRef job) (killTreeRef job)
        (stdoutRemainder job).
Definition with_settled (v : bool) (job : ActiveJob) : ActiveJob :=
  mkJob (outputDir job) (requestedCancel job) (timedOut job) v
        (runningEmitted job) (timeoutRef job) (killTreeRef job)
        (stdoutRemainder job).
Definition with_runningEmitted (v : bool) (job : ActiveJob) : ActiveJob :=
  mkJob (outputDir job) (requestedCancel job) (timedOut job) (settled job) v
        (timeoutRef job) (killTreeRef job) (stdoutRemainder job).
Definition with_timeoutRef (v : option nat) (job : ActiveJob) : ActiveJob :=
  mkJob (outputDir job) (requestedCancel job) (timedOut job) (settled job)
        (runningEmitted job) v (killTreeRef job) (stdoutRemainder job).
Definition with_killTreeRef (v : bool) (job : ActiveJob) : ActiveJob :=
  mkJob (outputDir job) (requestedCancel job) (timedOut job) (settled job)
        (runningEmitted job) (timeoutRef job) v (stdoutRemainder job).
Definition with_stdoutRemainder (v : jsstring) (job : ActiveJob) : ActiveJob :=
  mkJob (outputDir job) (requestedCancel job) (timedOut job) (settled job)
        (runningEmitted job) (timeoutRef job) (killTreeRef job) v.

Definition with_store (v : list ActiveJob) (b : Bridge) : Bridge :=
  mkBridge v (activeJobs b) (timers b) (reading b) (terminated b)
           (delivered b) (resolved b).
Definition with_activeJobs (v : gmap jsstring nat) (b : Bridge) : Bridge :=
  mkBridge (store b) v (timers b) (reading b) (terminated b) (delivered b)
           (resolved b).
Definition with_timers (v : gmap nat (jsstring * Z)) (b : Bridge) : Bridge :=
  mkBridge (store b) (activeJobs b) v (reading b) (terminated b)
           (delivered b) (resolved b).
Definition with_reading (v : list FinishFrame) (b : Bridge) : Bridge :=
  mkBridge (store b) (activeJobs b) (timers b) v (terminated b)
           (delivered b) (resolved b).
Definition with_terminated (v : list nat) (b : Bridge) : Bridge :=
  mkBridge (store b) (activeJobs b) (timers b) (reading b) v (delivered b)
           (resolved b).
Definition with_delivered (v : list EngineBridgeEvent) (b : Bridge) : Bridge :=
  mkBridge (store b) (activeJobs b) (timers b) (reading b) (terminated b) v
           (resolved b).
Definition with_resolved (v : list (nat * EngineBridgeResult)) (b : Bridge)
  : Bridge :=
  mkBridge (store b) (activeJobs b) (timers b) (reading b) (terminated b)
           (delivered b) v.

(** [this.activeJobs.get(jobId)]: the record's reference and its current
    content. *)
Definition get_job (b : Bridge) (jobId : jsstring) : option (nat * ActiveJob) :=
  match activeJobs b !! jobId with
  | Some ref =>
      match store b !! ref with
      | Some job => Some (ref, job)
      | None => None
      end
  | None => None
  end.

(** An assignment to a field of the record behind [ref].  The references
    assigned through come from [get_job], so they are in range. *)
Definition set_job (ref : nat) (job : ActiveJob) (b : Bridge) : Bridge :=
  with_store (<[ref := job]> (store b)) b.

(** ** The operations of the bridge *)

Section EngineBridge.

(** [JSON.parse] of the host: the parsed value, or [None] where it throws. *)
Variable JSON_parse : jsstring -> option json.

Definition readResultManifest (fs : FileSystem) (outputDir : jsstring) : json :=
  match fs (outputDir ++ js "/result.json") with
  | Some raw =>
      match JSON_parse raw with
      | Some manifest => manifest
      | None => JNull
      end
  | None => JNull
  end.

(** The sink is the caller's [onEvent]; the log keeps the calls made to
    it. *)
Definition emitState (jobId : jsstring) (state : EngineBridgeState)
    (event : option json) (errorCode : option json) (b : Bridge) : Bridge :=
  with_delivered (delivered b ++ [mkEvent jobId state event errorCode]) b.

Definition emitRunningOnce (jobId : jsstring) (b : Bridge) : Bridge :=
  match get_job b jobId with
  | None => b
  | Some (ref, activeJob) =>
      if runningEmitted activeJob then b
      else
        emitState jobId running None None
          (set_job ref (with_runningEmitted true activeJob) b)
  end.

Definition requestKillTree (jobId : jsstring) (b : Bridge) : Bridge :=
  match get_job b jobId with
  | None => b
  | Some (ref, activeJob) =>
      if settled activeJob || killTreeRef activeJob then b
      else
        set_job ref (with_killTreeRef true activeJob)
          (with_terminated (terminated b ++ [ref]) b)
  end.

(** The [finally] callback of the terminator's promise. *)
Definition killTree_finally (jobId : jsstring) (b : Bridge) : Bridge :=
  match get_job b jobId with
  | Some (ref, pendingJob) => set_job ref (with_killTreeRef false pendingJob) b
  | None => b
  end.

Definition cancel (jobId : jsstring) (b : Bridge) : Bridge * bool :=
  match get_job b jobId with
  | None => (b, false)
  | Some (ref, activeJob) =>
      if settled activeJob then (b, false)
      else
        (requestKillTree jobId
           (set_job ref (with_requestedCancel true activeJob) b),
         true)
  end.

(** The callback of the timer armed by [run]. *)
Definition timeout_callback (jobId : jsstring) (b : Bridge) : Bridge :=
  match get_job b jobId with
  | None => b
  | Some (ref, pendingJob) =>
      if settled pendingJob then b
      else requestKillTree jobId (set_job ref (with_timedOut true pendingJob) b)
  end.

(** The loop over the complete lines of [consumeStdout]. *)
Fixpoint forward_lines (jobId : jsstring) (lines : list jsstring) (b : Bridge)
  : Bridge :=
  match lines with
  | [] => b
  | line :: rest =>
      let trimmed := trim line in
      match trimmed with
      | [] => forward_lines jobId rest b
      | _ :: _ =>
          match JSON_parse trimmed with
          | Some parsed =>
              forward_lines jobId rest
                (emitState jobId running (Some parsed) None b)
          | None => forward_lines jobId rest b
          end
      end
  end.

Definition consumeStdout (jobId : jsstring) (chunk : Chunk) (b : Bridge)
  : Bridge :=
  match get_job b jobId with
  | None => b
  | Some (ref, activeJob) =>
      let nextBuffer := stdoutRemainder activeJob ++ chunk_toString chunk in
      let '(lines, popped) := pop (split_lines nextBuffer) in
      forward_lines jobId lines
        (set_job ref (with_stdoutRemainder (default [] popped) activeJob) b)
  end.

(** The chunks of a stream, consumed in order. *)
Definition consumeStdout_all (jobId : jsstring) (chunks : list Chunk)
    (b : Bridge) : Bridge :=
  fold_left (fun b' chunk => consumeStdout jobId chunk b') chunks b.

(** The state and error code of [finishJob], from the record's flags, the
    exit code, the manifest read ([JNull] for none) and the spawn error
    (an [Error] object, here its message, or [None] for [undefined]). *)
Definition finishJob_outcome (activeJob : ActiveJob) (exitCode : option Z)
    (requestManifest : json) (spawnError : option jsstring)
  : EngineBridgeState * json :=
  let status := optional_member requestManifest (js "status") in
  let manifestCode := optional_member requestManifest (js "errorCode") in
  if bool_decide (exitCode = Some 0%Z)
     && strictly_equals_string status (js "succeeded")
  then (succeeded, JNull)
  else if requestedCancel activeJob
          || bool_decide (exitCode = Some 4%Z)
          || strictly_equals_string status (js "cancelled")
  then
    (cancelled,
     if requestedCancel activeJob then JStr E_CANCELLED
     else nullish_coalesce manifestCode (JStr E_CANCELLED))
  else
    (failed,
     if timedOut activeJob then JStr E_TIMEOUT
     else if truthy (default JNull manifestCode) then default JNull manifestCode
     else if bool_decide (is_Some spawnError) then JStr E_ENGINE_FAILED
     else JStr (mapExitCodeToErrorCode exitCode)).

(** [finishJob] up to its [await]. *)
Definition finishJob (jobId : jsstring) (exitCode : option Z)
    (spawnError : option jsstring) (b : Bridge) : Bridge :=
  match get_job b jobId with
  | None => b
  | Some (ref, activeJob) =>
      if settled activeJob then b
      else
        let b1 := set_job ref (with_settled true activeJob) b in
        let b2 :=
          match timeoutRef activeJob with
          | Some timer => with_timers (delete timer (timers b1)) b1
          | None => b1
          end in
        with_reading
          (reading b2
           ++ [mkFrame ref jobId exitCode spawnError (outputDir activeJob)])
          b2
  end.

(** [finishJob] from its [await] on, for the [k]-th suspended call, when the
    read has completed on the file system [fs]. *)
Definition finishJob_resume (k : nat) (fs : FileSystem) (b : Bridge) : Bridge :=
  match reading b !! k with
  | None => b
  | Some frame =>
      match store b !! fr_job frame with
      | None => b
      | Some activeJob =>
          let requestManifest := readResultManifest fs (fr_outputDir frame) in
          let '(state, errorCode) :=
            finishJob_outcome activeJob (fr_exitCode frame) requestManifest
              (fr_spawnError frame) in
          let b1 := with_reading (delete k (reading b)) b in
          let b2 := emitState (fr_jobId frame) state None (Some errorCode) b1 in
          let b3 := with_activeJobs (delete (fr_jobId frame) (activeJobs b2)) b2 in
          with_resolved
            (resolved b3
             ++ [(fr_job frame,
                  mkResult (fr_jobId frame) state (fr_exitCode frame) errorCode
                    requestManifest)])
            b3
      end
  end.

(** [run]: [uuid] is what [randomUUID()] returns.  The result is the job id
    and the reference of the record whose promise is [done].  The watcher
    is entered in [timers] with the delay the host gives it for
    [setTimeout(..., request.timeoutMs + KILL_TREE_ESCALATION_MS)]. *)
Definition run (request : EngineBridgeRequest) (uuid : jsstring) (b : Bridge)
  : Bridge * (jsstring * nat) :=
  let jobId := default uuid (req_jobId request) in
  let ref := length (store b) in
  let b1 :=
    with_activeJobs (<[jobId := ref]> (activeJobs b))
      (with_store
         (store b ++ [mkJob (req_outputDir request) false false false false
                        None false []])
         b) in
  let b2 := emitState jobId queued None None b1 in
  let b3 := emitRunningOnce jobId b2 in
  let b4 :=
    match req_timeoutMs request with
    | Some timeoutMs =>
        if (0 <? timeoutMs)%Z then
          match get_job b3 jobId with
          | Some (ref', activeJob) =>
              with_timers
                (<[ref' := (jobId,
                            setTimeout_delay
                              (timeoutMs + KILL_TREE_ESCALATION_MS))]>
                   (timers b3))
                (set_job ref' (with_timeoutRef (Some ref') activeJob) b3)
          | None => b3
          end
        else b3
    | None => b3
    end in
  (b4, (jobId, ref)).

(** ** The event loop *)

(** What the host can call back, and the calls of the caller. *)
Inductive Callback :=
| Run (request : EngineBridgeRequest) (uuid : jsstring)
| Cancel (jobId : jsstring)
| TimerFired (timer : nat)
| StdoutData (jobId : jsstring) (chunk : Chunk)
| ProcessError (jobId : jsstring) (error : jsstring)
| ProcessClose (jobId : jsstring) (exitCode : option Z)
| ManifestRead (k : nat) (fs : FileSystem)
| KillTreeDone (jobId : jsstring).

Definition step (b : Bridge) (c : Callback) : Bridge :=
  match c with
  | Run request uuid => fst (run request uuid b)
  | Cancel jobId => fst (cancel jobId b)
  | TimerFired timer =>
      match timers b !! timer with
      | Some (jobId, _) =>
          timeout_callback jobId (with_timers (delete timer (timers b)) b)
      | None => b
      end
  | StdoutData jobId chunk =>
      consumeStdout jobId chunk (emitRunningOnce jobId b)
  | ProcessError jobId error => finishJob jobId None (Some error) b
  | ProcessClose jobId exitCode => finishJob jobId exitCode None b
  | ManifestRead k fs => finishJob_resume k fs b
  | KillTreeDone jobId => killTree_finally jobId b
  end.

Definition exec (b : Bridge) (trace : list Callback) : Bridge :=
  fold_left step trace b.

End EngineBridge.


(** ** Vocabulary of the statements *)

(** Between [b] and [b'] the job behind [ref] has settled: one event, the
    terminal one, went to the sink and the promise of the record was
    resolved once, both with the same job id, state and error code. *)
Definition settles_with (b b' : Bridge) (ref : nat)
    (event : EngineBridgeEvent) (result : EngineBridgeResult) : Prop :=
  delivered b' = delivered b ++ [event]
  /\ resolved b' = resolved b ++ [(ref, result)]
  /\ ev_jobId event = res_jobId result
  /\ ev_state event = res_state result
  /\ progressEvent event = None
  /\ ev_errorCode event = Some (res_errorCode result).

(** What the decoder owes the sink for a list of complete lines, in the
    words of the specification: each line is trimmed, an empty line is
    skipped, a line that parses is forwarded as a [running] event carrying
    the parsed record, a line that does not parse gives nothing. *)
Definition progress_event (JSON_parse : jsstring -> option json)
    (jobId : jsstring) (line : jsstring) : option EngineBridgeEvent :=
  match trim line with
  | [] => None
  | trimmed =>
      match JSON_parse trimmed with
      | Some parsed => Some (mkEvent jobId running (Some parsed) None)
      | None => None
      end
  end.

Definition progress_events (JSON_parse : jsstring -> option json)
    (jobId : jsstring) (lines : list jsstring) : list EngineBridgeEvent :=
  omap (progress_event JSON_parse jobId) lines.

(** Counting the elements of a log that pass a test. *)
Definition count_where {A} (test : A -> bool) (log : list A) : nat :=
  length (List.filter test log).

(** The terminal events delivered for a job id. *)
Definition terminal_events (jobId : jsstring) (b : Bridge) : nat :=
  count_where
    (fun e => bool_decide (ev_jobId e = jobId) && terminal (ev_state e))
    (delivered b).

(** The bare [running] events (no progress payload) delivered for a job id. *)
Definition bare_running_events (jobId : jsstring) (b : Bridge) : nat :=
  count_where
    (fun e => bool_decide (ev_jobId e = jobId)
              && bool_decide (ev_state e = running)
              && bool_decide (progressEvent e = None))
    (delivered b).

(** The calls of [resolve] on the promise of the record [ref]. *)
Definition resolutions (ref : nat) (b : Bridge) : nat :=
  count_where (fun r => Nat.eqb (fst r) ref) (resolved b).

(** The suspended calls of [finishJob] that hold the record [ref]. *)
Definition suspended (ref : nat) (b : Bridge) : nat :=
  count_where (fun frame => Nat.eqb (fr_job frame) ref) (reading b).

(** [c] is a call of [run] that takes the job id [jobId]. *)
Definition reuses (jobId : jsstring) (c : Callback) : bool :=
  match c with
  | Run request uuid => bool_decide (default uuid (req_jobId request) = jobId)
  | _ => false
  end.

(** [c] is the [close] or [error] callback of a process run for [jobId]. *)
Definition is_exit (jobId : jsstring) (c : Callback) : bool :=
  match c with
  | ProcessClose j _ | ProcessError j _ => bool_decide (j = jobId)
  | _ => false
  end.

(** No reference of the bridge dangles: the active map, the suspended
    calls and the resolved promises name records of the store. *)
Definition well_formed (b : Bridge) : Prop :=
  (forall jobId ref, activeJobs b !! jobId = Some ref -> ref < length (store b))
  /\ (forall frame, frame ∈ reading b -> fr_job frame < length (store b))
  /\ (forall r, r ∈ resolved b -> fst r < length (store b)).

(** The job id has not been in use: no suspended [finishJob] and no
    delivered event carries it. *)
Definition unused (jobId : jsstring) (b : Bridge) : Prop :=
  (forall frame, frame ∈ reading b -> fr_jobId frame <> jobId)
  /\ (forall e, e ∈ delivered b -> ev_jobId e <> jobId).

(** What a callback on the record of one job can do: it leaves the active
    map, the suspended calls and the promises alone, assigns to fields of
    the record of [jobId] other than [settled], never clears
    [runningEmitted], and delivers [running] events for [jobId], a bare one
    only if [runningEmitted] was not set. *)
Definition job_local (jobId : jsstring) (b b' : Bridge) : Prop :=
  activeJobs b' = activeJobs b
  /\ reading b' = reading b
  /\ resolved b' = resolved b
  /\ (store b' = store b
      \/ exists ref job job',
          get_job b jobId = Some (ref, job)
          /\ store b' = <[ref := job']> (store b)
          /\ settled job' = settled job
          /\ (runningEmitted job = true -> runningEmitted job' = true))
  /\ exists events,
      delivered b' = delivered b ++ events
      /\ Forall
           (fun e =>
              ev_jobId e = jobId
              /\ ev_state e = running
              /\ (progressEvent e = None ->
                  exists ref job,
                    get_job b jobId = Some (ref, job)
                    /\ runningEmitted job = false))
           events.

(** The record [ref] is the only one the job id can lead to, and its
    [runningEmitted] flag is set. *)
Definition running_emitted (jobId : jsstring) (ref : nat) (b : Bridge) : Prop :=
  (forall ref', activeJobs b !! jobId = Some ref' -> ref' = ref)
  /\ exists job, store b !! ref = Some job /\ runningEmitted job = true.

(** [request.jobId ?? randomUUID()] *)
Definition requested_jobId (request : EngineBridgeRequest) (uuid : jsstring)
  : jsstring :=
  default uuid (req_jobId request).

(** The [settled] flag of the record [ref]. *)
Definition is_settled (ref : nat) (b : Bridge) : bool :=
  match store b !! ref with
  | Some job => settled job
  | None => false
  end.

(** The record [ref] belongs to the job id: no other id leads to it, and
    the suspended calls of [finishJob] that hold it are those made under
    the id. *)
Definition job_owned (jobId : jsstring) (ref : nat) (b : Bridge) : Prop :=
  (forall k, activeJobs b !! k = Some ref -> k = jobId)
  /\ (forall frame,
         frame ∈ reading b -> fr_job frame = ref <-> fr_jobId frame = jobId).

(** Where a job stands: running (not settled), settling (settled, its
    [finishJob] suspended at the manifest read, nothing delivered yet), or
    settled (removed from the map, terminal event delivered and promise
    resolved, once each). *)
Definition job_phase (jobId : jsstring) (ref : nat) (b : Bridge) : Prop :=
  is_Some (store b !! ref)
  /\ ((is_settled ref b = false
       /\ activeJobs b !! jobId = Some ref
       /\ suspended ref b = 0
       /\ terminal_events jobId b = 0
       /\ resolutions ref b = 0)
      \/ (is_settled ref b = true
          /\ activeJobs b !! jobId = Some ref
          /\ suspended ref b = 1
          /\ terminal_events jobId b = 0
          /\ resolutions ref b = 0)
      \/ (is_settled ref b = true
          /\ activeJobs b !! jobId = None
          /\ suspended ref b = 0
          /\ terminal_events jobId b = 1
          /\ resolutions ref b = 1)).

(** A parser known on the finitely many texts of a table; it rejects every
    other text.  It stands for [JSON.parse] in closed examples, with tables
    that pair a text with the value [JSON.parse] gives it. *)
Definition JSON_parse_table (table : list (jsstring * json)) (text : jsstring)
  : option json :=
  snd <$> List.find (fun entry => bool_decide (fst entry = text)) table.

(** A file system with one file. *)
Definition single_file (path content : jsstring) : FileSystem :=
  fun p => if bool_decide (p = path) then Some content else None.

(** The JSON text written in [s] with ['] standing for the double quote. *)
Definition json_text (s : string) : jsstring :=
  map (fun c => if (c =? 39)%N then 34%N else c) (js s).

(** ** Sample runs, for closed examples *)

Definition sample_jobId : jsstring := js "job-1".
Definition sample_request : EngineBridgeRequest :=
  mkRequest (js "/out") (Some sample_jobId) (Some 300%Z).

Definition succeeded_manifest_text : jsstring :=
  json_text "{'status':'succeeded','errorCode':null}".
Definition succeeded_manifest : json :=
  JObj [(js "status", JStr (js "succeeded")); (js "errorCode", JNull)].
Definition blank_code_manifest_text : jsstring :=
  json_text "{'status':'failed','errorCode':''}".
Definition blank_code_manifest : json :=
  JObj [(js "status", JStr (js "failed")); (js "errorCode", JStr [])].

(** A progress line whose message is the letter e with acute accent
    (U+00E9, in UTF-8 the bytes C3 A9), and the line that results when each
    of the two bytes is decoded on its own. *)
Definition accented_line : jsstring :=
  json_text "{'message':'" ++ [0xE9%N] ++ json_text "'}".
Definition accented_record : json := JObj [(js "message", JStr [0xE9%N])].
Definition garbled_line : jsstring :=
  json_text "{'message':'" ++ [0xFFFD%N; 0xFFFD%N] ++ json_text "'}".
Definition garbled_record : json :=
  JObj [(js "message", JStr [0xFFFD%N; 0xFFFD%N])].

(** The bytes of an ASCII text. *)
Definition ascii_bytes (s : jsstring) : list byte := omap Byte.of_N s.

(** The accented line and its line feed, as one buffer and as two buffers
    cut between the two bytes of the accented letter. *)
Definition accented_whole : list Chunk :=
  [Buffer (ascii_bytes (json_text "{'message':'") ++ [xc3; xa9]
           ++ ascii_bytes (json_text "'}") ++ [x0a])].
Definition accented_cut : list Chunk :=
  [Buffer (ascii_bytes (json_text "{'message':'") ++ [xc3]);
   Buffer ([xa9] ++ ascii_bytes (json_text "'}") ++ [x0a])].

(** A plain progress line. *)
Definition progress_line : jsstring := json_text "{'progress':42}".
Definition progress_record : json := JObj [(js "progress", JNum 42%float)].

Definition sample_parse : jsstring -> option json :=
  JSON_parse_table
    [ (succeeded_manifest_text, succeeded_manifest);
      (blank_code_manifest_text, blank_code_manifest);
      (accented_line, accented_record);
      (garbled_line, garbled_record);
      (progress_line, progress_record) ].

Definition no_files : FileSystem := fun _ => None.
Definition succeeded_files : FileSystem :=
  single_file (js "/out/result.json") succeeded_manifest_text.
Definition blank_code_files : FileSystem :=
  single_file (js "/out/result.json") blank_code_manifest_text.

(** The bridge after [run] and the listed callbacks. *)
Definition sample_bridge (callbacks : list Callback) : Bridge :=
  exec sample_parse createEngineBridge (Run sample_request [] :: callbacks).

(** The record and the suspended [finishJob] of the sample job once its
    process has closed with [exitCode]. *)
Definition sample_job (cancelRequested timeoutFired : bool) : ActiveJob :=
  mkJob (js "/out") cancelRequested timeoutFired true true (Some 0)
        (cancelRequested || timeoutFired) [].
Definition sample_frame (exitCode : option Z) : FinishFrame :=
  mkFrame 0 sample_jobId exitCode None (js "/out").

(** Callbacks that race on the sample job: cancels, the timeout, a close
    and a late error, the completion of the manifest read. *)
Definition sample_callbacks : list Callback :=
  [Cancel sample_jobId; TimerFired 0; Cancel sample_jobId;
   ProcessClose sample_jobId (Some 1%Z);
   ProcessError sample_jobId (js "late"); Cancel sample_jobId;
   ManifestRead 0 no_files; ProcessClose sample_jobId None].

(** ** Vocabulary of the further properties of the bridge *)

(** The runs of the process-tree terminator started on the process of the
    record [ref]. *)
Definition terminator_runs (ref : nat) (b : Bridge) : nat :=
  count_where (Nat.eqb ref) (terminated b).

(** The record [ref] holds the promise of a terminator run ([killTreeRef]
    is set). *)
Definition terminator_pending (ref : nat) (b : Bridge) : bool :=
  match store b !! ref with
  | Some job => killTreeRef job
  | None => false
  end.

(** [c] is the [finally] callback of a terminator run. *)
Definition is_finally (c : Callback) : bool :=
  match c with
  | KillTreeDone _ => true
  | _ => false
  end.

(** The runs started on the record, and one more while none is pending: a
    quantity no callback but [finally] can raise. *)
Definition terminator_credit (ref : nat) (b : Bridge) : nat :=
  terminator_runs ref b + (if terminator_pending ref b then 0 else 1).

(** What a record keeps whatever is called: its directory, each flag once
    set, and, once it is settled, the two flags [finishJob] reads after its
    [await]. *)
Definition flags_kept (job job' : ActiveJob) : Prop :=
  outputDir job' = outputDir job
  /\ (requestedCancel job = true -> requestedCancel job' = true)
  /\ (timedOut job = true -> timedOut job' = true)
  /\ (runningEmitted job = true -> runningEmitted job' = true)
  /\ (settled job = true ->
      settled job' = true
      /\ requestedCancel job' = requestedCancel job
      /\ timedOut job' = timedOut job).

Definition records_kept (b b' : Bridge) : Prop :=
  forall ref job,
    store b !! ref = Some job ->
    exists job', store b' !! ref = Some job' /\ flags_kept job job'.

(** [typeof request.timeoutMs === "number" && request.timeoutMs > 0]: the
    timeout [run] arms its watcher for. *)
Definition watched (request : EngineBridgeRequest) : option Z :=
  match req_timeoutMs request with
  | Some timeoutMs => if (0 <? timeoutMs)%Z then Some timeoutMs else None
  | None => None
  end.

(** The watcher of the record [ref] is in order: the record exists, and a
    timer armed under its reference is the one the record holds, the record
    being not settled. *)
Definition watcher_ok (ref : nat) (b : Bridge) : Prop :=
  exists job,
    store b !! ref = Some job
    /\ (timers b !! ref = None
        \/ (timeoutRef job = Some ref /\ settled job = false)).

(** The job has no watcher: no armed timer captured its id, and its record
    [ref] holds no timer and has not been timed out. *)
Definition unwatched (jobId : jsstring) (ref : nat) (b : Bridge) : Prop :=
  (forall timer delay, timers b !! timer <> Some (jobId, delay))
  /\ exists job,
      store b !! ref = Some job
      /\ timeoutRef job = None
      /\ timedOut job = false.

(** Nothing of the job follows its terminal event in the log. *)
Definition terminal_event_last (jobId : jsstring)
    (log : list EngineBridgeEvent) : Prop :=
  forall before e after,
    log = before ++ e :: after ->
    ev_jobId e = jobId ->
    terminal (ev_state e) = true ->
    Forall (fun e' => ev_jobId e' <> jobId) after.

(** Every terminal event of the job in the log carries a state and an error
    code that pass [verdict]. *)
Definition decided (jobId : jsstring)
    (verdict : EngineBridgeState -> json -> Prop)
    (log : list EngineBridgeEvent) : Prop :=
  forall e,
    e ∈ log -> ev_jobId e = jobId -> terminal (ev_state e) = true ->
    exists errorCode,
      ev_errorCode e = Some errorCode /\ verdict (ev_state e) errorCode.

(** The outcomes left to a job whose cancellation was accepted. *)
Definition cancelled_unless_succeeded (state : EngineBridgeState)
    (errorCode : json) : Prop :=
  (state = succeeded /\ errorCode = JNull)
  \/ (state = cancelled /\ errorCode = JStr E_CANCELLED).

(** The outcomes left to a job whose watcher has fired: a failure is a
    timeout. *)
Definition timeout_if_failed (state : EngineBridgeState) (errorCode : json)
  : Prop :=
  state = failed -> errorCode = JStr E_TIMEOUT.

(** The record [ref] is out of reach: no job id leads to it, no suspended
    [finishJob] holds it, and its promise has not been resolved. *)
Definition orphaned (ref : nat) (b : Bridge) : Prop :=
  ref < length (store b)
  /\ (forall k, activeJobs b !! k <> Some ref)
  /\ suspended ref b = 0
  /\ resolutions ref b = 0.

(** The sequence the decoder is in the middle of when the buffer ends:
    [None] when the buffer ends where a character ends. *)
Fixpoint utf8_pending_after (st : option utf8_pending) (bytes : list byte)
  : option utf8_pending :=
  match bytes with
  | [] => st
  | byte :: rest =>
      let b := Byte.to_N byte in
      match st with
      | None => utf8_pending_after (snd (utf8_lead b)) rest
      | Some p =>
          if (lower_boundary p <=? b)%N && (b <=? upper_boundary p)%N then
            let cp := N.lor (N.shiftl (code_point p) 6) (N.land b 0x3F) in
            match bytes_needed p with
            | S (S n) =>
                utf8_pending_after (Some (mkPending cp (S n) 0x80 0xBF)) rest
            | _ => utf8_pending_after None rest
            end
          else utf8_pending_after (snd (utf8_lead b)) rest
      end
  end.

(** ** The command line of the engine *)

(** [EngineBridgeOptions]; [spawnProcess] is the host's [spawn] or a
    stand-in for it and is called with what [run_spawn] gives. *)
Record EngineBridgeOptions := mkOptions {
  opt_cwd : option jsstring;
  opt_env : option (gmap jsstring jsstring);
  opt_command : option jsstring;
  opt_commandPrefixArgs : option (list jsstring)
}.

(** The request of [run] with all its fields; a number is an integer here,
    as for [req_timeoutMs]. *)
Record EngineRunRequest := mkRunRequest {
  run_inputPath : jsstring;
  run_outputDir : jsstring;
  run_jobId : option jsstring;
  run_backend : option jsstring;
  run_method : option jsstring;
  run_lang : option jsstring;
  run_start : option Z;
  run_end : option Z;
  run_timeoutMs : option Z
}.

(** The part of the request the bookkeeping of [run] reads. *)
Definition bridge_request (request : EngineRunRequest) : EngineBridgeRequest :=
  mkRequest (run_outputDir request) (run_jobId request)
    (run_timeoutMs request).

(** A call of [spawnProcess]: command, arguments and the options [cwd],
    [env] and [detached] ([stdio] is three pipes in every call). *)
Record SpawnCall := mkSpawn {
  spawn_command : jsstring;
  spawn_args : list jsstring;
  spawn_cwd : option jsstring;
  spawn_env : gmap jsstring jsstring;
  spawn_detached : bool
}.

Section CommandLine.

(** [String(n)] of the host. *)
Variable Number_toString : Z -> jsstring.

(** [args.push(flag, String(value))] if [value] is a number. *)
Definition push_number (flag : jsstring) (value : option Z)
    (args : list jsstring) : list jsstring :=
  match value with
  | Some n => args ++ [flag; Number_toString n]
  | None => args
  end.

(** The argument vector [run] builds. *)
Definition run_args (commandPrefixArgs : list jsstring)
    (request : EngineRunRequest) (uuid : jsstring) : list jsstring :=
  let jobId := default uuid (run_jobId request) in
  let backend := default (js "pipeline") (run_backend request) in
  let method := default (js "auto") (run_method request) in
  let args :=
    commandPrefixArgs
    ++ [js "--input"; run_inputPath request;
        js "--output"; run_outputDir request;
        js "--job-id"; jobId;
        js "--backend"; backend;
        js "--method"; method;
        js "--jsonl"] in
  let args := push_number (js "--timeout-ms") (run_timeoutMs request) args in
  let args :=
    match run_lang request with
    | Some (c :: lang) => args ++ [js "--lang"; c :: lang]
    | _ => args
    end in
  let args := push_number (js "--start") (run_start request) args in
  push_number (js "--end") (run_end request) args.

(** The call of [spawnProcess] in [run], for a bridge constructed with
    [options] in a process with environment [process_env] on a platform that
    is Windows or not. *)
Definition run_spawn (options : EngineBridgeOptions)
    (process_env : gmap jsstring jsstring) (win32 : bool)
    (request : EngineRunRequest) (uuid : jsstring) : SpawnCall :=
  mkSpawn
    (default (js "mineru-desktop-engine") (opt_command options))
    (run_args (default [] (opt_commandPrefixArgs options)) request uuid)
    (opt_cwd options)
    (default ∅ (opt_env options) ∪ process_env)
    (negb win32).

End CommandLine.

(** [argv.indexOf(name)], [None] for -1. *)
Fixpoint indexOf (name : jsstring) (argv : list jsstring) : option nat :=
  match argv with
  | [] => None
  | arg :: rest =>
      if bool_decide (arg = name) then Some 0
      else S <$> indexOf name rest
  end.

(** [readArg] of the test engine
    (tests/fixtures/engine-bridge-tree-hang.cjs), on [process.argv]. *)
Definition readArg (argv : list jsstring) (name : jsstring)
  : option jsstring :=
  match indexOf name argv with
  | None => None
  | Some index =>
      if length argv <=? index + 1 then None else argv !! (index + 1)
  end.

(** The flags [run] always passes with a value. *)
Definition valued_flags : list jsstring :=
  [js "--input"; js "--output"; js "--job-id"; js "--backend"; js "--method"].

(** ** The process-tree terminator *)

Inductive Signal := SIGTERM | SIGKILL.

(** What the terminator asks of the host, in order:
    [processRef.kill(signal)], [process.kill(target, signal)],
    [setTimeout(resolve, ms)] and the run of [taskkill] with its
    arguments, awaited until it closes or fails. *)
Inductive HostCall :=
| HandleKill (signal : Signal)
| ProcessKill (target : Z) (signal : Signal)
| Sleep (ms : Z)
| TaskKill (args : list jsstring).

(** The host as the terminator meets it.  What a call gives may depend on
    the calls made before it.
    - [host_win32]: [process.platform === "win32"];
    - [host_process_kill history target signal]: [process.kill] returns
      (true) or throws (false);
    - [host_exitCode history]: [processRef.exitCode] read at that point. *)
Record Host := mkHost {
  host_win32 : bool;
  host_process_kill : list HostCall -> Z -> Signal -> bool;
  host_exitCode : list HostCall -> option Z
}.

Section Terminator.

Variable Number_toString : Z -> jsstring.
Variable host : Host.

(** [sendSignal]: whether [processRef.kill] throws makes no difference. *)
Definition sendSignal (history : list HostCall) (signal : Signal)
  : list HostCall :=
  history ++ [HandleKill signal].

Definition killPosixProcessTree (history : list HostCall) (pid : Z)
    (signal : Signal) : list HostCall * bool :=
  if host_process_kill host history (- pid)%Z signal then
    (history ++ [ProcessKill (- pid)%Z signal], true)
  else
    let history := history ++ [ProcessKill (- pid)%Z signal] in
    if host_process_kill host history pid signal then
      (history ++ [ProcessKill pid signal], true)
    else (history ++ [ProcessKill pid signal], false).

Definition killWindowsProcessTree (history : list HostCall) (pid : Z)
  : list HostCall :=
  history ++ [TaskKill [js "/PID"; Number_toString pid; js "/T"; js "/F"]].

Definition sleep (history : list HostCall) (ms : Z) : list HostCall :=
  history ++ [Sleep ms].

(** [killProcessTree(processRef)], [pid] being [processRef.pid] ([None] if
    it is not a number): the calls made to the host. *)
Definition killProcessTree (pid : option Z) : list HostCall :=
  let through_handle :=
    let history := sendSignal [] SIGTERM in
    let history := sleep history KILL_TREE_ESCALATION_MS in
    match host_exitCode host history with
    | None => sendSignal history SIGKILL
    | Some _ => history
    end in
  match pid with
  | None => through_handle
  | Some pid =>
      if (pid <=? 0)%Z then through_handle
      else if host_win32 host then killWindowsProcessTree [] pid
      else
        let '(history, termSent) := killPosixProcessTree [] pid SIGTERM in
        if negb termSent then history
        else
          let history := sleep history KILL_TREE_ESCALATION_MS in
          match host_exitCode host history with
          | None => fst (killPosixProcessTree history pid SIGKILL)
          | Some _ => history
          end
  end.

End Terminator.

(** The signal a call sends, if it sends one. *)
Definition call_signal (call : HostCall) : option Signal :=
  match call with
  | HandleKill signal | ProcessKill _ signal => Some signal
  | _ => None
  end.

Definition sends (signal : Signal) (call : HostCall) : bool :=
  match call_signal call, signal with
  | Some SIGTERM, SIGTERM | Some SIGKILL, SIGKILL => true
  | _, _ => false
  end.

(** The calls that aim at the process [pid] or at its group. *)
Definition aims_at (pid : Z) (call : HostCall) : bool :=
  match call with
  | ProcessKill target _ =>
      bool_decide (target = pid) || bool_decide (target = (- pid)%Z)
  | Sleep _ => true
  | _ => false
  end.

(** ** The startup preflight (main/preflight/index.ts) *)

Module Preflight.

Definition DESKTOP_BACKEND_DEFAULT : jsstring := js "pipeline".
Definition E_OUTPUT_UNWRITABLE : jsstring := js "E_OUTPUT_UNWRITABLE".
Definition E_PREFLIGHT_PATH_INVALID : jsstring := js "E_PREFLIGHT_PATH_INVALID".

Inductive ElectronPathName := userData | sessionData | logs | temp.

Definition path_label (pathName : ElectronPathName) : jsstring :=
  match pathName with
  | userData => js "userData"
  | sessionData => js "sessionData"
  | logs => js "logs"
  | temp => js "temp"
  end.

Record PreflightDirectories := mkDirectories {
  userDataDir : jsstring;
  sessionDataDir : jsstring;
  logsDir : jsstring;
  tempDir : jsstring;
  outputDir : jsstring
}.

(** The environment is the map of the variables that are set. *)
Record PreflightPolicy := mkPolicy {
  backendDefault : jsstring;
  directories : PreflightDirectories;
  env : gmap jsstring jsstring
}.

(** [PreflightError], without the error it wraps. *)
Record PreflightError := mkError {
  code : jsstring;
  message : jsstring
}.

Record BuildPreflightPolicyOptions := mkOptions {
  getPath : ElectronPathName -> jsstring;
  options_env : gmap jsstring jsstring;
  outputDirName : option jsstring
}.

(** The calls that touch the file system: [fs.mkdir(dirPath, { recursive:
    true })] and [probeWriteAccess(dirPath, markerName)]. *)
Inductive FsCall :=
| Mkdir (dirPath : jsstring)
| ProbeWriteAccess (dirPath markerName : jsstring).

Definition REQUIRED_ENV_DEFAULTS : list (jsstring * jsstring) :=
  [(js "MINERU_BACKEND", DESKTOP_BACKEND_DEFAULT);
   (js "MINERU_METHOD", js "auto");
   (js "MINERU_MODEL_SOURCE", js "huggingface")].

(** [!env[key]]: the variable is not set, or set to the empty string. *)
Definition unset (env : gmap jsstring jsstring) (key : jsstring) : bool :=
  match env !! key with
  | Some (_ :: _) => false
  | _ => true
  end.

Section Host.

(** [path.resolve] and [path.isAbsolute] of the host. *)
Variable path_resolve : list jsstring -> jsstring.
Variable path_isAbsolute : jsstring -> bool.

(** The file system: whether a call fulfils (true) or rejects (false),
    after the calls made before it. *)
Variable fulfils : list FsCall -> FsCall -> bool.

Definition toAbsoluteDirectory (dirPath dirLabel : jsstring)
  : PreflightError + jsstring :=
  let resolvedPath := path_resolve [dirPath] in
  if path_isAbsolute resolvedPath then inr resolvedPath
  else
    inl (mkError E_PREFLIGHT_PATH_INVALID
           (js "Preflight path '" ++ dirLabel
            ++ js "' must resolve to an absolute path.")).

(** The file-system calls made so far are threaded through; the result is
    the error thrown, if any. *)
Definition ensureDirectoryWritable (dirPath errorCode : jsstring)
    (history : list FsCall) : list FsCall * option PreflightError :=
  let error :=
    mkError errorCode (js "Directory is not writable: " ++ dirPath) in
  let mkdir := Mkdir dirPath in
  if fulfils history mkdir then
    let probe := ProbeWriteAccess dirPath (js ".preflight-write-check") in
    if fulfils (history ++ [mkdir]) probe then
      (history ++ [mkdir; probe], None)
    else (history ++ [mkdir; probe], Some error)
  else (history ++ [mkdir], Some error).

(** The loop over [Object.entries(REQUIRED_ENV_DEFAULTS)]. *)
Definition apply_defaults (defaults : list (jsstring * jsstring))
    (env : gmap jsstring jsstring) : gmap jsstring jsstring :=
  fold_left
    (fun env '(key, value) => if unset env key then <[key := value]> env else env)
    defaults env.

(** What a call of [buildPreflightPolicy] leaves behind: the calls made to
    the file system, the environment object it was given (it assigns to it)
    and the policy returned or the error thrown. *)
Record Outcome := mkOutcome {
  fs_calls : list FsCall;
  env_after : gmap jsstring jsstring;
  result : PreflightError + PreflightPolicy
}.

(** Sequencing of the directory checks: the first error ends the run. *)
Definition and_then (step : list FsCall -> list FsCall * option PreflightError)
    (rest : list FsCall -> list FsCall * option PreflightError)
    (history : list FsCall) : list FsCall * option PreflightError :=
  match step history with
  | (history', None) => rest history'
  | thrown => thrown
  end.

Definition buildPreflightPolicy (options : BuildPreflightPolicyOptions)
  : Outcome :=
  let env := options_env options in
  let outputDirName := default (js "output") (outputDirName options) in
  let throw history error := mkOutcome history env (inl error) in
  match toAbsoluteDirectory (getPath options userData) (path_label userData) with
  | inl error => throw [] error
  | inr userDataDir =>
  match toAbsoluteDirectory (getPath options sessionData)
          (path_label sessionData) with
  | inl error => throw [] error
  | inr sessionDataDir =>
  match toAbsoluteDirectory (getPath options logs) (path_label logs) with
  | inl error => throw [] error
  | inr logsDir =>
  match toAbsoluteDirectory (getPath options temp) (path_label temp) with
  | inl error => throw [] error
  | inr tempDir =>
      let outputDir := path_resolve [userDataDir; outputDirName] in
      match
        and_then (ensureDirectoryWritable userDataDir E_PREFLIGHT_PATH_INVALID)
          (and_then
             (ensureDirectoryWritable sessionDataDir E_PREFLIGHT_PATH_INVALID)
             (and_then
                (ensureDirectoryWritable logsDir E_PREFLIGHT_PATH_INVALID)
                (and_then
                   (ensureDirectoryWritable tempDir E_PREFLIGHT_PATH_INVALID)
                   (ensureDirectoryWritable outputDir E_OUTPUT_UNWRITABLE))))
          []
      with
      | (history, Some error) => throw history error
      | (history, None) =>
          let env := apply_defaults REQUIRED_ENV_DEFAULTS env in
          let env := <[js "MINERU_OUTPUT_DIR" := outputDir]> env in
          mkOutcome history env
            (inr (mkPolicy DESKTOP_BACKEND_DEFAULT
                    (mkDirectories userDataDir sessionDataDir logsDir tempDir
                       outputDir)
                    env))
      end
  end end end end.

End Host.

End Preflight.

(** Every call of the list fulfils, made in order after [history]. *)
Fixpoint all_fulfil (fulfils : list Preflight.FsCall -> Preflight.FsCall -> bool)
    (history calls : list Preflight.FsCall) : bool :=
  match calls with
  | [] => true
  | call :: rest =>
      fulfils history call && all_fulfil fulfils (history ++ [call]) rest
  end.

(** The directory a call is about. *)
Definition call_dir (call : Preflight.FsCall) : jsstring :=
  match call with
  | Preflight.Mkdir dirPath | Preflight.ProbeWriteAccess dirPath _ => dirPath
  end.

(** [REQUIRED_ENV_DEFAULTS[key]] *)
Definition required_default (key : jsstring) : option jsstring :=
  snd <$> List.find (fun entry => bool_decide (fst entry = key))
            Preflight.REQUIRED_ENV_DEFAULTS.

(** The checks of one directory. *)
Definition directory_checks (dirPath : jsstring) : list Preflight.FsCall :=
  [Preflight.Mkdir dirPath;
   Preflight.ProbeWriteAccess dirPath (js ".preflight-write-check")].

(** ** The smoke runner of the desktop app (scripts/smoke-unpackaged.cjs) *)

Module Smoke.

Definition TERMINAL_STATES : list jsstring :=
  [js "succeeded"; js "failed"; js "cancelled"].

(** The object [parsed] of [parseArgs]. *)
Record Config := mkConfig {
  mode : jsstring;
  executable : option jsstring;
  label : jsstring
}.

(** The loop of [parseArgs] from an index on, [args] being the arguments
    from that index; an error is the message of the [Error] thrown.  A
    value is taken only if it is there and not empty. *)
Fixpoint parseArgs_loop (args : list jsstring) (parsed : Config)
  : jsstring + Config :=
  match args with
  | [] => inr parsed
  | current :: rest =>
      match rest with
      | (_ :: _) as next :: rest' =>
          if bool_decide (current = js "--mode") then
            parseArgs_loop rest'
              (mkConfig next (executable parsed) (label parsed))
          else if bool_decide (current = js "--executable") then
            parseArgs_loop rest'
              (mkConfig (mode parsed) (Some next) (label parsed))
          else if bool_decide (current = js "--label") then
            parseArgs_loop rest'
              (mkConfig (mode parsed) (executable parsed) next)
          else inl (js "unknown argument: " ++ current)
      | _ => inl (js "unknown argument: " ++ current)
      end
  end.

Definition parseArgs (argv : list jsstring) : jsstring + Config :=
  match
    parseArgs_loop (drop 2 argv)
      (mkConfig (js "unpackaged") None (js "unpackaged"))
  with
  | inl thrown => inl thrown
  | inr parsed =>
      if negb (bool_decide (mode parsed = js "unpackaged"))
         && negb (bool_decide (mode parsed = js "packaged"))
      then inl (js "unsupported mode: " ++ mode parsed)
      else if bool_decide (mode parsed = js "packaged")
              && match executable parsed with
                 | Some (_ :: _) => false
                 | _ => true
                 end
      then inl (js "--executable is required in packaged mode")
      else inr parsed
  end.

Section Parse.

Variable JSON_parse : jsstring -> option json.

(** The loop of [parseJsonLines] over the trimmed, non-empty lines. *)
Fixpoint parseJsonLines_loop (lines : list jsstring) : list json :=
  match lines with
  | [] => []
  | line :: rest =>
      match line with
      | 123%N :: _ =>
          match JSON_parse line with
          | Some record => record :: parseJsonLines_loop rest
          | None => parseJsonLines_loop rest
          end
      | _ => parseJsonLines_loop rest
      end
  end.

Definition parseJsonLines (logText : jsstring) : list json :=
  parseJsonLines_loop
    (List.filter (fun line => negb (bool_decide (line = [])))
       (map trim (split_lines logText))).

End Parse.

(** [record && TERMINAL_STATES.has(record.state)] *)
Definition is_terminal_record (record : json) : bool :=
  truthy record
  && match optional_member record (js "state") with
     | Some (JStr state) => bool_decide (state ∈ TERMINAL_STATES)
     | _ => false
     end.

(** The loop of [pickTerminalRecord] from an index down, [records] being
    the records up to that index in reverse; [None] is [null]. *)
Fixpoint pickTerminalRecord_loop (records : list json) : option json :=
  match records with
  | [] => None
  | record :: earlier =>
      if is_terminal_record record then Some record
      else pickTerminalRecord_loop earlier
  end.

Definition pickTerminalRecord (records : list json) : option json :=
  pickTerminalRecord_loop (rev records).

End Smoke.

(** What the loop of [parseArgs] keeps of the object it fills: a label and
    an executable that are not empty. *)
Definition filled (parsed : Smoke.Config) : Prop :=
  Smoke.label parsed <> []
  /\ forall path, Smoke.executable parsed = Some path -> path <> [].

(** [s] without the carriage return it ends with, if it does. *)
Fixpoint strip_cr (s : jsstring) : jsstring :=
  match s with
  | [] => []
  | [c] => if (c =? CR)%N then [] else [c]
  | c :: t => c :: strip_cr t
  end.

(** ** The renderer of the desktop app (renderer/index.ts) *)

Module Renderer.

(** The elements of the page the script reads with [getElementById], each
    with the property the script assigns to; [None] where the page has no
    such element.  Buttons carry [disabled], status badges [hidden], the
    others [textContent]. *)
Record Page := mkPage {
  inputFileButton : option unit;
  outputDirButton : option unit;
  runButton : option bool;
  cancelButton : option bool;
  openOutputButton : option bool;
  inputFilePath : option jsstring;
  outputDirPath : option jsstring;
  logPanel : option jsstring;
  statusSucceeded : option bool;
  statusFailed : option bool;
  statusCancelled : option bool
}.

(** A call through [window.desktopApi] that has not settled yet, with what
    the rest of its handler has captured. *)
Inductive Invocation :=
| PickInputFile
| PickOutputDir
| RunJob (inputPath outputDir : jsstring)
| CancelJob (currentJobId : jsstring)
| OpenOutputDir (outputDir : jsstring).

(** How an invocation settles: with the value its promise is typed to
    carry, or rejected with an error, given by [String(error)]. *)
Inductive Reply :=
| Picked (selected : option jsstring)
| Started (jobId : jsstring)
| CancelAnswered (accepted : bool)
| Opened
| Rejected (error : jsstring).

(** The variables of the script, the page and the invocations under way. *)
Record Renderer := mkRenderer {
  page : Page;
  selectedInputPath : jsstring;
  selectedOutputDir : jsstring;
  runningJobId : option jsstring;
  terminalState : option jsstring;
  invocations : list Invocation
}.

(** [if (element) { element.property = value; }] *)
Definition assign {A} (element : option A) (value : A) : option A :=
  match element with
  | Some _ => Some value
  | None => None
  end.

Definition with_page (v : Page) (r : Renderer) : Renderer :=
  mkRenderer v (selectedInputPath r) (selectedOutputDir r) (runningJobId r)
    (terminalState r) (invocations r).
Definition with_invocations (v : list Invocation) (r : Renderer) : Renderer :=
  mkRenderer (page r) (selectedInputPath r) (selectedOutputDir r)
    (runningJobId r) (terminalState r) v.

Section Script.

(** [JSON.stringify] of the host. *)
Variable JSON_stringify : json -> jsstring.

(** [appendLog(record)] for a record that is not a string. *)
Definition appendLog (record : json) (r : Renderer) : Renderer :=
  let p := page r in
  match logPanel p with
  | None => r
  | Some textContent =>
      let line := JSON_stringify record in
      with_page
        (mkPage (inputFileButton p) (outputDirButton p) (runButton p)
           (cancelButton p) (openOutputButton p) (inputFilePath p)
           (outputDirPath p) (Some (textContent ++ line ++ [LF]))
           (statusSucceeded p) (statusFailed p) (statusCancelled p))
        r
  end.

Definition syncControls (r : Renderer) : Renderer :=
  let hasInputPath := negb (bool_decide (selectedInputPath r = [])) in
  let hasOutputDir := negb (bool_decide (selectedOutputDir r = [])) in
  let isRunning := bool_decide (is_Some (runningJobId r)) in
  let p := page r in
  with_page
    (mkPage (inputFileButton p) (outputDirButton p)
       (assign (runButton p)
          (negb hasInputPath || negb hasOutputDir || isRunning))
       (assign (cancelButton p) (negb isRunning))
       (assign (openOutputButton p) (negb hasOutputDir))
       (assign (inputFilePath p)
          (if hasInputPath then selectedInputPath r
           else js "No input file selected."))
       (assign (outputDirPath p)
          (if hasOutputDir then selectedOutputDir r
           else js "No output folder selected."))
       (logPanel p)
       (assign (statusSucceeded p)
          (negb (bool_decide (terminalState r = Some (js "succeeded")))))
       (assign (statusFailed p)
          (negb (bool_decide (terminalState r = Some (js "failed")))))
       (assign (statusCancelled p)
          (negb (bool_decide (terminalState r = Some (js "cancelled"))))))
    r.

(** The listener given to [onJobEvent]; a job event is an object, here its
    members. *)
Definition onJobEvent (jobEvent : list (jsstring * json)) (r : Renderer)
  : Renderer :=
  let foreign :=
    match runningJobId r with
    | Some (c :: id) =>
        negb (strictly_equals_string (own_property jobEvent (js "jobId"))
                (c :: id))
    | _ => false
    end in
  if foreign then r
  else
    let r := appendLog (JObj jobEvent) r in
    match own_property jobEvent (js "state") with
    | Some (JStr state) =>
        if bool_decide (state = js "succeeded")
           || bool_decide (state = js "failed")
           || bool_decide (state = js "cancelled")
        then
          syncControls
            (mkRenderer (page r) (selectedInputPath r) (selectedOutputDir r)
               None (Some state) (invocations r))
        else r
    | _ => r
    end.

(** What the user and the host do to the page. *)
Inductive Input :=
| ClickInputFile
| ClickOutputDir
| ClickRun
| ClickCancel
| ClickOpenOutput
| Settle (k : nat) (reply : Reply)
| JobEvent (jobEvent : list (jsstring * json)).

(** A click handler up to its [await]. *)
Definition invoke (invocation : Invocation) (r : Renderer) : Renderer :=
  with_invocations (invocations r ++ [invocation]) r.

Definition click_inputFile (r : Renderer) : Renderer :=
  match inputFileButton (page r) with
  | Some _ => invoke PickInputFile r
  | None => r
  end.

Definition click_outputDir (r : Renderer) : Renderer :=
  match outputDirButton (page r) with
  | Some _ => invoke PickOutputDir r
  | None => r
  end.

Definition click_run (r : Renderer) : Renderer :=
  match runButton (page r) with
  | None => r
  | Some _ =>
      if bool_decide (selectedInputPath r = [])
         || bool_decide (selectedOutputDir r = [])
         || match runningJobId r with
            | Some (_ :: _) => true
            | _ => false
            end
      then r
      else
        let r :=
          mkRenderer (page r) (selectedInputPath r) (selectedOutputDir r)
            (runningJobId r) None (invocations r) in
        let r :=
          appendLog
            (JObj [(js "type", JStr (js "ui.run"));
                   (js "inputPath", JStr (selectedInputPath r));
                   (js "outputDir", JStr (selectedOutputDir r))]) r in
        let r := syncControls r in
        invoke (RunJob (selectedInputPath r) (selectedOutputDir r)) r
  end.

Definition click_cancel (r : Renderer) : Renderer :=
  match cancelButton (page r) with
  | None => r
  | Some _ =>
      match runningJobId r with
      | Some (c :: id) => invoke (CancelJob (c :: id)) r
      | _ => r
      end
  end.

Definition click_openOutput (r : Renderer) : Renderer :=
  match openOutputButton (page r) with
  | None => r
  | Some _ =>
      match selectedOutputDir r with
      | [] => r
      | c :: dir => invoke (OpenOutputDir (c :: dir)) r
      end
  end.

(** A click handler from its [await] on, the invocation having settled
    with [reply]. *)
Definition resume (invocation : Invocation) (reply : Reply) (r : Renderer)
  : Renderer :=
  match invocation, reply with
  | PickInputFile, Picked (Some (c :: selected)) =>
      syncControls
        (appendLog
           (JObj [(js "type", JStr (js "ui.pickInputFile"));
                  (js "path", JStr (c :: selected))])
           (mkRenderer (page r) (c :: selected) (selectedOutputDir r)
              (runningJobId r) (terminalState r) (invocations r)))
  | PickOutputDir, Picked (Some (c :: selected)) =>
      syncControls
        (appendLog
           (JObj [(js "type", JStr (js "ui.pickOutputDir"));
                  (js "path", JStr (c :: selected))])
           (mkRenderer (page r) (selectedInputPath r) (c :: selected)
              (runningJobId r) (terminalState r) (invocations r)))
  | RunJob _ _, Started jobId =>
      syncControls
        (appendLog
           (JObj [(js "type", JStr (js "ui.jobStarted"));
                  (js "jobId", JStr jobId)])
           (mkRenderer (page r) (selectedInputPath r) (selectedOutputDir r)
              (Some jobId) (terminalState r) (invocations r)))
  | RunJob _ _, Rejected error =>
      syncControls
        (appendLog
           (JObj [(js "type", JStr (js "ui.error"));
                  (js "message", JStr error)])
           (mkRenderer (page r) (selectedInputPath r) (selectedOutputDir r)
              None (Some (js "failed")) (invocations r)))
  | CancelJob currentJobId, CancelAnswered accepted =>
      appendLog
        (JObj [(js "type", JStr (js "ui.cancel"));
               (js "jobId", JStr currentJobId);
               (js "accepted", JBool accepted)])
        r
  | OpenOutputDir _, Opened =>
      appendLog
        (JObj [(js "type", JStr (js "ui.openOutputDir"));
               (js "path", JStr (selectedOutputDir r))])
        r
  | OpenOutputDir _, Rejected error =>
      appendLog
        (JObj [(js "type", JStr (js "ui.error"));
               (js "message", JStr error)])
        r
  | _, _ => r
  end.

Definition step (r : Renderer) (input : Input) : Renderer :=
  match input with
  | ClickInputFile => click_inputFile r
  | ClickOutputDir => click_outputDir r
  | ClickRun => click_run r
  | ClickCancel => click_cancel r
  | ClickOpenOutput => click_openOutput r
  | Settle k reply =>
      match invocations r !! k with
      | Some invocation =>
          resume invocation reply
            (with_invocations (delete k (invocations r)) r)
      | None => r
      end
  | JobEvent jobEvent => onJobEvent jobEvent r
  end.

(** The script has run on [p]: the variables have their initial values and
    [syncControls] has been called once. *)
Definition load (p : Page) : Renderer :=
  syncControls (mkRenderer p [] [] None None []).

Definition exec (r : Renderer) (inputs : list Input) : Renderer :=
  fold_left step inputs r.

End Script.

End Renderer.

(** A text ends where a line ends: it is empty or its last code unit is a
    line feed. *)
Definition line_complete (text : jsstring) : Prop :=
  text = [] \/ exists before, text = before ++ [LF].

(** A record comes back from its line: the line [JSON.stringify] gives it
    is an object literal on one line, without white space around it, and
    [JSON.parse] reads the record from it. *)
Definition readable (JSON_stringify : json -> jsstring)
    (JSON_parse : jsstring -> option json) (record : json) : Prop :=
  head (JSON_stringify record) = Some 123%N
  /\ (LF ∉ JSON_stringify record)
  /\ trim (JSON_stringify record) = JSON_stringify record
  /\ JSON_parse (JSON_stringify record) = Some record.

(** The status badges the page shows. *)
Definition visible_badges (p : Renderer.Page) : nat :=
  count_where (fun badge => bool_decide (badge = Some false))
    [Renderer.statusSucceeded p; Renderer.statusFailed p;
     Renderer.statusCancelled p].

(** The listener of the renderer takes the job event: no job is running,
    or the event carries the id of the running job. *)
Definition taken (r : Renderer.Renderer) (jobEvent : list (jsstring * json))
  : Prop :=
  match Renderer.runningJobId r with
  | Some (c :: id) =>
      own_property jobEvent (js "jobId") = Some (JStr (c :: id))
  | _ => True
  end.


(** ** Samples for the further properties *)

(** [String(n)] for a safe integer (below 2^53 in absolute value): its
    decimal digits, with a minus sign if it is negative.  Beyond that range
    the host rounds or prints an exponent, and [decimal] is not to be used;
    the closed examples apply it to small numbers only. *)
Definition decimal (n : Z) : jsstring :=
  js (NilZero.string_of_int (Z.to_int n)).

(** A request with a language, a first page and a timeout of zero. *)
Definition sample_run_request : EngineRunRequest :=
  mkRunRequest (js "/in.pdf") (js "/out") (Some sample_jobId) None None
    (Some (js "en")) (Some 1%Z) None (Some 0%Z).

(** A POSIX host on which every signal is delivered and the child has not
    exited when the grace period is over. *)
Definition stubborn_host : Host :=
  mkHost false (fun _ _ _ => true) (fun _ => None).

(** [path.resolve] on paths that need no normalising and
    [path.isAbsolute], both of POSIX. *)
Definition sample_path_resolve (segments : list jsstring) : jsstring :=
  match segments with
  | [path] => path
  | [dir; name] => dir ++ js "/" ++ name
  | _ => []
  end.
Definition sample_path_isAbsolute (path : jsstring) : bool :=
  bool_decide (head path = Some 47%N).

Definition sample_getPath (pathName : Preflight.ElectronPathName) : jsstring :=
  js "/home/app/" ++ Preflight.path_label pathName.

(** An environment that names a method and has an empty backend. *)
Definition sample_env : gmap jsstring jsstring :=
  <[js "MINERU_METHOD" := js "ocr"]> (<[js "MINERU_BACKEND" := []]> ∅).

Definition sample_preflight : Preflight.BuildPreflightPolicyOptions :=
  Preflight.mkOptions sample_getPath sample_env None.

(** The policy of the sample preflight on a file system that can be
    written to: the empty backend is replaced, the method is kept. *)
Definition sample_policy : Preflight.PreflightPolicy :=
  Preflight.mkPolicy (js "pipeline")
    (Preflight.mkDirectories (js "/home/app/userData")
       (js "/home/app/sessionData") (js "/home/app/logs") (js "/home/app/temp")
       (js "/home/app/userData/output"))
    (<[js "MINERU_OUTPUT_DIR" := js "/home/app/userData/output"]>
       (<[js "MINERU_MODEL_SOURCE" := js "huggingface"]>
          (<[js "MINERU_METHOD" := js "ocr"]>
             (<[js "MINERU_BACKEND" := js "pipeline"]> ∅)))).

(** A file system on which every call fulfils, and one on which the output
    directory can be created but not written to. *)
Definition writable (history : list Preflight.FsCall)
    (call : Preflight.FsCall) : bool :=
  true.
Definition output_read_only (history : list Preflight.FsCall)
    (call : Preflight.FsCall) : bool :=
  match call with
  | Preflight.ProbeWriteAccess dirPath _ =>
      negb (bool_decide (dirPath = js "/home/app/userData/output"))
  | Preflight.Mkdir _ => true
  end.

(** A page with every element, as the script finds it. *)
Definition sample_page : Renderer.Page :=
  Renderer.mkPage (Some tt) (Some tt) (Some false) (Some false) (Some false)
    (Some []) (Some []) (Some []) (Some true) (Some true) (Some true).

(** [JSON.stringify] on objects whose members are strings without
    characters to escape, booleans or [null]. *)
Definition quoted (s : jsstring) : jsstring := [34%N] ++ s ++ [34%N].
Definition stringify_member (member : jsstring * json) : jsstring :=
  quoted (fst member) ++ [58%N]
  ++ match snd member with
     | JStr s => quoted s
     | JBool true => js "true"
     | JBool false => js "false"
     | _ => js "null"
     end.
Fixpoint join_commas (texts : list jsstring) : jsstring :=
  match texts with
  | [] => []
  | [text] => text
  | text :: rest => text ++ [44%N] ++ join_commas rest
  end.
Definition sample_stringify (record : json) : jsstring :=
  match record with
  | JObj members =>
      [123%N] ++ join_commas (map stringify_member members) ++ [125%N]
  | _ => js "null"
  end.

(** The records of a cancelled run in the log panel. *)
Definition started_record : json :=
  JObj [(js "type", JStr (js "ui.jobStarted")); (js "jobId", JStr sample_jobId)].
Definition cancelled_event : list (jsstring * json) :=
  [(js "jobId", JStr sample_jobId); (js "state", JStr (js "cancelled"));
   (js "errorCode", JStr E_CANCELLED)].
Definition log_parse : jsstring -> option json :=
  JSON_parse_table
    [(sample_stringify started_record, started_record);
     (sample_stringify (JObj cancelled_event), JObj cancelled_event)].

(** The renderer once an input file and an output folder are picked. *)
Definition sample_renderer : Renderer.Renderer :=
  Renderer.exec sample_stringify (Renderer.load sample_page)
    [Renderer.ClickInputFile;
     Renderer.Settle 0 (Renderer.Picked (Some (js "/in.pdf")));
     Renderer.ClickOutputDir;
     Renderer.Settle 0 (Renderer.Picked (Some (js "/out")))].


(** * Properties *)

Section Reconciliation.

Variable JSON_parse : jsstring -> option json.

(** What the resumed [finishJob] does to the bridge, in one equation. *)
Lemma finishJob_resume_unfold k fs b frame activeJob :
  reading b !! k = Some frame ->
  store b !! fr_job frame = Some activeJob ->
  let requestManifest := readResultManifest JSON_parse fs (fr_outputDir frame) in
  let outcome :=
    finishJob_outcome activeJob (fr_exitCode frame) requestManifest
      (fr_spawnError frame) in
  finishJob_resume JSON_parse k fs b =
  mkBridge (store b) (delete (fr_jobId frame) (activeJobs b)) (timers b)
    (delete k (reading b)) (terminated b)
    (delivered b ++ [mkEvent (fr_jobId frame) (fst outcome) None
                       (Some (snd outcome))])
    (resolved b ++ [(fr_job frame,
                     mkResult (fr_jobId frame) (fst outcome) (fr_exitCode frame)
                       (snd outcome) requestManifest)]).
Proof.
  intros Hk Hjob. unfold finishJob_resume. rewrite Hk, Hjob.
  cbv zeta. destruct (finishJob_outcome _ _ _ _). reflexivity.
Qed.

Lemma finishJob_resume_settles k fs b frame activeJob :
  reading b !! k = Some frame ->
  store b !! fr_job frame = Some activeJob ->
  let requestManifest := readResultManifest JSON_parse fs (fr_outputDir frame) in
  let outcome :=
    finishJob_outcome activeJob (fr_exitCode frame) requestManifest
      (fr_spawnError frame) in
  settles_with b (finishJob_resume JSON_parse k fs b) (fr_job frame)
    (mkEvent (fr_jobId frame) (fst outcome) None (Some (snd outcome)))
    (mkResult (fr_jobId frame) (fst outcome) (fr_exitCode frame) (snd outcome)
       requestManifest).
Proof.
  intros Hk Hjob. cbv zeta.
  rewrite (finishJob_resume_unfold k fs b frame activeJob Hk Hjob).
  unfold settles_with. simpl. auto 10.
Qed.

Lemma strictly_equals_string_reflect x text :
  reflect (x = Some (JStr text)) (strictly_equals_string x text).
Proof.
  destruct x as [[| | |s| |]|]; simpl; try (constructor; congruence).
  case_bool_decide; constructor; congruence.
Qed.

(** Case analysis on every test of [finishJob_outcome], each boolean test
    replaced by the proposition it decides. *)
Ltac outcome_cases :=
  unfold finishJob_outcome;
  repeat match goal with
  | |- context [bool_decide ?P] => destruct (bool_decide_reflect P)
  | |- context [strictly_equals_string ?x ?t] =>
      destruct (strictly_equals_string_reflect x t)
  | |- context [requestedCancel ?j] => destruct (requestedCancel j) eqn:?
  | |- context [timedOut ?j] => destruct (timedOut j) eqn:?
  | |- context [truthy ?v] => destruct (truthy v) eqn:?
  end; simpl.

(** The outcome, branch by branch. *)
Lemma finishJob_outcome_succeeded activeJob exitCode requestManifest spawnError :
  fst (finishJob_outcome activeJob exitCode requestManifest spawnError) = succeeded
  <-> exitCode = Some 0%Z
      /\ optional_member requestManifest (js "status")
         = Some (JStr (js "succeeded")).
Proof. outcome_cases; intuition congruence. Qed.

Lemma finishJob_outcome_cancelled activeJob exitCode requestManifest spawnError :
  fst (finishJob_outcome activeJob exitCode requestManifest spawnError) = cancelled
  <-> ~ (exitCode = Some 0%Z
         /\ optional_member requestManifest (js "status")
            = Some (JStr (js "succeeded")))
      /\ (requestedCancel activeJob = true
          \/ exitCode = Some 4%Z
          \/ optional_member requestManifest (js "status")
             = Some (JStr (js "cancelled"))).
Proof. outcome_cases; intuition congruence. Qed.

Lemma finishJob_outcome_failed activeJob exitCode requestManifest spawnError :
  fst (finishJob_outcome activeJob exitCode requestManifest spawnError) = failed
  <-> ~ (exitCode = Some 0%Z
         /\ optional_member requestManifest (js "status")
            = Some (JStr (js "succeeded")))
      /\ requestedCancel activeJob = false
      /\ exitCode <> Some 4%Z
      /\ optional_member requestManifest (js "status")
         <> Some (JStr (js "cancelled")).
Proof. outcome_cases; intuition congruence. Qed.

Lemma finishJob_outcome_terminal activeJob exitCode requestManifest spawnError :
  terminal (fst (finishJob_outcome activeJob exitCode requestManifest spawnError))
  = true.
Proof. outcome_cases; reflexivity. Qed.

Lemma truthy_not_null v : truthy v = true -> v <> JNull.
Proof. by destruct v. Qed.

Lemma nullish_coalesce_not_null x fallback :
  fallback <> JNull -> nullish_coalesce x fallback <> JNull.
Proof. by destruct x as [[]|]. Qed.

(** The error code is [null] on success and never otherwise. *)
Lemma finishJob_outcome_errorCode_null activeJob exitCode requestManifest spawnError :
  snd (finishJob_outcome activeJob exitCode requestManifest spawnError) = JNull
  <-> fst (finishJob_outcome activeJob exitCode requestManifest spawnError)
      = succeeded.
Proof.
  outcome_cases; split; try done; intros H; exfalso; revert H.
  all: try (case_bool_decide; done).
  all: try by apply nullish_coalesce_not_null.
  all: by apply truthy_not_null.
Qed.

(** The fixed table from exit code to error code. *)
Lemma mapExitCodeToErrorCode_table :
  mapExitCodeToErrorCode (Some 1%Z) = E_ENGINE_FAILED
  /\ mapExitCodeToErrorCode (Some 2%Z) = E_INVALID_INPUT
  /\ mapExitCodeToErrorCode (Some 3%Z) = E_OUTPUT_UNWRITABLE
  /\ mapExitCodeToErrorCode (Some 4%Z) = E_CANCELLED
  /\ mapExitCodeToErrorCode (Some 5%Z) = E_TIMEOUT
  /\ mapExitCodeToErrorCode None = E_ENGINE_FAILED
  /\ (forall code : Z,
         code ∉ [1%Z; 2%Z; 3%Z; 4%Z; 5%Z] ->
         mapExitCodeToErrorCode (Some code) = E_ENGINE_FAILED).
Proof.
  repeat (split; [reflexivity|]).
  intros code Hcode. unfold mapExitCodeToErrorCode, EXIT_CODE_ERROR_MAP. simpl.
  rewrite !lookup_insert_ne, lookup_empty; [done|..];
    intros <-; apply Hcode; set_solver.
Qed.

(** Reduce a statement about the resumed [finishJob] to one about
    [finishJob_outcome]. *)
Ltac settle_bare Hk Hjob :=
  do 2 eexists; split; [exact (finishJob_resume_settles _ _ _ _ _ Hk Hjob)|];
  simpl.
Ltac settle Hk Hjob :=
  settle_bare Hk Hjob; split; [reflexivity|]; split; [reflexivity|].

(** C3, success purity.  When the suspended [finishJob] of a job resumes,
    the state it settles with is [succeeded] if and only if the exit code is
    0 and the manifest read from the output directory is not [null] and has
    status ["succeeded"]; and then the error code of the result and of the
    terminal event is [null]. *)
Theorem finishJob_success_purity k fs b frame activeJob :
  reading b !! k = Some frame ->
  store b !! fr_job frame = Some activeJob ->
  exists event result,
    settles_with b (finishJob_resume JSON_parse k fs b) (fr_job frame)
      event result
    /\ res_exitCode result = fr_exitCode frame
    /\ res_manifest result
       = readResultManifest JSON_parse fs (fr_outputDir frame)
    /\ (res_state result = succeeded <->
        res_exitCode result = Some 0%Z
        /\ res_manifest result <> JNull
        /\ optional_member (res_manifest result) (js "status")
           = Some (JStr (js "succeeded")))
    /\ (res_state result = succeeded ->
        res_errorCode result = JNull /\ ev_errorCode event = Some JNull).
Proof.
  intros Hk Hjob. settle Hk Hjob. split.
  - rewrite finishJob_outcome_succeeded. split.
    + intros [Hexit Hstatus]. repeat split; try done.
      intros Hnull. rewrite Hnull in Hstatus. done.
    + intros (? & _ & ?). done.
  - intros Hs. apply finishJob_outcome_errorCode_null in Hs.
    rewrite Hs. done.
Qed.

(** C5.  In the settled result and the terminal event the error code is
    not [null] if and only if the state is not [succeeded]; and in the
    [cancelled] branch a manifest whose error code is absent or [null]
    leaves the code [E_CANCELLED]. *)
Theorem finishJob_errorCode_iff_not_succeeded k fs b frame activeJob :
  reading b !! k = Some frame ->
  store b !! fr_job frame = Some activeJob ->
  exists event result,
    settles_with b (finishJob_resume JSON_parse k fs b) (fr_job frame)
      event result
    /\ res_exitCode result = fr_exitCode frame
    /\ res_manifest result
       = readResultManifest JSON_parse fs (fr_outputDir frame)
    /\ (res_errorCode result <> JNull <-> res_state result <> succeeded)
    /\ (ev_errorCode event <> Some JNull <-> ev_state event <> succeeded)
    /\ (res_state result = cancelled ->
        optional_member (res_manifest result) (js "errorCode") = None
        \/ optional_member (res_manifest result) (js "errorCode") = Some JNull ->
        res_errorCode result = JStr E_CANCELLED)
    /\ (res_state result = failed \/ res_state result = cancelled ->
        res_errorCode result <> JNull).
Proof.
  intros Hk Hjob. settle Hk Hjob.
  pose proof (finishJob_outcome_errorCode_null activeJob (fr_exitCode frame)
    (readResultManifest JSON_parse fs (fr_outputDir frame))
    (fr_spawnError frame)) as Hnull.
  split; [by rewrite Hnull|].
  split; [rewrite <- Hnull; split; congruence|].
  split.
  - revert Hnull. generalize (readResultManifest JSON_parse fs (fr_outputDir frame)).
    intros requestManifest _. unfold finishJob_outcome.
    intros Hc [Hcode|Hcode]; rewrite Hcode in *; simpl in *;
      repeat case_match; simpl in *; done.
  - rewrite Hnull. intros [Hs|Hs]; rewrite Hs; done.
Qed.

(** C1, at the input where the code departs from it.  With
    [requestedCancel] set when the suspended [finishJob] resumes, an exit
    code 0 together with a manifest of status ["succeeded"] settles the job
    [succeeded] with a [null] error code: the success branch is tested
    before the flag is read, so the cancel that the bridge accepted is
    lost.  At every other exit code and manifest the job settles
    [cancelled] with [E_CANCELLED], as C1 says. *)
Theorem finishJob_success_tested_before_cancel k fs b frame activeJob :
  reading b !! k = Some frame ->
  store b !! fr_job frame = Some activeJob ->
  requestedCancel activeJob = true ->
  exists event result,
    settles_with b (finishJob_resume JSON_parse k fs b) (fr_job frame)
      event result
    /\ res_exitCode result = fr_exitCode frame
    /\ res_manifest result
       = readResultManifest JSON_parse fs (fr_outputDir frame)
    /\ (fr_exitCode frame = Some 0%Z
        /\ optional_member (res_manifest result) (js "status")
           = Some (JStr (js "succeeded")) ->
        res_state result = succeeded /\ res_errorCode result = JNull)
    /\ (~ (fr_exitCode frame = Some 0%Z
           /\ optional_member (res_manifest result) (js "status")
              = Some (JStr (js "succeeded"))) ->
        res_state result = cancelled
        /\ res_errorCode result = JStr E_CANCELLED).
Proof.
  intros Hk Hjob Hcancel. settle Hk Hjob.
  generalize (readResultManifest JSON_parse fs (fr_outputDir frame)).
  intros requestManifest. split; intros H.
  - pose proof (proj2 (finishJob_outcome_succeeded activeJob _ _
                         (fr_spawnError frame)) H) as Hs.
    split; [exact Hs|]. by apply finishJob_outcome_errorCode_null.
  - revert H. outcome_cases; intuition congruence.
Qed.

(** C2, at the inputs where the code departs from it.  With [timedOut] set
    when the suspended [finishJob] resumes, the flag is read in the last
    branch only.  An exit code 0 together with a manifest of status
    ["succeeded"] settles the job [succeeded] with a [null] error code.
    Failing that, a requested cancel, an exit code 4 (what the engine exits
    with when the bridge terminates it) or a manifest of status
    ["cancelled"] settles it [cancelled], with [E_CANCELLED] or the error
    code of the manifest.  The job settles [failed] with [E_TIMEOUT], as C2
    says, at the remaining inputs only. *)
Theorem finishJob_timeout_read_last k fs b frame activeJob :
  reading b !! k = Some frame ->
  store b !! fr_job frame = Some activeJob ->
  timedOut activeJob = true ->
  exists event result,
    settles_with b (finishJob_resume JSON_parse k fs b) (fr_job frame)
      event result
    /\ res_exitCode result = fr_exitCode frame
    /\ res_manifest result
       = readResultManifest JSON_parse fs (fr_outputDir frame)
    /\ (fr_exitCode frame = Some 0%Z
        /\ optional_member (res_manifest result) (js "status")
           = Some (JStr (js "succeeded")) ->
        res_state result = succeeded /\ res_errorCode result = JNull)
    /\ (~ (fr_exitCode frame = Some 0%Z
           /\ optional_member (res_manifest result) (js "status")
              = Some (JStr (js "succeeded"))) ->
        requestedCancel activeJob = true
        \/ fr_exitCode frame = Some 4%Z
        \/ optional_member (res_manifest result) (js "status")
           = Some (JStr (js "cancelled")) ->
        res_state result = cancelled
        /\ res_errorCode result
           = if requestedCancel activeJob then JStr E_CANCELLED
             else nullish_coalesce
                    (optional_member (res_manifest result) (js "errorCode"))
                    (JStr E_CANCELLED))
    /\ (~ (fr_exitCode frame = Some 0%Z
           /\ optional_member (res_manifest result) (js "status")
              = Some (JStr (js "succeeded"))) ->
        requestedCancel activeJob = false ->
        fr_exitCode frame <> Some 4%Z ->
        optional_member (res_manifest result) (js "status")
        <> Some (JStr (js "cancelled")) ->
        res_state result = failed /\ res_errorCode result = JStr E_TIMEOUT).
Proof.
  intros Hk Hjob Htimeout. settle Hk Hjob.
  generalize (readResultManifest JSON_parse fs (fr_outputDir frame)).
  intros requestManifest. split; [|split].
  - intros H.
    pose proof (proj2 (finishJob_outcome_succeeded activeJob _ _
                         (fr_spawnError frame)) H) as Hs.
    split; [exact Hs|]. by apply finishJob_outcome_errorCode_null.
  - outcome_cases; intuition congruence.
  - outcome_cases; intuition congruence.
Qed.

(** C7 as the code has it.  For a job that settles [failed] the error code
    is chosen in this order: [E_TIMEOUT] if [timedOut] is set; else the
    manifest's error code, verbatim, if it is truthy (for a string: not
    empty); else [E_ENGINE_FAILED] if there was a spawn error; else the exit
    code mapped through the fixed table 1, 2, 3, 4, 5 to [E_ENGINE_FAILED],
    [E_INVALID_INPUT], [E_OUTPUT_UNWRITABLE], [E_CANCELLED], [E_TIMEOUT],
    with [E_ENGINE_FAILED] for every other code and for [null]. *)
Theorem finishJob_failed_errorCode_priority k fs b frame activeJob :
  reading b !! k = Some frame ->
  store b !! fr_job frame = Some activeJob ->
  exists event result,
    settles_with b (finishJob_resume JSON_parse k fs b) (fr_job frame)
      event result
    /\ res_exitCode result = fr_exitCode frame
    /\ res_manifest result
       = readResultManifest JSON_parse fs (fr_outputDir frame)
    /\ (res_state result = failed ->
        (timedOut activeJob = true -> res_errorCode result = JStr E_TIMEOUT)
        /\ (timedOut activeJob = false ->
            forall code,
              optional_member (res_manifest result) (js "errorCode") = Some code ->
              truthy code = true ->
              res_errorCode result = code)
        /\ (timedOut activeJob = false ->
            (forall code,
                optional_member (res_manifest result) (js "errorCode") = Some code ->
                truthy code = false) ->
            (is_Some (fr_spawnError frame) ->
             res_errorCode result = JStr E_ENGINE_FAILED)
            /\ (fr_spawnError frame = None ->
                res_errorCode result
                = JStr (mapExitCodeToErrorCode (fr_exitCode frame)))))
    /\ mapExitCodeToErrorCode (Some 1%Z) = E_ENGINE_FAILED
    /\ mapExitCodeToErrorCode (Some 2%Z) = E_INVALID_INPUT
    /\ mapExitCodeToErrorCode (Some 3%Z) = E_OUTPUT_UNWRITABLE
    /\ mapExitCodeToErrorCode (Some 4%Z) = E_CANCELLED
    /\ mapExitCodeToErrorCode (Some 5%Z) = E_TIMEOUT
    /\ mapExitCodeToErrorCode None = E_ENGINE_FAILED
    /\ (forall code : Z,
           code ∉ [1%Z; 2%Z; 3%Z; 4%Z; 5%Z] ->
           mapExitCodeToErrorCode (Some code) = E_ENGINE_FAILED).
Proof.
  intros Hk Hjob. settle Hk Hjob.
  split; [|exact mapExitCodeToErrorCode_table].
  generalize (readResultManifest JSON_parse fs (fr_outputDir frame)).
  intros requestManifest. unfold finishJob_outcome. cbv zeta.
  destruct (optional_member requestManifest (js "errorCode")) as [code|];
    simpl default.
  - destruct (timedOut activeJob), (truthy code) eqn:Htruthy;
      repeat case_match; simpl; try done; intros _.
    all: repeat split; intros; simplify_eq; try congruence.
    all: repeat match goal with
         | H : forall c, Some ?code = Some c -> _ |- _ =>
             specialize (H code eq_refl)
         | H : bool_decide (is_Some _) = true |- _ =>
             apply bool_decide_eq_true in H
         | H : bool_decide (is_Some _) = false |- _ =>
             apply bool_decide_eq_false in H
         | H : is_Some ?x, E : ?x = None |- _ =>
             rewrite E in H; by apply is_Some_None in H
         end; try congruence; try done.
  - destruct (timedOut activeJob);
      repeat case_match; simpl; try done; intros _.
    all: repeat split; intros; simplify_eq; try congruence.
    all: repeat match goal with
         | H : bool_decide (is_Some _) = true |- _ =>
             apply bool_decide_eq_true in H
         | H : bool_decide (is_Some _) = false |- _ =>
             apply bool_decide_eq_false in H
         | H : is_Some ?x, E : ?x = None |- _ =>
             rewrite E in H; by apply is_Some_None in H
         end; try congruence; try done.
Qed.

(** C9.  The manifest reader reads [<outputDir>/result.json] and parses it;
    when the read fails (no file, unreadable) or the text is not JSON it
    returns [null] instead of failing, and the suspended [finishJob] goes
    on to settle the job from the exit code and its flags, with a [null]
    manifest in the result. *)
Theorem readResultManifest_null_on_failure k fs b frame activeJob :
  reading b !! k = Some frame ->
  store b !! fr_job frame = Some activeJob ->
  (forall raw manifest,
      fs (fr_outputDir frame ++ js "/result.json") = Some raw ->
      JSON_parse raw = Some manifest ->
      readResultManifest JSON_parse fs (fr_outputDir frame) = manifest)
  /\ (fs (fr_outputDir frame ++ js "/result.json") = None
      \/ (exists raw,
             fs (fr_outputDir frame ++ js "/result.json") = Some raw
             /\ JSON_parse raw = None) ->
      readResultManifest JSON_parse fs (fr_outputDir frame) = JNull
      /\ exists event result,
          settles_with b (finishJob_resume JSON_parse k fs b) (fr_job frame)
            event result
          /\ res_manifest result = JNull
          /\ (res_state result, res_errorCode result)
             = finishJob_outcome activeJob (fr_exitCode frame) JNull
                 (fr_spawnError frame)
          /\ (res_state result = cancelled \/ res_state result = failed)
          /\ res_errorCode result <> JNull).
Proof.
  intros Hk Hjob. split.
  - intros raw manifest Hraw Hparse. unfold readResultManifest.
    by rewrite Hraw, Hparse.
  - intros Hfail.
    assert (Hnull : readResultManifest JSON_parse fs (fr_outputDir frame) = JNull).
    { unfold readResultManifest.
      destruct Hfail as [Hraw|(raw & Hraw & Hparse)]; rewrite Hraw; [done|].
      by rewrite Hparse. }
    split; [exact Hnull|]. settle_bare Hk Hjob. rewrite Hnull.
    split; [reflexivity|]. split; [by destruct (finishJob_outcome _ _ _ _)|].
    assert (Hns :
      fst (finishJob_outcome activeJob (fr_exitCode frame) JNull
             (fr_spawnError frame)) <> succeeded).
    { rewrite finishJob_outcome_succeeded. intros [_ ?]. done. }
    split.
    + pose proof (finishJob_outcome_terminal activeJob (fr_exitCode frame)
                    JNull (fr_spawnError frame)) as Ht.
      destruct (fst (finishJob_outcome _ _ _ _)); auto; done.
    + by rewrite finishJob_outcome_errorCode_null.
Qed.

End Reconciliation.

(** ** Closed instances of the reconciliation theorems *)

Lemma finishJob_success_purity_witness :
  reading (sample_bridge [ProcessClose sample_jobId (Some 0%Z)]) !! 0
  = Some (sample_frame (Some 0%Z))
  /\ store (sample_bridge [ProcessClose sample_jobId (Some 0%Z)]) !! 0
     = Some (sample_job false false)
  /\ exists event result,
      settles_with (sample_bridge [ProcessClose sample_jobId (Some 0%Z)])
        (finishJob_resume sample_parse 0 succeeded_files
           (sample_bridge [ProcessClose sample_jobId (Some 0%Z)]))
        0 event result
      /\ res_state result = succeeded
      /\ res_errorCode result = JNull.
Proof.
  assert (Hk : reading (sample_bridge [ProcessClose sample_jobId (Some 0%Z)]) !! 0
               = Some (sample_frame (Some 0%Z))) by reflexivity.
  assert (Hjob : store (sample_bridge [ProcessClose sample_jobId (Some 0%Z)])
                 !! fr_job (sample_frame (Some 0%Z))
                 = Some (sample_job false false)) by reflexivity.
  split; [exact Hk|]. split; [exact Hjob|].
  destruct (finishJob_success_purity sample_parse 0 succeeded_files _ _ _ Hk Hjob)
    as (event & result & Hsettle & Hexit & Hmanifest & Hiff & Hnull).
  exists event, result. split; [exact Hsettle|].
  assert (Hs : res_state result = succeeded).
  { apply Hiff. rewrite Hexit, Hmanifest. vm_compute. repeat split; discriminate. }
  split; [exact Hs | apply Hnull, Hs].
Defined.

Lemma finishJob_errorCode_iff_not_succeeded_witness :
  reading (sample_bridge [ProcessClose sample_jobId (Some 4%Z)]) !! 0
  = Some (sample_frame (Some 4%Z))
  /\ store (sample_bridge [ProcessClose sample_jobId (Some 4%Z)]) !! 0
     = Some (sample_job false false)
  /\ exists event result,
      settles_with (sample_bridge [ProcessClose sample_jobId (Some 4%Z)])
        (finishJob_resume sample_parse 0 no_files
           (sample_bridge [ProcessClose sample_jobId (Some 4%Z)]))
        0 event result
      /\ (res_errorCode result <> JNull <-> res_state result <> succeeded).
Proof.
  assert (Hk : reading (sample_bridge [ProcessClose sample_jobId (Some 4%Z)]) !! 0
               = Some (sample_frame (Some 4%Z))) by reflexivity.
  assert (Hjob : store (sample_bridge [ProcessClose sample_jobId (Some 4%Z)])
                 !! fr_job (sample_frame (Some 4%Z))
                 = Some (sample_job false false)) by reflexivity.
  split; [exact Hk|]. split; [exact Hjob|].
  destruct (finishJob_errorCode_iff_not_succeeded sample_parse 0 no_files _ _ _
              Hk Hjob)
    as (event & result & Hsettle & _ & _ & Hiff & _).
  exists event, result. split; [exact Hsettle | exact Hiff].
Defined.

Lemma finishJob_success_tested_before_cancel_witness :
  reading (sample_bridge [Cancel sample_jobId;
                          ProcessClose sample_jobId (Some 0%Z)]) !! 0
  = Some (sample_frame (Some 0%Z))
  /\ store (sample_bridge [Cancel sample_jobId;
                           ProcessClose sample_jobId (Some 0%Z)]) !! 0
     = Some (sample_job true false)
  /\ requestedCancel (sample_job true false) = true
  /\ exists event result,
      settles_with
        (sample_bridge [Cancel sample_jobId; ProcessClose sample_jobId (Some 0%Z)])
        (finishJob_resume sample_parse 0 succeeded_files
           (sample_bridge [Cancel sample_jobId;
                           ProcessClose sample_jobId (Some 0%Z)]))
        0 event result
      /\ res_state result = succeeded
      /\ res_errorCode result = JNull.
Proof.
  assert (Hk : reading (sample_bridge [Cancel sample_jobId;
                                       ProcessClose sample_jobId (Some 0%Z)]) !! 0
               = Some (sample_frame (Some 0%Z))) by reflexivity.
  assert (Hjob : store (sample_bridge [Cancel sample_jobId;
                                       ProcessClose sample_jobId (Some 0%Z)])
                 !! fr_job (sample_frame (Some 0%Z))
                 = Some (sample_job true false)) by reflexivity.
  split; [exact Hk|]. split; [exact Hjob|]. split; [reflexivity|].
  destruct (finishJob_success_tested_before_cancel sample_parse 0
              succeeded_files _ _ _ Hk Hjob eq_refl)
    as (event & result & Hsettle & _ & Hmanifest & Hsucceeded & _).
  exists event, result. split; [exact Hsettle|].
  apply Hsucceeded. split; [reflexivity|].
  rewrite Hmanifest. reflexivity.
Defined.

(** The run behind it, from a fresh bridge: the job is started, [cancel] is
    called and accepted, the process closes with exit code 0 having written
    a manifest of status ["succeeded"], and the job settles [succeeded] with
    a [null] error code. *)
Lemma cancelled_job_settles_succeeded :
  requestedCancel
    <$> store (sample_bridge [Cancel sample_jobId;
                              ProcessClose sample_jobId (Some 0%Z)]) !! 0
  = Some true
  /\ map ev_state
       (delivered
          (finishJob_resume sample_parse 0 succeeded_files
             (sample_bridge [Cancel sample_jobId;
                             ProcessClose sample_jobId (Some 0%Z)])))
     = [queued; running; succeeded]
  /\ map (fun r => (res_state (snd r), res_errorCode (snd r)))
       (resolved
          (finishJob_resume sample_parse 0 succeeded_files
             (sample_bridge [Cancel sample_jobId;
                             ProcessClose sample_jobId (Some 0%Z)])))
     = [(succeeded, JNull)].
Proof. repeat split; reflexivity. Qed.

Lemma finishJob_timeout_read_last_witness :
  reading (sample_bridge [TimerFired 0; ProcessClose sample_jobId (Some 4%Z)]) !! 0
  = Some (sample_frame (Some 4%Z))
  /\ store (sample_bridge [TimerFired 0;
                           ProcessClose sample_jobId (Some 4%Z)]) !! 0
     = Some (sample_job false true)
  /\ timedOut (sample_job false true) = true
  /\ exists event result,
      settles_with
        (sample_bridge [TimerFired 0; ProcessClose sample_jobId (Some 4%Z)])
        (finishJob_resume sample_parse 0 no_files
           (sample_bridge [TimerFired 0; ProcessClose sample_jobId (Some 4%Z)]))
        0 event result
      /\ res_state result = cancelled
      /\ res_errorCode result = JStr E_CANCELLED.
Proof.
  assert (Hk : reading (sample_bridge [TimerFired 0;
                                       ProcessClose sample_jobId (Some 4%Z)]) !! 0
               = Some (sample_frame (Some 4%Z))) by reflexivity.
  assert (Hjob : store (sample_bridge [TimerFired 0;
                                       ProcessClose sample_jobId (Some 4%Z)])
                 !! fr_job (sample_frame (Some 4%Z))
                 = Some (sample_job false true)) by reflexivity.
  split; [exact Hk|]. split; [exact Hjob|]. split; [reflexivity|].
  destruct (finishJob_timeout_read_last sample_parse 0 no_files _ _ _
              Hk Hjob eq_refl)
    as (event & result & Hsettle & _ & Hmanifest & _ & Hcancelled & _).
  exists event, result. split; [exact Hsettle|].
  assert (Hnot : ~ (fr_exitCode (sample_frame (Some 4%Z)) = Some 0%Z
                    /\ optional_member (res_manifest result) (js "status")
                       = Some (JStr (js "succeeded")))).
  { intros [Hexit _]. discriminate Hexit. }
  destruct (Hcancelled Hnot (or_intror (or_introl eq_refl))) as [Hstate Hcode].
  split; [exact Hstate|]. rewrite Hcode, Hmanifest. reflexivity.
Defined.

(** The runs behind it, from a fresh bridge.  The watcher of the job fires
    and sets [timedOut]; the process then closes with exit code 0 and a
    manifest of status ["succeeded"], and the job settles [succeeded]; or it
    closes with exit code 4 and no manifest, and the job settles
    [cancelled] with [E_CANCELLED]. *)
Lemma timed_out_job_settles_otherwise :
  timedOut
    <$> store (sample_bridge [TimerFired 0;
                              ProcessClose sample_jobId (Some 0%Z)]) !! 0
  = Some true
  /\ map (fun r => (res_state (snd r), res_errorCode (snd r)))
       (resolved
          (finishJob_resume sample_parse 0 succeeded_files
             (sample_bridge [TimerFired 0;
                             ProcessClose sample_jobId (Some 0%Z)])))
     = [(succeeded, JNull)]
  /\ timedOut
       <$> store (sample_bridge [TimerFired 0;
                                 ProcessClose sample_jobId (Some 4%Z)]) !! 0
     = Some true
  /\ map (fun r => (res_state (snd r), res_errorCode (snd r)))
       (resolved
          (finishJob_resume sample_parse 0 no_files
             (sample_bridge [TimerFired 0;
                             ProcessClose sample_jobId (Some 4%Z)])))
     = [(cancelled, JStr E_CANCELLED)].
Proof. repeat split; reflexivity. Qed.

Lemma finishJob_failed_errorCode_priority_witness :
  reading (sample_bridge [ProcessClose sample_jobId (Some 2%Z)]) !! 0
  = Some (sample_frame (Some 2%Z))
  /\ store (sample_bridge [ProcessClose sample_jobId (Some 2%Z)]) !! 0
     = Some (sample_job false false)
  /\ exists event result,
      settles_with (sample_bridge [ProcessClose sample_jobId (Some 2%Z)])
        (finishJob_resume sample_parse 0 no_files
           (sample_bridge [ProcessClose sample_jobId (Some 2%Z)]))
        0 event result
      /\ (res_state result = failed ->
          res_errorCode result = JStr E_INVALID_INPUT).
Proof.
  assert (Hk : reading (sample_bridge [ProcessClose sample_jobId (Some 2%Z)]) !! 0
               = Some (sample_frame (Some 2%Z))) by reflexivity.
  assert (Hjob : store (sample_bridge [ProcessClose sample_jobId (Some 2%Z)])
                 !! fr_job (sample_frame (Some 2%Z))
                 = Some (sample_job false false)) by reflexivity.
  split; [exact Hk|]. split; [exact Hjob|].
  destruct (finishJob_failed_errorCode_priority sample_parse 0 no_files _ _ _
              Hk Hjob)
    as (event & result & Hsettle & _ & Hmanifest & Hpriority & _).
  exists event, result. split; [exact Hsettle|].
  intros Hfailed. destruct (Hpriority Hfailed) as (_ & _ & Hrest).
  destruct (Hrest eq_refl) as [_ Htable].
  - intros code. rewrite Hmanifest. discriminate.
  - rewrite (Htable eq_refl). reflexivity.
Defined.

(** C7 does not hold as stated: a manifest whose error code is the empty
    string provides an error code that is not [null], yet the code of the
    failed job comes from the exit-code table. *)
Lemma blank_manifest_code_is_skipped :
  (fun job => (timedOut job, requestedCancel job))
    <$> store (sample_bridge [ProcessClose sample_jobId (Some 2%Z)]) !! 0
  = Some (false, false)
  /\ map (fun r =>
            (res_state (snd r),
             optional_member (res_manifest (snd r)) (js "errorCode"),
             res_errorCode (snd r)))
       (resolved
          (finishJob_resume sample_parse 0 blank_code_files
             (sample_bridge [ProcessClose sample_jobId (Some 2%Z)])))
     = [(failed, Some (JStr []), JStr E_INVALID_INPUT)]
  /\ JStr [] <> JNull
  /\ JStr E_INVALID_INPUT <> JStr [].
Proof. repeat split; try reflexivity; discriminate. Qed.

Lemma readResultManifest_null_on_failure_witness :
  reading (sample_bridge [ProcessClose sample_jobId (Some 1%Z)]) !! 0
  = Some (sample_frame (Some 1%Z))
  /\ store (sample_bridge [ProcessClose sample_jobId (Some 1%Z)]) !! 0
     = Some (sample_job false false)
  /\ readResultManifest sample_parse no_files (js "/out") = JNull
  /\ readResultManifest sample_parse
       (single_file (js "/out/result.json") (js "{not json")) (js "/out")
     = JNull.
Proof.
  assert (Hk : reading (sample_bridge [ProcessClose sample_jobId (Some 1%Z)]) !! 0
               = Some (sample_frame (Some 1%Z))) by reflexivity.
  assert (Hjob : store (sample_bridge [ProcessClose sample_jobId (Some 1%Z)])
                 !! fr_job (sample_frame (Some 1%Z))
                 = Some (sample_job false false)) by reflexivity.
  split; [exact Hk|]. split; [exact Hjob|]. split.
  - apply (readResultManifest_null_on_failure sample_parse 0 no_files _ _ _
             Hk Hjob).
    left. reflexivity.
  - apply (readResultManifest_null_on_failure sample_parse 0
             (single_file (js "/out/result.json") (js "{not json")) _ _ _
             Hk Hjob).
    right. exists (js "{not json"). split; reflexivity.
Defined.

(** ** Cancellation *)

Lemma get_job_Some b jobId ref job :
  get_job b jobId = Some (ref, job)
  <-> activeJobs b !! jobId = Some ref /\ store b !! ref = Some job.
Proof.
  unfold get_job. destruct (activeJobs b !! jobId) as [ref'|];
    [|split; [done | intros [[=] _]]].
  destruct (store b !! ref') eqn:Hjob; split.
  - intros [= -> ->]. done.
  - intros [[= ->] Hjob']. congruence.
  - done.
  - intros [[= ->] Hjob']. congruence.
Qed.

Lemma get_job_set_job b jobId ref job job' :
  get_job b jobId = Some (ref, job) ->
  get_job (set_job ref job' b) jobId = Some (ref, job').
Proof.
  rewrite !get_job_Some. intros [Hmap Hjob]. split; [exact Hmap|]. simpl.
  apply list_lookup_insert_eq. by eapply lookup_lt_Some.
Qed.

Lemma with_killTreeRef_id job :
  killTreeRef job = true -> with_killTreeRef true job = job.
Proof. destruct job. simpl. by intros ->. Qed.

(** What [requestKillTree] does for a job that is active and not settled:
    nothing while a terminator run is in flight, else it starts one. *)
Lemma requestKillTree_unsettled b jobId ref job :
  get_job b jobId = Some (ref, job) ->
  settled job = false ->
  requestKillTree jobId b
  = mkBridge (<[ref := with_killTreeRef true job]> (store b)) (activeJobs b)
      (timers b) (reading b)
      (if killTreeRef job then terminated b else terminated b ++ [ref])
      (delivered b) (resolved b).
Proof.
  intros Hget Hsettled. unfold requestKillTree. rewrite Hget, Hsettled. simpl.
  destruct (killTreeRef job) eqn:Hkill.
  - rewrite (with_killTreeRef_id job Hkill).
    apply get_job_Some in Hget as [_ Hjob].
    rewrite (list_insert_id _ _ _ Hjob). by destruct b.
  - reflexivity.
Qed.

(** What [cancel] returns and does, case by case. *)
Lemma cancel_cases jobId b :
  (snd (cancel jobId b) = false <->
   get_job b jobId = None
   \/ exists ref activeJob,
       get_job b jobId = Some (ref, activeJob) /\ settled activeJob = true)
  /\ (snd (cancel jobId b) = false -> fst (cancel jobId b) = b)
  /\ (snd (cancel jobId b) = true ->
      exists ref activeJob,
        get_job b jobId = Some (ref, activeJob)
        /\ settled activeJob = false
        /\ fst (cancel jobId b)
           = mkBridge
               (<[ref := with_killTreeRef true
                           (with_requestedCancel true activeJob)]> (store b))
               (activeJobs b) (timers b) (reading b)
               (if killTreeRef activeJob then terminated b
                else terminated b ++ [ref])
               (delivered b) (resolved b)
        /\ get_job (fst (cancel jobId b)) jobId
           = Some (ref, with_killTreeRef true
                          (with_requestedCancel true activeJob))
        /\ settled (with_killTreeRef true (with_requestedCancel true activeJob))
           = false)
  /\ delivered (fst (cancel jobId b)) = delivered b
  /\ resolved (fst (cancel jobId b)) = resolved b.
Proof.
  unfold cancel.
  destruct (get_job b jobId) as [[ref activeJob]|] eqn:Hget;
    [destruct (settled activeJob) eqn:Hsettled|]; simpl.
  - split; [split; [intros _; right; by exists ref, activeJob | done]|].
    split; [done|]. split; [intros [=]|]. done.
  - assert (Hget' :
      get_job (set_job ref (with_requestedCancel true activeJob) b) jobId
      = Some (ref, with_requestedCancel true activeJob))
      by (by eapply get_job_set_job).
    rewrite (requestKillTree_unsettled _ _ _ _ Hget' Hsettled). simpl.
    rewrite list_insert_insert_eq.
    split; [split; [done|]; intros [?|(? & ? & ? & ?)]; simplify_eq; congruence|].
    split; [done|]. split; [|done].
    intros _. exists ref, activeJob. repeat split; try done.
    apply get_job_Some in Hget as [Hmap Hjob].
    apply get_job_Some. split; [exact Hmap|]. simpl.
    apply list_lookup_insert_eq. by eapply lookup_lt_Some.
  - split; [split; [intros _; by left | done]|].
    split; [done|]. split; [intros [=]|]. done.
Qed.

(** ** The stream decoder *)

Lemma split_lines_cons c t :
  split_lines (c :: t)
  = if (c =? LF)%N then [] :: split_lines t
    else match t with
         | d :: t' =>
             if (c =? CR)%N && (d =? LF)%N then [] :: split_lines t'
             else cons_to_first c (split_lines t)
         | [] => [[c]]
         end.
Proof. reflexivity. Qed.

Lemma cons_to_first_nonempty c lines : cons_to_first c lines <> [].
Proof. by destruct lines. Qed.

Lemma split_lines_nonempty s : split_lines s <> [].
Proof.
  destruct s as [|c t]; [done|]. rewrite split_lines_cons.
  repeat case_match; try done; apply cons_to_first_nonempty.
Qed.

(** Induction two elements at a time. *)
Lemma list_pair_ind {A} (P : list A -> Prop) :
  P [] -> (forall x, P [x]) ->
  (forall x y l, P l -> P (y :: l) -> P (x :: y :: l)) ->
  forall l, P l.
Proof.
  intros Hnil Hone Hstep l.
  assert (H : P l /\ forall x, P (x :: l)); [|by destruct H].
  induction l as [|y l [IH1 IH2]]; [by split|].
  split; [apply IH2|]. intros x. apply Hstep; [exact IH1 | apply IH2].
Qed.

Lemma split_lines_single t p : split_lines t = [p] -> p = t.
Proof.
  revert p. induction t as [|c|c d t IHt IHdt] using list_pair_ind; intros p.
  - simpl. congruence.
  - simpl. case_match; congruence.
  - rewrite split_lines_cons. destruct (c =? LF)%N.
    { intros [= <- H]. destruct (split_lines_nonempty (d :: t) H). }
    destruct ((c =? CR)%N && (d =? LF)%N).
    { intros [= <- H]. destruct (split_lines_nonempty t H). }
    destruct (split_lines (d :: t)) as [|q [|q' rest]] eqn:Hs; simpl;
      [by apply split_lines_nonempty in Hs| |done].
    intros [= <-]. f_equal. by apply IHdt.
Qed.

Lemma removelast_cons_nonempty {A} (x : A) l :
  l <> [] -> removelast (x :: l) = x :: removelast l.
Proof. by destruct l. Qed.

Lemma last_cons_nonempty {A} (x : A) l : l <> [] -> last (x :: l) = last l.
Proof. by destruct l. Qed.

Lemma split_lines_app a b :
  split_lines (a ++ b)
  = removelast (split_lines a)
    ++ split_lines (default [] (last (split_lines a)) ++ b).
Proof.
  induction a as [|c|c d t IHt IHdt] using list_pair_ind.
  - reflexivity.
  - rewrite (split_lines_cons c []). change ([c] ++ b) with (c :: b).
    destruct (c =? LF)%N eqn:Hc; [|reflexivity].
    rewrite split_lines_cons, Hc. reflexivity.
  - pose proof (split_lines_nonempty t) as Hnt.
    pose proof (split_lines_nonempty (d :: t)) as Hndt.
    rewrite <- !app_comm_cons. rewrite !(split_lines_cons c).
    destruct (c =? LF)%N eqn:Hc.
    { rewrite app_comm_cons, IHdt.
      by rewrite removelast_cons_nonempty, last_cons_nonempty. }
    destruct ((c =? CR)%N && (d =? LF)%N) eqn:Hcd.
    { rewrite IHt. by rewrite removelast_cons_nonempty, last_cons_nonempty. }
    rewrite app_comm_cons, IHdt.
    destruct (split_lines (d :: t)) as [|p [|q rest]] eqn:Hs; [done| |].
    + apply split_lines_single in Hs as ->.
      change (cons_to_first c (split_lines ((d :: t) ++ b))
              = split_lines (c :: d :: (t ++ b))).
      rewrite (split_lines_cons c), Hc, Hcd. reflexivity.
    + reflexivity.
Qed.

Section Decoder.

Variable JSON_parse : jsstring -> option json.

Lemma progress_events_app jobId lines1 lines2 :
  progress_events JSON_parse jobId (lines1 ++ lines2)
  = progress_events JSON_parse jobId lines1
    ++ progress_events JSON_parse jobId lines2.
Proof. apply omap_app. Qed.

(** The loop of [consumeStdout] delivers the owed events and nothing else;
    a line that does not parse leaves no trace. *)
Lemma forward_lines_delivers jobId lines b :
  forward_lines JSON_parse jobId lines b
  = with_delivered (delivered b ++ progress_events JSON_parse jobId lines) b.
Proof.
  revert b. induction lines as [|line rest IH]; intros b.
  - simpl. rewrite app_nil_r. by destruct b.
  - unfold progress_events. simpl. unfold progress_event at 1.
    destruct (trim line) as [|c trimmed]; [apply IH|].
    destruct (JSON_parse (c :: trimmed)) as [parsed|]; [|apply IH].
    rewrite IH. unfold emitState, with_delivered. simpl.
    by rewrite <- app_assoc.
Qed.

Lemma consumeStdout_effect jobId chunk b ref job :
  get_job b jobId = Some (ref, job) ->
  consumeStdout JSON_parse jobId chunk b
  = mkBridge
      (<[ref := with_stdoutRemainder
                  (default []
                     (last (split_lines
                              (stdoutRemainder job ++ chunk_toString chunk))))
                  job]> (store b))
      (activeJobs b) (timers b) (reading b) (terminated b)
      (delivered b
       ++ progress_events JSON_parse jobId
            (removelast (split_lines
                           (stdoutRemainder job ++ chunk_toString chunk))))
      (resolved b).
Proof.
  intros Hget. unfold consumeStdout. rewrite Hget. unfold pop.
  rewrite forward_lines_delivers. reflexivity.
Qed.

Lemma removelast_app_nonempty {A} (l1 l2 : list A) :
  l2 <> [] -> removelast (l1 ++ l2) = l1 ++ removelast l2.
Proof. intros. by apply removelast_app. Qed.

Lemma last_app_nonempty {A} (l1 l2 : list A) :
  l2 <> [] -> last (l1 ++ l2) = last l2.
Proof.
  intros Hne. destruct l2 as [|x l2] using rev_ind; [done|].
  by rewrite app_assoc, !last_snoc.
Qed.

(** Feeding a stream chunk by chunk comes to splitting the whole text at
    once: the complete lines of the remainder followed by the decoded
    chunks are forwarded, and the piece after the last line break is the new
    remainder. *)
Lemma consumeStdout_all_effect jobId chunk chunks b ref job :
  get_job b jobId = Some (ref, job) ->
  consumeStdout_all JSON_parse jobId (chunk :: chunks) b
  = mkBridge
      (<[ref := with_stdoutRemainder
                  (default []
                     (last (split_lines
                              (stdoutRemainder job
                               ++ concat (map chunk_toString (chunk :: chunks))))))
                  job]> (store b))
      (activeJobs b) (timers b) (reading b) (terminated b)
      (delivered b
       ++ progress_events JSON_parse jobId
            (removelast (split_lines
                           (stdoutRemainder job
                            ++ concat (map chunk_toString (chunk :: chunks))))))
      (resolved b).
Proof.
  revert chunk b job. induction chunks as [|chunk' chunks IH];
    intros chunk b job Hget.
  - simpl. rewrite app_nil_r. by apply consumeStdout_effect.
  - change (consumeStdout_all JSON_parse jobId (chunk :: chunk' :: chunks) b)
      with (consumeStdout_all JSON_parse jobId (chunk' :: chunks)
              (consumeStdout JSON_parse jobId chunk b)).
    rewrite (consumeStdout_effect jobId chunk b ref job Hget).
    erewrite IH; last first.
    { apply get_job_Some in Hget as [Hmap Hjob]. apply get_job_Some.
      split; [exact Hmap|]. simpl. apply list_lookup_insert_eq.
      by eapply lookup_lt_Some. }
    simpl. rewrite list_insert_insert_eq.
    set (text := concat (map chunk_toString chunks)).
    rewrite (app_assoc (stdoutRemainder job)).
    rewrite (split_lines_app (stdoutRemainder job ++ chunk_toString chunk)).
    pose proof (split_lines_nonempty
      (default [] (last (split_lines
                           (stdoutRemainder job ++ chunk_toString chunk)))
       ++ chunk_toString chunk' ++ text)) as Hne.
    rewrite removelast_app_nonempty, last_app_nonempty by exact Hne.
    rewrite progress_events_app, <- app_assoc. reflexivity.
Qed.

(** The decoder sees only the decoded text: two ways of cutting a stream
    whose chunks decode to the same text give the same events and the same
    remainder. *)
Lemma consumeStdout_all_same_text jobId chunk1 chunks1 chunk2 chunks2 b ref job :
  get_job b jobId = Some (ref, job) ->
  concat (map chunk_toString (chunk1 :: chunks1))
  = concat (map chunk_toString (chunk2 :: chunks2)) ->
  consumeStdout_all JSON_parse jobId (chunk1 :: chunks1) b
  = consumeStdout_all JSON_parse jobId (chunk2 :: chunks2) b.
Proof.
  intros Hget Htext.
  rewrite !(consumeStdout_all_effect _ _ _ _ _ _ Hget). by rewrite Htext.
Qed.

(** For chunks that are strings every cut of the text is as good as the
    whole: also a cut inside a line or between a carriage return and its
    line feed. *)
Lemma consumeStdout_all_text_chunks jobId (piece : jsstring)
    (pieces : list jsstring) b ref job :
  get_job b jobId = Some (ref, job) ->
  consumeStdout_all JSON_parse jobId (map Text (piece :: pieces)) b
  = consumeStdout_all JSON_parse jobId [Text (concat (piece :: pieces))] b.
Proof.
  intros Hget. apply (consumeStdout_all_same_text _ _ _ _ _ _ _ _ Hget).
  simpl. rewrite app_nil_r. f_equal.
  induction pieces as [|p pieces IH]; [done|]. simpl. by rewrite IH.
Qed.

Lemma progress_events_one jobId c line :
  trim (c :: line) = c :: line ->
  progress_events JSON_parse jobId [c :: line]
  = match JSON_parse (c :: line) with
    | Some parsed => [mkEvent jobId running (Some parsed) None]
    | None => []
    end.
Proof.
  intros Htrim. unfold progress_events, progress_event. simpl omap.
  rewrite Htrim. by destruct (JSON_parse (c :: line)).
Qed.

(** C6, at the input where the code departs from it.  A progress line with
    a two-byte character arrives as one buffer, or as two buffers cut
    between the two bytes.  Each buffer is decoded on its own, so in the
    second case the line reaches the parser with two replacement characters
    in place of the letter: the sink receives what that text parses to, not
    the event of the uncut stream. *)
Theorem consumeStdout_cut_inside_character jobId b ref job :
  get_job b jobId = Some (ref, job) ->
  stdoutRemainder job = [] ->
  JSON_parse accented_line <> JSON_parse garbled_line ->
  delivered (consumeStdout_all JSON_parse jobId accented_whole b)
  = delivered b ++ progress_events JSON_parse jobId [accented_line]
  /\ delivered (consumeStdout_all JSON_parse jobId accented_cut b)
     = delivered b ++ progress_events JSON_parse jobId [garbled_line]
  /\ delivered (consumeStdout_all JSON_parse jobId accented_cut b)
     <> delivered (consumeStdout_all JSON_parse jobId accented_whole b).
Proof.
  intros Hget Hrem Hparse.
  assert (Hwhole :
    delivered (consumeStdout_all JSON_parse jobId accented_whole b)
    = delivered b ++ progress_events JSON_parse jobId [accented_line]).
  { unfold accented_whole.
    rewrite (consumeStdout_all_effect _ _ _ _ _ _ Hget), Hrem. reflexivity. }
  assert (Hcut :
    delivered (consumeStdout_all JSON_parse jobId accented_cut b)
    = delivered b ++ progress_events JSON_parse jobId [garbled_line]).
  { unfold accented_cut.
    rewrite (consumeStdout_all_effect _ _ _ _ _ _ Hget), Hrem. reflexivity. }
  split; [exact Hwhole|]. split; [exact Hcut|].
  rewrite Hwhole, Hcut. intros Heq. apply app_inv_head in Heq.
  apply Hparse. revert Heq.
  change accented_line with (123%N :: tail accented_line).
  change garbled_line with (123%N :: tail garbled_line).
  rewrite !progress_events_one by reflexivity.
  destruct (JSON_parse (123%N :: tail accented_line)),
           (JSON_parse (123%N :: tail garbled_line)); congruence.
Qed.

End Decoder.

Lemma consumeStdout_cut_inside_character_witness :
  get_job (sample_bridge []) sample_jobId
  = Some (0, mkJob (js "/out") false false false true (Some 0) false [])
  /\ sample_parse accented_line <> sample_parse garbled_line
  /\ map progressEvent
       (delivered (consumeStdout_all sample_parse sample_jobId accented_whole
                     (sample_bridge [])))
     = [None; None; Some accented_record]
  /\ map progressEvent
       (delivered (consumeStdout_all sample_parse sample_jobId accented_cut
                     (sample_bridge [])))
     = [None; None; Some garbled_record]
  /\ delivered (consumeStdout_all sample_parse sample_jobId accented_cut
                  (sample_bridge []))
     <> delivered (consumeStdout_all sample_parse sample_jobId accented_whole
                     (sample_bridge [])).
Proof.
  assert (Hget : get_job (sample_bridge []) sample_jobId
                 = Some (0, mkJob (js "/out") false false false true (Some 0)
                              false [])) by reflexivity.
  assert (Hparse : sample_parse accented_line <> sample_parse garbled_line)
    by (vm_compute; discriminate).
  split; [exact Hget|]. split; [exact Hparse|].
  split; [reflexivity|]. split; [reflexivity|].
  apply (consumeStdout_cut_inside_character sample_parse _ _ _ _ Hget eq_refl
           Hparse).
Defined.

(** ** Callbacks that stay with one job *)

(** [job_local] for a change that the relation does not look at. *)
Ltac job_local_frame :=
  repeat split; try done;
  [by left | exists []; split; [simpl; by rewrite app_nil_r | constructor]].

Lemma job_local_refl jobId b : job_local jobId b b.
Proof. job_local_frame. Qed.

(** Fields that [job_local] does not constrain. *)
Lemma job_local_with_timers jobId b v : job_local jobId b (with_timers v b).
Proof. job_local_frame. Qed.

Lemma job_local_with_terminated jobId b v :
  job_local jobId b (with_terminated v b).
Proof. job_local_frame. Qed.

Lemma job_local_set_job jobId b ref job job' :
  get_job b jobId = Some (ref, job) ->
  settled job' = settled job ->
  (runningEmitted job = true -> runningEmitted job' = true) ->
  job_local jobId b (set_job ref job' b).
Proof.
  intros Hget Hsettled Hrunning. repeat split; try done.
  - right. by exists ref, job, job'.
  - exists []. split; [by rewrite app_nil_r | constructor].
Qed.

Lemma job_local_trans jobId b1 b2 b3 :
  job_local jobId b1 b2 -> job_local jobId b2 b3 -> job_local jobId b1 b3.
Proof.
  intros (Hmap1 & Hread1 & Hres1 & Hstore1 & events1 & Hdel1 & Hev1)
         (Hmap2 & Hread2 & Hres2 & Hstore2 & events2 & Hdel2 & Hev2).
  assert (Hget12 : forall ref job2,
    get_job b2 jobId = Some (ref, job2) ->
    exists job1, get_job b1 jobId = Some (ref, job1)
                 /\ settled job2 = settled job1
                 /\ (runningEmitted job1 = true -> runningEmitted job2 = true)
                 /\ forall x, <[ref := x]> (store b2) = <[ref := x]> (store b1)).
  { intros ref job2 [Hm Hj]%get_job_Some. rewrite Hmap1 in Hm.
    destruct Hstore1 as [Hs|(ref' & job & job' & Hget & Hs & Hset & Hrun)].
    - exists job2. rewrite Hs in Hj |- *.
      split; [by rewrite get_job_Some|]. done.
    - apply get_job_Some in Hget as Hget'. destruct Hget' as [Hm' Hj'].
      assert (ref' = ref) as -> by congruence.
      rewrite Hs in Hj. rewrite list_lookup_insert_eq in Hj
        by (by eapply lookup_lt_Some).
      injection Hj as <-. exists job. split; [done|]. split; [done|].
      split; [done|]. intros x. by rewrite Hs, list_insert_insert_eq. }
  split; [congruence|]. split; [congruence|]. split; [congruence|]. split.
  - destruct Hstore2 as [Hs2|(ref & job2 & job2' & Hget2 & Hs2 & Hset2 & Hrun2)].
    + rewrite Hs2. exact Hstore1.
    + destruct (Hget12 _ _ Hget2) as (job1 & Hget1 & Hset1 & Hrun1 & Hins).
      right. exists ref, job1, job2'. split; [done|].
      split; [by rewrite Hs2, Hins|]. split; [congruence | auto].
  - exists (events1 ++ events2). split; [by rewrite Hdel2, Hdel1, app_assoc|].
    apply Forall_app. split; [exact Hev1|].
    eapply Forall_impl; [exact Hev2|]. simpl.
    intros e (Hid & Hstate & Hbare). split; [done|]. split; [done|].
    intros Hnone. destruct (Hbare Hnone) as (ref & job2 & Hget2 & Hrun2).
    destruct (Hget12 _ _ Hget2) as (job1 & Hget1 & _ & Hrun1 & _).
    exists ref, job1. split; [done|].
    destruct (runningEmitted job1); [|done]. by rewrite Hrun1 in Hrun2.
Qed.

Lemma emitRunningOnce_local jobId b : job_local jobId b (emitRunningOnce jobId b).
Proof.
  unfold emitRunningOnce.
  destruct (get_job b jobId) as [[ref job]|] eqn:Hget; [|apply job_local_refl].
  destruct (runningEmitted job) eqn:Hrun; [apply job_local_refl|].
  repeat split; try done.
  - right. exists ref, job, (with_runningEmitted true job). by rewrite Hrun.
  - eexists. split; [reflexivity|]. repeat constructor. intros _. eauto.
Qed.

Lemma requestKillTree_local jobId b : job_local jobId b (requestKillTree jobId b).
Proof.
  unfold requestKillTree.
  destruct (get_job b jobId) as [[ref job]|] eqn:Hget; [|apply job_local_refl].
  destruct (settled job || killTreeRef job); [apply job_local_refl|].
  eapply job_local_trans;
    [apply (job_local_with_terminated _ _ (terminated b ++ [ref]))|].
  by apply (job_local_set_job _ _ _ job).
Qed.

Lemma killTree_finally_local jobId b :
  job_local jobId b (killTree_finally jobId b).
Proof.
  unfold killTree_finally.
  destruct (get_job b jobId) as [[ref job]|] eqn:Hget; [|apply job_local_refl].
  by apply (job_local_set_job _ _ _ job).
Qed.

Lemma cancel_local jobId b : job_local jobId b (fst (cancel jobId b)).
Proof.
  unfold cancel.
  destruct (get_job b jobId) as [[ref job]|] eqn:Hget; [|apply job_local_refl].
  destruct (settled job); [apply job_local_refl|]. simpl.
  eapply job_local_trans; [|apply requestKillTree_local].
  by apply (job_local_set_job _ _ _ job).
Qed.

Lemma timeout_callback_local jobId b :
  job_local jobId b (timeout_callback jobId b).
Proof.
  unfold timeout_callback.
  destruct (get_job b jobId) as [[ref job]|] eqn:Hget; [|apply job_local_refl].
  destruct (settled job); [apply job_local_refl|].
  eapply job_local_trans; [|apply requestKillTree_local].
  by apply (job_local_set_job _ _ _ job).
Qed.

Section LocalSteps.

Variable JSON_parse : jsstring -> option json.

Lemma progress_events_running jobId lines :
  Forall (fun e => ev_jobId e = jobId /\ ev_state e = running
                   /\ progressEvent e <> None)
    (progress_events JSON_parse jobId lines).
Proof.
  induction lines as [|line lines IH]; [constructor|].
  unfold progress_events. simpl. unfold progress_event at 1.
  destruct (trim line) as [|c trimmed]; [exact IH|].
  destruct (JSON_parse (c :: trimmed)); [|exact IH].
  constructor; [done | exact IH].
Qed.

Lemma consumeStdout_local jobId chunk b :
  job_local jobId b (consumeStdout JSON_parse jobId chunk b).
Proof.
  destruct (get_job b jobId) as [[ref job]|] eqn:Hget.
  - rewrite (consumeStdout_effect JSON_parse _ _ _ _ _ Hget).
    repeat split; try done.
    + right. eexists ref, job, _. split; [done|]. split; [reflexivity|]. done.
    + eexists. split; [reflexivity|].
      eapply Forall_impl; [apply progress_events_running|]. simpl.
      intros e (? & ? & ?). done.
  - unfold consumeStdout. rewrite Hget. apply job_local_refl.
Qed.

End LocalSteps.

(** ** The effect of each callback *)

Lemma elem_of_delete {A} (l : list A) n x : x ∈ delete n l -> x ∈ l.
Proof.
  revert n. induction l as [|y l IH]; intros [|n]; simpl; try done.
  - intros. by right.
  - intros [->|Hx]%elem_of_cons; [left | right; eauto].
Qed.

Lemma finishJob_effect jobId exitCode spawnError b :
  match get_job b jobId with
  | Some (ref, job) =>
      if settled job then finishJob jobId exitCode spawnError b = b
      else
        exists timers',
          finishJob jobId exitCode spawnError b
          = mkBridge (<[ref := with_settled true job]> (store b))
              (activeJobs b) timers'
              (reading b
               ++ [mkFrame ref jobId exitCode spawnError (outputDir job)])
              (terminated b) (delivered b) (resolved b)
  | None => finishJob jobId exitCode spawnError b = b
  end.
Proof.
  unfold finishJob. destruct (get_job b jobId) as [[ref job]|]; [|done].
  destruct (settled job); [done|].
  destruct (timeoutRef job); eexists; reflexivity.
Qed.

Lemma finishJob_resume_idle JSON_parse k fs b :
  reading b !! k = None
  \/ (exists frame, reading b !! k = Some frame
                    /\ store b !! fr_job frame = None) ->
  finishJob_resume JSON_parse k fs b = b.
Proof.
  unfold finishJob_resume. intros [->|(frame & -> & ->)]; reflexivity.
Qed.

Lemma run_effect request uuid b :
  exists timeoutRef' timers',
    fst (run request uuid b)
    = mkBridge
        (store b ++ [mkJob (req_outputDir request) false false false true
                       timeoutRef' false []])
        (<[default uuid (req_jobId request) := length (store b)]> (activeJobs b))
        timers' (reading b) (terminated b)
        (delivered b
         ++ [mkEvent (default uuid (req_jobId request)) queued None None;
             mkEvent (default uuid (req_jobId request)) running None None])
        (resolved b).
Proof.
  unfold run. set (jobId := default uuid (req_jobId request)).
  set (b1 := with_activeJobs _ _).
  assert (Hget : get_job (emitState jobId queued None None b1) jobId
                 = Some (length (store b),
                         mkJob (req_outputDir request) false false false false
                           None false [])).
  { apply get_job_Some. simpl. split; [apply lookup_insert_eq|].
    by rewrite lookup_app_r, Nat.sub_diag. }
  unfold emitRunningOnce. rewrite Hget. cbn [runningEmitted].
  set (b3 := emitState jobId running None None _).
  assert (Hb3 :
    b3 = mkBridge
           (store b ++ [mkJob (req_outputDir request) false false false true
                          None false []])
           (<[jobId := length (store b)]> (activeJobs b)) (timers b)
           (reading b) (terminated b)
           (delivered b ++ [mkEvent jobId queued None None;
                            mkEvent jobId running None None])
           (resolved b)).
  { unfold b3, emitState, set_job, with_delivered, with_store. simpl.
    rewrite insert_app_r_alt, Nat.sub_diag by done. simpl.
    by rewrite <- app_assoc. }
  clearbody b3. subst b3.
  destruct (req_timeoutMs request) as [timeoutMs|];
    [destruct (0 <? timeoutMs)%Z|]; [|by eexists _, _..].
  unfold get_job. simpl. rewrite lookup_insert_eq.
  rewrite lookup_app_r, Nat.sub_diag by done. simpl.
  unfold set_job, with_timers, with_store. simpl.
  rewrite insert_app_r_alt, Nat.sub_diag by done. simpl.
  by eexists _, _.
Qed.

Section Steps.

Variable JSON_parse : jsstring -> option json.

Lemma step_job_local b c :
  match c with
  | Cancel jobId | StdoutData jobId _ | KillTreeDone jobId =>
      job_local jobId b (step JSON_parse b c)
  | TimerFired _ => exists jobId, job_local jobId b (step JSON_parse b c)
  | _ => True
  end.
Proof.
  destruct c as [| jobId | timer | jobId chunk | | | | jobId]; simpl; try done.
  - apply cancel_local.
  - destruct (timers b !! timer) as [[jobId delay]|].
    + exists jobId. eapply job_local_trans; [|apply timeout_callback_local].
      apply job_local_with_timers.
    + exists []. apply job_local_refl.
  - eapply job_local_trans; [apply emitRunningOnce_local|].
    apply consumeStdout_local.
  - apply killTree_finally_local.
Qed.

(** Promises are resolved by the resumed [finishJob] and by nothing else. *)
Lemma step_resolves_only_on_resume b c :
  (forall k fs, c <> ManifestRead k fs) ->
  resolved (step JSON_parse b c) = resolved b.
Proof.
  intros Hc. pose proof (step_job_local b c) as Hstep.
  destruct c as [request uuid | k | timer | k chunk | k err | k code | n fs | k].
  - change (step JSON_parse b (Run request uuid))
      with (fst (run request uuid b)).
    by destruct (run_effect request uuid b) as (tr & tm & ->).
  - by destruct Hstep as (_ & _ & ? & _).
  - by destruct Hstep as (? & _ & _ & ? & _).
  - by destruct Hstep as (_ & _ & ? & _).
  - change (step JSON_parse b (ProcessError k err))
      with (finishJob k None (Some err) b).
    pose proof (finishJob_effect k None (Some err) b) as Heff.
    destruct (get_job b k) as [[r j]|]; [|by rewrite Heff].
    destruct (settled j); [by rewrite Heff|]. by destruct Heff as [tm ->].
  - change (step JSON_parse b (ProcessClose k code))
      with (finishJob k code None b).
    pose proof (finishJob_effect k code None b) as Heff.
    destruct (get_job b k) as [[r j]|]; [|by rewrite Heff].
    destruct (settled j); [by rewrite Heff|]. by destruct Heff as [tm ->].
  - by destruct (Hc n fs).
  - by destruct Hstep as (_ & _ & ? & _).
Qed.

(** A [finishJob] is suspended by the [close] and [error] callbacks and by
    nothing else. *)
Lemma step_suspends_only_on_exit b c frame :
  (forall jobId exitCode, c <> ProcessClose jobId exitCode) ->
  (forall jobId error, c <> ProcessError jobId error) ->
  frame ∈ reading (step JSON_parse b c) ->
  frame ∈ reading b.
Proof.
  intros Hclose Herror. pose proof (step_job_local b c) as Hstep.
  destruct c as [request uuid | k | timer | k chunk | k err | k code | n fs | k].
  - change (step JSON_parse b (Run request uuid))
      with (fst (run request uuid b)).
    by destruct (run_effect request uuid b) as (tr & tm & ->).
  - destruct Hstep as (_ & Hr & _). by rewrite Hr.
  - destruct Hstep as (? & _ & Hr & _). by rewrite Hr.
  - destruct Hstep as (_ & Hr & _). by rewrite Hr.
  - by destruct (Herror k err).
  - by destruct (Hclose k code).
  - change (step JSON_parse b (ManifestRead n fs))
      with (finishJob_resume JSON_parse n fs b).
    destruct (reading b !! n) as [frame'|] eqn:Hframe;
      [|by rewrite finishJob_resume_idle by (by left)].
    destruct (store b !! fr_job frame') as [j|] eqn:Hj;
      [|by rewrite finishJob_resume_idle by (right; eauto)].
    rewrite (finishJob_resume_unfold JSON_parse n fs b frame' j Hframe Hj).
    simpl. apply elem_of_delete.
  - destruct Hstep as (_ & Hr & _). by rewrite Hr.
Qed.

(** C8.  [cancel(jobId)] returns [false] exactly when the job is not in the
    active map or is settled, and then leaves the bridge as it was.
    Otherwise it returns [true], sets [requestedCancel], and triggers the
    terminator, which starts a run unless one is already in flight for the
    job ([killTreeRef]); it delivers no event and resolves no promise, and
    the job stays unsettled.  A job settles by its exit callbacks only: a
    [finishJob] is suspended by a [close] or [error] callback and by no
    other callback, and a promise is resolved when a suspended [finishJob]
    resumes and by no other callback. *)
Theorem cancel_contract jobId b :
  (snd (cancel jobId b) = false <->
   get_job b jobId = None
   \/ exists ref activeJob,
       get_job b jobId = Some (ref, activeJob) /\ settled activeJob = true)
  /\ (snd (cancel jobId b) = false -> fst (cancel jobId b) = b)
  /\ (snd (cancel jobId b) = true ->
      exists ref activeJob,
        get_job b jobId = Some (ref, activeJob)
        /\ settled activeJob = false
        /\ fst (cancel jobId b)
           = mkBridge
               (<[ref := with_killTreeRef true
                           (with_requestedCancel true activeJob)]> (store b))
               (activeJobs b) (timers b) (reading b)
               (if killTreeRef activeJob then terminated b
                else terminated b ++ [ref])
               (delivered b) (resolved b)
        /\ get_job (fst (cancel jobId b)) jobId
           = Some (ref, with_killTreeRef true
                          (with_requestedCancel true activeJob))
        /\ settled (with_killTreeRef true (with_requestedCancel true activeJob))
           = false)
  /\ delivered (fst (cancel jobId b)) = delivered b
  /\ resolved (fst (cancel jobId b)) = resolved b
  /\ (forall c,
         (forall k fs, c <> ManifestRead k fs) ->
         resolved (step JSON_parse b c) = resolved b)
  /\ (forall c frame,
         (forall k exitCode, c <> ProcessClose k exitCode) ->
         (forall k error, c <> ProcessError k error) ->
         frame ∈ reading (step JSON_parse b c) ->
         frame ∈ reading b).
Proof.
  destruct (cancel_cases jobId b) as (Hfalse & Hsame & Htrue & Hdel & Hres).
  repeat (split; [assumption|]). split.
  - apply step_resolves_only_on_resume.
  - intros c frame. apply step_suspends_only_on_exit.
Qed.

End Steps.

(** ** Counting events *)

Lemma count_where_app {A} (test : A -> bool) l1 l2 :
  count_where test (l1 ++ l2) = count_where test l1 + count_where test l2.
Proof. unfold count_where. by rewrite List.filter_app, length_app. Qed.

Lemma count_where_none {A} (test : A -> bool) l :
  Forall (fun x => test x = false) l -> count_where test l = 0.
Proof.
  unfold count_where. induction 1 as [|x l Hx _ IH]; [done|].
  simpl. by rewrite Hx.
Qed.

Lemma count_where_snoc {A} (test : A -> bool) l x :
  count_where test (l ++ [x])
  = count_where test l + (if test x then 1 else 0).
Proof. rewrite count_where_app. unfold count_where. simpl. by destruct (test x). Qed.

(** ** The bare running event is delivered once *)

Section RunningOnce.

Variable JSON_parse : jsstring -> option json.

Lemma running_emitted_step jobId ref b c :
  running_emitted jobId ref b ->
  reuses jobId c = false ->
  running_emitted jobId ref (step JSON_parse b c)
  /\ bare_running_events jobId (step JSON_parse b c)
     = bare_running_events jobId b.
Proof.
  intros Hinv Hreuse. pose proof Hinv as [Hmap (job & Hjob & Hrunning)].
  assert (Hlocal : forall k b',
    job_local k b b' ->
    running_emitted jobId ref b'
    /\ bare_running_events jobId b' = bare_running_events jobId b).
  { intros k b' (Hm & _ & _ & Hstore & events & Hdel & Hev). split; [split|].
    - by rewrite Hm.
    - destruct Hstore as [->|(r & j & j' & Hget & -> & _ & Hrun)]; [eauto|].
      apply get_job_Some in Hget as [_ Hj].
      destruct (decide (r = ref)) as [->|Hne].
      + exists j'. rewrite list_lookup_insert_eq by (by eapply lookup_lt_Some).
        split; [done|]. apply Hrun. congruence.
      + exists job. by rewrite list_lookup_insert_ne.
    - unfold bare_running_events. rewrite Hdel, count_where_app.
      rewrite (count_where_none _ events); [lia|].
      eapply Forall_impl; [exact Hev|]. simpl.
      intros e (Hid & Hstate & Hbare).
      destruct (progressEvent e) eqn:Hp;
        [by rewrite (bool_decide_eq_false_2 (Some _ = None)), andb_false_r|].
      destruct (Hbare eq_refl) as (r & j & Hget & Hfalse).
      case_bool_decide as Hk; [|done]. exfalso.
      assert (k = jobId) as Hkj by congruence. rewrite Hkj in Hget.
      apply get_job_Some in Hget as [Hm' Hj]. apply Hmap in Hm' as ->.
      congruence. }
  pose proof (step_job_local JSON_parse b c) as Hstep.
  destruct c as [request uuid | k | timer | k chunk | k err | k code | n fs | k];
    try (eapply Hlocal; exact Hstep).
  - (* run, under another job id *)
    simpl in Hreuse. apply bool_decide_eq_false in Hreuse.
    change (step JSON_parse b (Run request uuid))
      with (fst (run request uuid b)).
    destruct (run_effect request uuid b) as (tr & tm & ->).
    split; [split|]; simpl.
    + intros ref'. rewrite lookup_insert_ne by done. apply Hmap.
    + exists job. split; [by apply lookup_app_l_Some | done].
    + unfold bare_running_events. simpl. rewrite count_where_app.
      rewrite (count_where_none _ [_; _]); [lia|].
      repeat constructor; simpl; by rewrite bool_decide_eq_false_2.
  - destruct Hstep as [k Hstep]. by eapply Hlocal.
  - (* error callback *)
    change (step JSON_parse b (ProcessError k err))
      with (finishJob k None (Some err) b).
    pose proof (finishJob_effect k None (Some err) b) as Heff.
    destruct (get_job b k) as [[r j]|] eqn:Hget; [|by rewrite Heff].
    destruct (settled j); [by rewrite Heff|]. destruct Heff as [tm ->].
    split; [split|]; simpl; [done| |done].
    apply get_job_Some in Hget as [_ Hj].
    destruct (decide (r = ref)) as [->|Hne].
    + exists (with_settled true j).
      rewrite list_lookup_insert_eq by (by eapply lookup_lt_Some).
      split; [done|]. simpl. congruence.
    + exists job. by rewrite list_lookup_insert_ne.
  - (* close callback *)
    change (step JSON_parse b (ProcessClose k code))
      with (finishJob k code None b).
    pose proof (finishJob_effect k code None b) as Heff.
    destruct (get_job b k) as [[r j]|] eqn:Hget; [|by rewrite Heff].
    destruct (settled j); [by rewrite Heff|]. destruct Heff as [tm ->].
    split; [split|]; simpl; [done| |done].
    apply get_job_Some in Hget as [_ Hj].
    destruct (decide (r = ref)) as [->|Hne].
    + exists (with_settled true j).
      rewrite list_lookup_insert_eq by (by eapply lookup_lt_Some).
      split; [done|]. simpl. congruence.
    + exists job. by rewrite list_lookup_insert_ne.
  - (* the manifest read completes *)
    change (step JSON_parse b (ManifestRead n fs))
      with (finishJob_resume JSON_parse n fs b).
    destruct (reading b !! n) as [frame|] eqn:Hframe;
      [|rewrite finishJob_resume_idle by (by left); by split].
    destruct (store b !! fr_job frame) as [j|] eqn:Hj;
      [|rewrite finishJob_resume_idle by (right; eauto); by split].
    rewrite (finishJob_resume_unfold JSON_parse n fs b frame j Hframe Hj).
    split; [split|]; simpl.
    + intros ref' Hdel. apply lookup_delete_Some in Hdel as [_ Hdel]. auto.
    + eauto.
    + unfold bare_running_events. simpl. rewrite count_where_snoc. simpl.
      pose proof (finishJob_outcome_terminal j (fr_exitCode frame)
        (readResultManifest JSON_parse fs (fr_outputDir frame))
        (fr_spawnError frame)) as Hterminal.
      destruct (fst (finishJob_outcome _ _ _ _)); try done;
        rewrite (bool_decide_eq_false_2 (_ = running)) by done;
        rewrite andb_false_r; simpl; lia.
Qed.

Lemma step_delivers_more b c :
  exists events, delivered (step JSON_parse b c) = delivered b ++ events.
Proof.
  pose proof (step_job_local JSON_parse b c) as Hstep.
  destruct c as [request uuid | k | timer | k chunk | k err | k code | n fs | k].
  - change (step JSON_parse b (Run request uuid))
      with (fst (run request uuid b)).
    destruct (run_effect request uuid b) as (tr & tm & ->). simpl. eauto.
  - destruct Hstep as (_ & _ & _ & _ & events & Hdel & _). eauto.
  - destruct Hstep as (? & _ & _ & _ & _ & events & Hdel & _). eauto.
  - destruct Hstep as (_ & _ & _ & _ & events & Hdel & _). eauto.
  - change (step JSON_parse b (ProcessError k err))
      with (finishJob k None (Some err) b).
    pose proof (finishJob_effect k None (Some err) b) as Heff.
    exists []. rewrite app_nil_r.
    destruct (get_job b k) as [[r j]|]; [|by rewrite Heff].
    destruct (settled j); [by rewrite Heff|]. by destruct Heff as [tm ->].
  - change (step JSON_parse b (ProcessClose k code))
      with (finishJob k code None b).
    pose proof (finishJob_effect k code None b) as Heff.
    exists []. rewrite app_nil_r.
    destruct (get_job b k) as [[r j]|]; [|by rewrite Heff].
    destruct (settled j); [by rewrite Heff|]. by destruct Heff as [tm ->].
  - change (step JSON_parse b (ManifestRead n fs))
      with (finishJob_resume JSON_parse n fs b).
    destruct (reading b !! n) as [frame|] eqn:Hframe;
      [|rewrite finishJob_resume_idle by (by left); exists [];
        by rewrite app_nil_r].
    destruct (store b !! fr_job frame) as [j|] eqn:Hj;
      [|rewrite finishJob_resume_idle by (right; eauto); exists [];
        by rewrite app_nil_r].
    rewrite (finishJob_resume_unfold JSON_parse n fs b frame j Hframe Hj).
    simpl. eauto.
  - destruct Hstep as (_ & _ & _ & _ & events & Hdel & _). eauto.
Qed.

Lemma exec_delivers_more b trace :
  exists events, delivered (exec JSON_parse b trace) = delivered b ++ events.
Proof.
  revert b. induction trace as [|c trace IH]; intros b.
  - exists []. simpl. by rewrite app_nil_r.
  - destruct (IH (step JSON_parse b c)) as [later Hlater].
    destruct (step_delivers_more b c) as [events Hevents].
    exists (events ++ later). simpl in *.
    by rewrite Hlater, Hevents, app_assoc.
Qed.

Lemma running_emitted_exec jobId ref b trace :
  running_emitted jobId ref b ->
  Forall (fun c => reuses jobId c = false) trace ->
  bare_running_events jobId (exec JSON_parse b trace)
  = bare_running_events jobId b.
Proof.
  intros Hinv Htrace. revert b Hinv.
  induction Htrace as [|c trace Hc _ IH]; intros b Hinv; [done|].
  destruct (running_emitted_step jobId ref b c Hinv Hc) as [Hinv' Hcount].
  simpl. rewrite (IH _ Hinv'). exact Hcount.
Qed.

(** C10.  [run] itself delivers the [queued] event and then the bare
    [running] event, before any callback of the child can arrive; and
    whatever callbacks follow (stdout chunks in any number among them), as
    long as no later [run] takes the same job id, these two events stay the
    first of the job and no second bare [running] event is delivered. *)
Theorem run_emits_queued_then_running_once request uuid b trace :
  delivered (fst (run request uuid b))
  = delivered b
    ++ [mkEvent (requested_jobId request uuid) queued None None;
        mkEvent (requested_jobId request uuid) running None None]
  /\ (Forall (fun c => reuses (requested_jobId request uuid) c = false)
        trace ->
      bare_running_events (requested_jobId request uuid)
        (exec JSON_parse (fst (run request uuid b)) trace)
      = bare_running_events (requested_jobId request uuid) b + 1
      /\ exists later,
          delivered (exec JSON_parse (fst (run request uuid b)) trace)
          = delivered b
            ++ [mkEvent (requested_jobId request uuid) queued None None;
                mkEvent (requested_jobId request uuid) running None None]
            ++ later).
Proof.
  unfold requested_jobId. set (jobId := default uuid (req_jobId request)).
  destruct (run_effect request uuid b) as (tr & tm & Hrun).
  fold jobId in Hrun. rewrite Hrun.
  split; [reflexivity|]. intros Htrace. split.
  - rewrite (running_emitted_exec jobId (length (store b))); [|split|done].
    + unfold bare_running_events. simpl. rewrite count_where_app.
      unfold count_where at 2. simpl.
      by rewrite !bool_decide_eq_true_2.
    + simpl. intros ref'. rewrite lookup_insert_eq. congruence.
    + simpl. eexists. split; [by rewrite lookup_app_r, Nat.sub_diag|done].
  - destruct (exec_delivers_more
                (mkBridge
                   (store b ++ [mkJob (req_outputDir request) false false false
                                  true tr false []])
                   (<[jobId := length (store b)]> (activeJobs b)) tm (reading b)
                   (terminated b)
                   (delivered b ++ [mkEvent jobId queued None None;
                                    mkEvent jobId running None None])
                   (resolved b)) trace) as [later Hlater].
    exists later. rewrite Hlater. simpl. by rewrite <- app_assoc.
Qed.

End RunningOnce.

(** ** Exactly-once settlement *)

Lemma count_where_delete {A} (test : A -> bool) l n x :
  l !! n = Some x ->
  count_where test (delete n l) + (if test x then 1 else 0)
  = count_where test l.
Proof.
  revert n. induction l as [|y l IH]; intros [|n] Hn; simplify_eq/=.
  - unfold count_where. simpl. destruct (test x); simpl; lia.
  - specialize (IH n Hn). unfold count_where in *. simpl.
    destruct (test y); simpl; lia.
Qed.

Lemma is_settled_lookup ref b job :
  store b !! ref = Some job -> is_settled ref b = settled job.
Proof. unfold is_settled. by intros ->. Qed.

Section ExactlyOnce.

Variable JSON_parse : jsstring -> option json.

Lemma job_phase_local jobId ref k b b' :
  job_owned jobId ref b ->
  job_phase jobId ref b ->
  job_local k b b' ->
  job_owned jobId ref b' /\ job_phase jobId ref b'
  /\ is_settled ref b' = is_settled ref b.
Proof.
  intros [Hown Hframes] [[job Hjob] Hphase]
         (Hm & Hr & Hres & Hstore & events & Hdel & Hev).
  assert (Hsettled : is_Some (store b' !! ref)
                     /\ is_settled ref b' = is_settled ref b).
  { unfold is_settled.
    destruct Hstore as [Hs|(r & j & j' & Hget & Hs & Hset & _)];
      rewrite Hs; [by eauto|].
    apply get_job_Some in Hget as [_ Hj].
    destruct (decide (r = ref)) as [->|Hne].
    - rewrite list_lookup_insert_eq by (by eapply lookup_lt_Some).
      rewrite Hj. eauto.
    - rewrite list_lookup_insert_ne by done. rewrite Hjob. eauto. }
  destruct Hsettled as [Hsome Hsettled].
  assert (Hterm : terminal_events jobId b' = terminal_events jobId b).
  { unfold terminal_events. rewrite Hdel, count_where_app.
    rewrite (count_where_none _ events); [lia|].
    eapply Forall_impl; [exact Hev|]. simpl. intros e (_ & -> & _).
    by rewrite andb_false_r. }
  split; [split; by rewrite ?Hm, ?Hr|]. split; [|done].
  split; [done|]. unfold suspended, resolutions in *.
  rewrite Hsettled, Hm, Hr, Hres, Hterm. exact Hphase.
Qed.

Lemma job_phase_exit jobId ref k exitCode spawnError b :
  job_owned jobId ref b ->
  job_phase jobId ref b ->
  job_owned jobId ref (finishJob k exitCode spawnError b)
  /\ job_phase jobId ref (finishJob k exitCode spawnError b)
  /\ is_settled ref (finishJob k exitCode spawnError b)
     = is_settled ref b || bool_decide (k = jobId).
Proof.
  intros [Hown Hframes] [[job Hjob] Hphase].
  pose proof (is_settled_lookup _ _ _ Hjob) as Hsettled.
  pose proof (finishJob_effect k exitCode spawnError b) as Heff.
  assert (Hidle :
    finishJob k exitCode spawnError b = b ->
    (forall r j, get_job b k = Some (r, j) -> settled j = true) ->
    job_owned jobId ref (finishJob k exitCode spawnError b)
    /\ job_phase jobId ref (finishJob k exitCode spawnError b)
    /\ is_settled ref (finishJob k exitCode spawnError b)
       = is_settled ref b || bool_decide (k = jobId)).
  { intros -> Hnot. split; [done|]. split; [by split; eauto|].
    case_bool_decide as Hk; [|by rewrite orb_false_r]. subst k.
    rewrite orb_true_r.
    destruct Hphase as [(Hs & Hmap & _)|[(Hs & _)|(Hs & _)]]; try done.
    rewrite <- (Hnot ref job); [done|]. by apply get_job_Some. }
  destruct (get_job b k) as [[r j]|] eqn:Hget;
    [|by apply Hidle; [done | intros ?? [=]]].
  destruct (settled j) eqn:Hj;
    [by apply Hidle; [done | intros ?? [= <- <-]]|].
  clear Hidle. destruct Heff as [tm ->].
  apply get_job_Some in Hget as [Hmapk Hjobk].
  unfold job_owned, job_phase, is_settled, suspended, terminal_events,
    resolutions in *. simpl.
  destruct (decide (r = ref)) as [->|Hne].
  - assert (k = jobId) as -> by auto. rewrite bool_decide_eq_true_2 by done.
    rewrite list_lookup_insert_eq by (by eapply lookup_lt_Some).
    rewrite Hjob in *. simplify_eq. rewrite Hj in *. simpl.
    split.
    { split; [done|]. intros frame [Hf| ->%list_elem_of_singleton]%elem_of_app;
        [auto | done]. }
    split; [|done]. split; [eauto|]. right. left.
    rewrite count_where_snoc. simpl. rewrite Nat.eqb_refl.
    destruct Hphase as [(_ & ? & -> & ? & ?)|[(? & _)|(? & _)]]; done.
  - assert (Hkj : k <> jobId).
    { intros ->.
      destruct Hphase as [(_ & ? & _)|[(_ & ? & _)|(_ & ? & _)]]; congruence. }
    rewrite bool_decide_eq_false_2, orb_false_r by done.
    rewrite list_lookup_insert_ne by done. rewrite Hjob in *.
    split.
    { split; [done|]. intros frame [Hf| ->%list_elem_of_singleton]%elem_of_app;
        [auto|]. simpl. split; congruence. }
    split; [|done]. split; [eauto|].
    rewrite count_where_snoc. simpl.
    rewrite (proj2 (Nat.eqb_neq r ref)) by done. rewrite Nat.add_0_r.
    exact Hphase.
Qed.

Lemma job_phase_resume jobId ref n fs b :
  job_owned jobId ref b ->
  job_phase jobId ref b ->
  job_owned jobId ref (finishJob_resume JSON_parse n fs b)
  /\ job_phase jobId ref (finishJob_resume JSON_parse n fs b)
  /\ is_settled ref (finishJob_resume JSON_parse n fs b) = is_settled ref b
  /\ (forall frame,
         reading b !! n = Some frame -> fr_job frame = ref ->
         terminal_events jobId (finishJob_resume JSON_parse n fs b) = 1
         /\ resolutions ref (finishJob_resume JSON_parse n fs b) = 1).
Proof.
  intros Howned Hphase.
  destruct (reading b !! n) as [frame|] eqn:Hframe;
    [|by rewrite finishJob_resume_idle by (by left)].
  destruct (store b !! fr_job frame) as [j|] eqn:Hj; last first.
  { rewrite finishJob_resume_idle by (right; eauto).
    split; [done|]. split; [done|]. split; [done|].
    intros frame' [= <-] Href. destruct Hphase as [[job Hjob] _]. congruence. }
  rewrite (finishJob_resume_unfold JSON_parse n fs b frame j Hframe Hj).
  destruct Howned as [Hown Hframes]. destruct Hphase as [[job Hjob] Hphase].
  pose proof (finishJob_outcome_terminal j (fr_exitCode frame)
    (readResultManifest JSON_parse fs (fr_outputDir frame))
    (fr_spawnError frame)) as Hterminal.
  pose proof (count_where_delete
    (fun frame' => Nat.eqb (fr_job frame') ref) _ _ _ Hframe) as Hdelete.
  assert (Hin : frame ∈ reading b) by (by eapply list_elem_of_lookup_2).
  unfold job_owned, job_phase, is_settled, suspended, terminal_events,
    resolutions in *. simpl.
  rewrite !count_where_snoc. simpl. rewrite Hterminal, andb_true_r.
  split.
  { split.
    - intros k [_ Hk]%lookup_delete_Some. auto.
    - intros frame' Hin'%elem_of_delete. auto. }
  destruct (decide (fr_job frame = ref)) as [Href|Href].
  - assert (Hid : fr_jobId frame = jobId) by (by apply Hframes).
    rewrite Hid, Href, lookup_delete_eq, bool_decide_eq_true_2 by done.
    rewrite Href, Nat.eqb_refl in Hdelete. rewrite Nat.eqb_refl.
    destruct Hphase as [(? & ? & Hs & ? & ?)|[(? & ? & Hs & Ht & Hr)|(? & ? & Hs & ? & ?)]];
      try lia.
    rewrite Ht, Hr. split; [|split; [done|]].
    + split; [eauto|]. right. right. repeat split; try done. lia.
    + intros frame' [= <-] _. done.
  - assert (Hid : fr_jobId frame <> jobId) by (by rewrite <- Hframes).
    rewrite lookup_delete_ne, bool_decide_eq_false_2 by done.
    rewrite (proj2 (Nat.eqb_neq (fr_job frame) ref)) in * by done.
    rewrite !Nat.add_0_r in *. rewrite Hdelete.
    split; [by split; eauto|]. split; [done|].
    intros frame' [= <-] Href'. done.
Qed.

Lemma job_phase_run jobId ref request uuid b :
  job_owned jobId ref b ->
  job_phase jobId ref b ->
  default uuid (req_jobId request) <> jobId ->
  job_owned jobId ref (fst (run request uuid b))
  /\ job_phase jobId ref (fst (run request uuid b))
  /\ is_settled ref (fst (run request uuid b)) = is_settled ref b.
Proof.
  intros [Hown Hframes] [[job Hjob] Hphase] Hother.
  destruct (run_effect request uuid b) as (tr & tm & ->).
  unfold job_owned, job_phase, is_settled, suspended, terminal_events,
    resolutions in *. simpl.
  rewrite (lookup_app_l_Some _ _ _ _ Hjob), Hjob in *.
  rewrite lookup_insert_ne by done.
  rewrite count_where_app.
  rewrite (count_where_none _ [_; _])
    by (repeat constructor; simpl; by rewrite andb_false_r).
  rewrite Nat.add_0_r.
  split; [|by split; eauto]. split; [|done].
  intros k [[_ Hlen]|[_ Hk]]%lookup_insert_Some; [|auto].
  apply lookup_lt_Some in Hjob. lia.
Qed.

(** One callback keeps the job where it is or moves it one phase on; the
    [settled] flag is set by the first exit callback of the job and by
    nothing else. *)
Lemma job_phase_step jobId ref b c :
  job_owned jobId ref b ->
  job_phase jobId ref b ->
  reuses jobId c = false ->
  job_owned jobId ref (step JSON_parse b c)
  /\ job_phase jobId ref (step JSON_parse b c)
  /\ is_settled ref (step JSON_parse b c)
     = is_settled ref b || is_exit jobId c.
Proof.
  intros Howned Hphase Hreuse.
  pose proof (step_job_local JSON_parse b c) as Hstep.
  destruct c as [request uuid | k | timer | k chunk | k err | k code | n fs | k];
    simpl is_exit; rewrite ?orb_false_r.
  - apply job_phase_run; try done. by apply bool_decide_eq_false in Hreuse.
  - by eapply job_phase_local.
  - destruct Hstep as [k Hstep]. by eapply job_phase_local.
  - by eapply job_phase_local.
  - by apply job_phase_exit.
  - by apply job_phase_exit.
  - destruct (job_phase_resume jobId ref n fs b Howned Hphase)
      as (? & ? & ? & _). done.
  - by eapply job_phase_local.
Qed.

Lemma job_phase_exec jobId ref b trace :
  job_owned jobId ref b ->
  job_phase jobId ref b ->
  Forall (fun c => reuses jobId c = false) trace ->
  job_owned jobId ref (exec JSON_parse b trace)
  /\ job_phase jobId ref (exec JSON_parse b trace)
  /\ is_settled ref (exec JSON_parse b trace)
     = is_settled ref b || existsb (is_exit jobId) trace.
Proof.
  intros Howned Hphase Htrace. revert b Howned Hphase.
  induction Htrace as [|c trace Hc _ IH]; intros b Howned Hphase.
  - simpl. by rewrite orb_false_r.
  - destruct (job_phase_step jobId ref b c Howned Hphase Hc)
      as (Howned' & Hphase' & Hsettled').
    destruct (IH _ Howned' Hphase') as (? & ? & Hsettled).
    simpl. split; [done|]. split; [done|].
    by rewrite Hsettled, Hsettled', orb_assoc.
Qed.

(** A fresh job starts in the running phase. *)
Lemma job_phase_run_fresh request uuid b :
  well_formed b ->
  unused (default uuid (req_jobId request)) b ->
  job_owned (default uuid (req_jobId request)) (length (store b))
    (fst (run request uuid b))
  /\ job_phase (default uuid (req_jobId request)) (length (store b))
       (fst (run request uuid b))
  /\ is_settled (length (store b)) (fst (run request uuid b)) = false.
Proof.
  intros (Hwf_map & Hwf_frames & Hwf_resolved) [Hun_frames Hun_events].
  destruct (run_effect request uuid b) as (tr & tm & ->).
  set (jobId := default uuid (req_jobId request)) in *.
  unfold job_owned, job_phase, is_settled, suspended, terminal_events,
    resolutions. simpl.
  rewrite lookup_app_r, Nat.sub_diag, lookup_insert_eq by done. simpl.
  rewrite count_where_app.
  rewrite (count_where_none _ [_; _])
    by (repeat constructor; simpl; by rewrite andb_false_r).
  rewrite (count_where_none _ (reading b)); last first.
  { apply Forall_forall. intros frame Hf%Hwf_frames.
    apply Nat.eqb_neq. lia. }
  rewrite (count_where_none _ (delivered b)); last first.
  { apply Forall_forall. intros e He%Hun_events.
    by rewrite bool_decide_eq_false_2. }
  rewrite (count_where_none _ (resolved b)); last first.
  { apply Forall_forall. intros r Hr%Hwf_resolved.
    apply Nat.eqb_neq. lia. }
  split; [|split; [|done]].
  - split.
    + intros k [[? _]|[_ Hk%Hwf_map]]%lookup_insert_Some; [done | lia].
    + intros frame Hf. specialize (Hwf_frames _ Hf).
      specialize (Hun_frames _ Hf). split; [lia | done].
  - split; [eauto|]. left. done.
Qed.

(** The hypothesis of well-formedness is that of every bridge the event
    loop can reach. *)
Lemma well_formed_createEngineBridge : well_formed createEngineBridge.
Proof.
  repeat split; simpl.
  - intros jobId ref Hmap. by rewrite lookup_empty in Hmap.
  - intros frame Hin. by apply elem_of_nil in Hin.
  - intros r Hin. by apply elem_of_nil in Hin.
Qed.

Lemma well_formed_step b c :
  well_formed b -> well_formed (step JSON_parse b c).
Proof.
  intros (Hmap & Hframes & Hresolved).
  assert (Hlocal : forall k b', job_local k b b' -> well_formed b').
  { intros k b' (Hm & Hr & Hres & Hstore & _).
    assert (Hlen : length (store b') = length (store b)).
    { destruct Hstore as [->|(? & ? & ? & _ & -> & _)];
        [done | apply length_insert]. }
    unfold well_formed. by rewrite Hm, Hr, Hres, Hlen. }
  pose proof (step_job_local JSON_parse b c) as Hstep.
  assert (Hexit : forall k exitCode spawnError,
    well_formed (finishJob k exitCode spawnError b)).
  { intros k exitCode spawnError.
    pose proof (finishJob_effect k exitCode spawnError b) as Heff.
    destruct (get_job b k) as [[r j]|] eqn:Hget; [|by rewrite Heff].
    destruct (settled j); [by rewrite Heff|]. destruct Heff as [tm ->].
    apply get_job_Some in Hget as [_ Hj%lookup_lt_Some].
    unfold well_formed. simpl. rewrite length_insert.
    split; [done|]. split; [|done].
    intros frame [Hf| ->%list_elem_of_singleton]%elem_of_app; [auto | done]. }
  destruct c as [request uuid | k | timer | k chunk | k err | k code | n fs | k];
    try (eapply Hlocal; exact Hstep); try apply Hexit.
  - change (step JSON_parse b (Run request uuid))
      with (fst (run request uuid b)).
    destruct (run_effect request uuid b) as (tr & tm & ->).
    unfold well_formed. simpl. rewrite length_app. simpl.
    split; [|split].
    + intros k ref [[_ <-]|[_ Hk%Hmap]]%lookup_insert_Some; lia.
    + intros frame Hf%Hframes. lia.
    + intros r Hr%Hresolved. lia.
  - destruct Hstep as [k Hstep]. by eapply Hlocal.
  - change (step JSON_parse b (ManifestRead n fs))
      with (finishJob_resume JSON_parse n fs b).
    destruct (reading b !! n) as [frame|] eqn:Hframe;
      [|by rewrite finishJob_resume_idle by (by left)].
    destruct (store b !! fr_job frame) as [j|] eqn:Hj;
      [|by rewrite finishJob_resume_idle by (right; eauto)].
    rewrite (finishJob_resume_unfold JSON_parse n fs b frame j Hframe Hj).
    unfold well_formed. simpl. split; [|split].
    + intros k ref [_ Hk]%lookup_delete_Some. eauto.
    + intros frame' Hin%elem_of_delete. auto.
    + intros r [Hr| ->%list_elem_of_singleton]%elem_of_app; [auto|].
      simpl. by eapply lookup_lt_Some.
Qed.

(** C4.  A job is started by [run] under a job id that is not in use, and
    any callbacks follow, in any order and number: calls of [cancel], the
    timeout timer, [close] and [error] callbacks, stdout chunks, the
    completion of manifest reads, callbacks of other jobs (but no second
    [run] under the same id).  Then
    - the [settled] flag of the job is set exactly if a [close] or [error]
      callback of the job has run, so it goes from false to true once and
      never back;
    - at most one terminal event is delivered for the job, and its promise
      is resolved as many times;
    - once [settled] is set, exactly one settlement is under way or done:
      either one [finishJob] is suspended at the manifest read and nothing
      is delivered yet, or the terminal event is delivered and the promise
      resolved, once each;
    - when the suspended [finishJob] resumes, that is the case. *)
Theorem exactly_once_settlement request uuid b trace :
  well_formed b ->
  unused (requested_jobId request uuid) b ->
  Forall (fun c => reuses (requested_jobId request uuid) c = false) trace ->
  is_settled (length (store b))
    (exec JSON_parse (fst (run request uuid b)) trace)
  = existsb (is_exit (requested_jobId request uuid)) trace
  /\ terminal_events (requested_jobId request uuid)
       (exec JSON_parse (fst (run request uuid b)) trace) <= 1
  /\ resolutions (length (store b))
       (exec JSON_parse (fst (run request uuid b)) trace)
     = terminal_events (requested_jobId request uuid)
         (exec JSON_parse (fst (run request uuid b)) trace)
  /\ suspended (length (store b))
       (exec JSON_parse (fst (run request uuid b)) trace)
     + terminal_events (requested_jobId request uuid)
         (exec JSON_parse (fst (run request uuid b)) trace)
     = (if is_settled (length (store b))
             (exec JSON_parse (fst (run request uuid b)) trace)
        then 1 else 0)
  /\ (forall n frame fs,
         reading (exec JSON_parse (fst (run request uuid b)) trace) !! n
         = Some frame ->
         fr_job frame = length (store b) ->
         terminal_events (requested_jobId request uuid)
           (step JSON_parse (exec JSON_parse (fst (run request uuid b)) trace)
              (ManifestRead n fs)) = 1
         /\ resolutions (length (store b))
              (step JSON_parse (exec JSON_parse (fst (run request uuid b)) trace)
                 (ManifestRead n fs)) = 1).
Proof.
  intros Hwf Hunused Htrace. unfold requested_jobId in *.
  destruct (job_phase_run_fresh request uuid b Hwf Hunused)
    as (Howned0 & Hphase0 & Hsettled0).
  destruct (job_phase_exec _ _ _ trace Howned0 Hphase0 Htrace)
    as (Howned & Hphase & Hsettled).
  rewrite Hsettled0 in Hsettled. simpl in Hsettled.
  split; [exact Hsettled|].
  destruct (job_phase_resume _ _ 0 (fun _ => None) _ Howned Hphase)
    as (_ & _ & _ & _).
  assert (Hcounts :
    terminal_events (default uuid (req_jobId request))
      (exec JSON_parse (fst (run request uuid b)) trace) <= 1
    /\ resolutions (length (store b))
         (exec JSON_parse (fst (run request uuid b)) trace)
       = terminal_events (default uuid (req_jobId request))
           (exec JSON_parse (fst (run request uuid b)) trace)
    /\ suspended (length (store b))
         (exec JSON_parse (fst (run request uuid b)) trace)
       + terminal_events (default uuid (req_jobId request))
           (exec JSON_parse (fst (run request uuid b)) trace)
       = (if is_settled (length (store b))
               (exec JSON_parse (fst (run request uuid b)) trace)
          then 1 else 0)).
  { destruct Hphase as [_ [(-> & _ & -> & -> & ->)|[(-> & _ & -> & -> & ->)
                              |(-> & _ & -> & -> & ->)]]]; lia. }
  destruct Hcounts as (? & ? & ?). repeat (split; [done|]).
  intros n frame fs Hframe Href.
  change (step JSON_parse ?b' (ManifestRead n fs))
    with (finishJob_resume JSON_parse n fs b').
  destruct (job_phase_resume _ _ n fs _ Howned Hphase) as (_ & _ & _ & Hdone).
  by apply (Hdone frame).
Qed.

End ExactlyOnce.


Lemma exactly_once_settlement_witness :
  well_formed createEngineBridge
  /\ unused (requested_jobId sample_request []) createEngineBridge
  /\ Forall (fun c => reuses (requested_jobId sample_request []) c = false)
       sample_callbacks
  /\ terminal_events (requested_jobId sample_request [])
       (exec sample_parse (fst (run sample_request [] createEngineBridge))
          sample_callbacks) <= 1
  /\ resolutions (length (store createEngineBridge))
       (exec sample_parse (fst (run sample_request [] createEngineBridge))
          sample_callbacks)
     = terminal_events (requested_jobId sample_request [])
         (exec sample_parse (fst (run sample_request [] createEngineBridge))
            sample_callbacks)
  /\ terminal_events sample_jobId (sample_bridge sample_callbacks) = 1.
Proof.
  assert (Hunused : unused (requested_jobId sample_request []) createEngineBridge).
  { split; intros x Hin; by apply elem_of_nil in Hin. }
  assert (Htrace :
    Forall (fun c => reuses (requested_jobId sample_request []) c = false)
      sample_callbacks)
    by (repeat constructor).
  split; [exact well_formed_createEngineBridge|].
  split; [exact Hunused|]. split; [exact Htrace|].
  destruct (exactly_once_settlement sample_parse sample_request []
              createEngineBridge _ well_formed_createEngineBridge Hunused Htrace)
    as (_ & Hle & Hresolved & _).
  split; [exact Hle|]. split; [exact Hresolved|].
  vm_compute. reflexivity.
Defined.

(** ** Examples *)

Example split_lines_both_conventions :
  split_lines (js "a" ++ [CR; LF] ++ js "b" ++ [LF] ++ js "c")
  = [js "a"; js "b"; js "c"].
Proof. reflexivity. Qed.

Example split_lines_lone_carriage_return :
  split_lines [CR; CR; LF; CR] = [[CR]; [CR]].
Proof. reflexivity. Qed.

Example trim_unicode_space : trim (js "  a b " ++ [0xA0%N; CR]) = js "a b".
Proof. reflexivity. Qed.

Example utf8_decode_two_bytes : utf8_decode [xc3; xa9] = [0xE9%N].
Proof. reflexivity. Qed.

Example utf8_decode_three_bytes : utf8_decode [xe8; xa7; xa3] = [0x89E3%N].
Proof. reflexivity. Qed.

Example utf8_decode_surrogate_pair :
  utf8_decode [xf0; x9f; x98; x80] = [0xD83D%N; 0xDE00%N].
Proof. reflexivity. Qed.

Example utf8_decode_cut :
  utf8_decode [xc3] ++ utf8_decode [xa9] = [0xFFFD%N; 0xFFFD%N].
Proof. reflexivity. Qed.

(** The first test of the repository: a progress line and a line that is
    not JSON, then exit code 0 with a manifest of status ["succeeded"]. *)
Example queued_running_succeeded :
  map ev_state
    (delivered
       (sample_bridge
          [StdoutData sample_jobId (Buffer (ascii_bytes (progress_line ++ [LF])));
           StdoutData sample_jobId (Buffer (ascii_bytes (js "not-json" ++ [LF])));
           ProcessClose sample_jobId (Some 0%Z);
           ManifestRead 0 succeeded_files]))
  = [queued; running; running; succeeded]
  /\ map (fun r => (res_state (snd r), res_errorCode (snd r)))
       (resolved
          (sample_bridge
             [StdoutData sample_jobId
                (Buffer (ascii_bytes (progress_line ++ [LF])));
              StdoutData sample_jobId
                (Buffer (ascii_bytes (js "not-json" ++ [LF])));
              ProcessClose sample_jobId (Some 0%Z);
              ManifestRead 0 succeeded_files]))
     = [(succeeded, JNull)].
Proof. split; vm_compute; reflexivity. Qed.

(** A progress line cut inside the line and between its carriage return
    and line feed. *)
Example progress_line_cut_in_three :
  map progressEvent
    (delivered
       (sample_bridge
          [StdoutData sample_jobId (Text (js "{"));
           StdoutData sample_jobId (Text (tail progress_line ++ [CR]));
           StdoutData sample_jobId (Text [LF])]))
  = [None; None; Some progress_record].
Proof. vm_compute. reflexivity. Qed.

(** The timeout test of the repository: the child ignores the graceful
    signal and is killed, so it closes without an exit code or manifest. *)
Example timeout_then_killed :
  map (fun r => (res_state (snd r), res_exitCode (snd r), res_errorCode (snd r)))
    (resolved
       (sample_bridge
          [TimerFired 0; ProcessClose sample_jobId None;
           ManifestRead 0 no_files]))
  = [(failed, None, JStr E_TIMEOUT)]
  /\ terminated
       (sample_bridge
          [TimerFired 0; ProcessClose sample_jobId None;
           ManifestRead 0 no_files])
     = [0].
Proof. split; vm_compute; reflexivity. Qed.


(** * Further properties *)

(** ** The flags of a job record *)

Lemma flags_kept_refl job : flags_kept job job.
Proof. unfold flags_kept. tauto. Qed.

Lemma flags_kept_trans job1 job2 job3 :
  flags_kept job1 job2 -> flags_kept job2 job3 -> flags_kept job1 job3.
Proof.
  unfold flags_kept. intros (Ho & Hc & Ht & Hr & Hs) (Ho' & Hc' & Ht' & Hr' & Hs').
  split; [congruence|]. split; [auto|]. split; [auto|]. split; [auto|].
  intros Hset. destruct (Hs Hset) as (H1 & H2 & H3).
  destruct (Hs' H1) as (H1' & H2' & H3'). repeat split; congruence.
Qed.

Lemma records_kept_refl b : records_kept b b.
Proof. intros ref job H. exists job. split; [done|apply flags_kept_refl]. Qed.

Lemma records_kept_trans b1 b2 b3 :
  records_kept b1 b2 -> records_kept b2 b3 -> records_kept b1 b3.
Proof.
  intros H12 H23 ref job H. destruct (H12 _ _ H) as (job2 & H2 & Hk2).
  destruct (H23 _ _ H2) as (job3 & H3 & Hk3). exists job3.
  split; [done|]. by eapply flags_kept_trans.
Qed.

Lemma records_kept_same b b' : store b' = store b -> records_kept b b'.
Proof. intros Hs ref job H. rewrite Hs. exists job. split; [done|apply flags_kept_refl]. Qed.

Lemma records_kept_insert b b' r job0 job1 :
  store b !! r = Some job0 ->
  flags_kept job0 job1 ->
  store b' = <[r := job1]> (store b) ->
  records_kept b b'.
Proof.
  intros Hr Hk Hs ref job H. rewrite Hs.
  destruct (decide (r = ref)) as [->|Hne].
  - exists job1. split.
    + apply list_lookup_insert_eq. by eapply lookup_lt_Some.
    + congruence.
  - exists job. split; [by rewrite list_lookup_insert_ne|apply flags_kept_refl].
Qed.

Lemma records_kept_grow b b' job1 :
  store b' = store b ++ [job1] -> records_kept b b'.
Proof.
  intros Hs ref job H. rewrite Hs. exists job.
  split; [by apply lookup_app_l_Some|apply flags_kept_refl].
Qed.

Ltac flags_kept_field :=
  unfold flags_kept; simpl; repeat split; intros; congruence.

Lemma emitRunningOnce_records jobId b : records_kept b (emitRunningOnce jobId b).
Proof.
  unfold emitRunningOnce. destruct (get_job b jobId) as [[ref job]|] eqn:Hget;
    [|apply records_kept_refl].
  destruct (runningEmitted job) eqn:Hr; [apply records_kept_refl|].
  apply get_job_Some in Hget as [_ Hjob].
  eapply records_kept_insert; [exact Hjob| |reflexivity]. flags_kept_field.
Qed.

Lemma requestKillTree_records jobId b : records_kept b (requestKillTree jobId b).
Proof.
  unfold requestKillTree. destruct (get_job b jobId) as [[ref job]|] eqn:Hget;
    [|apply records_kept_refl].
  destruct (settled job || killTreeRef job); [apply records_kept_refl|].
  apply get_job_Some in Hget as [_ Hjob].
  eapply records_kept_insert; [exact Hjob| |reflexivity]. flags_kept_field.
Qed.

Lemma killTree_finally_records jobId b : records_kept b (killTree_finally jobId b).
Proof.
  unfold killTree_finally. destruct (get_job b jobId) as [[ref job]|] eqn:Hget;
    [|apply records_kept_refl].
  apply get_job_Some in Hget as [_ Hjob].
  eapply records_kept_insert; [exact Hjob| |reflexivity]. flags_kept_field.
Qed.

Lemma cancel_records jobId b : records_kept b (fst (cancel jobId b)).
Proof.
  unfold cancel. destruct (get_job b jobId) as [[ref job]|] eqn:Hget;
    [|apply records_kept_refl].
  destruct (settled job) eqn:Hs; [apply records_kept_refl|]. simpl.
  eapply records_kept_trans; [|apply requestKillTree_records].
  apply get_job_Some in Hget as [_ Hjob].
  eapply records_kept_insert; [exact Hjob| |reflexivity]. flags_kept_field.
Qed.

Lemma timeout_callback_records jobId b : records_kept b (timeout_callback jobId b).
Proof.
  unfold timeout_callback. destruct (get_job b jobId) as [[ref job]|] eqn:Hget;
    [|apply records_kept_refl].
  destruct (settled job) eqn:Hs; [apply records_kept_refl|].
  eapply records_kept_trans; [|apply requestKillTree_records].
  apply get_job_Some in Hget as [_ Hjob].
  eapply records_kept_insert; [exact Hjob| |reflexivity]. flags_kept_field.
Qed.

Lemma consumeStdout_records JSON_parse jobId chunk b :
  records_kept b (consumeStdout JSON_parse jobId chunk b).
Proof.
  destruct (get_job b jobId) as [[ref job]|] eqn:Hget.
  - rewrite (consumeStdout_effect JSON_parse jobId chunk b ref job Hget).
    apply get_job_Some in Hget as [_ Hjob].
    eapply records_kept_insert; [exact Hjob| |reflexivity]. flags_kept_field.
  - unfold consumeStdout. rewrite Hget. apply records_kept_refl.
Qed.

Lemma finishJob_records jobId exitCode spawnError b :
  records_kept b (finishJob jobId exitCode spawnError b).
Proof.
  pose proof (finishJob_effect jobId exitCode spawnError b) as H.
  destruct (get_job b jobId) as [[ref job]|] eqn:Hget.
  - destruct (settled job) eqn:Hs; [rewrite H; apply records_kept_refl|].
    destruct H as [timers' ->]. apply get_job_Some in Hget as [_ Hjob].
    eapply records_kept_insert; [exact Hjob| |reflexivity]. flags_kept_field.
  - rewrite H. apply records_kept_refl.
Qed.

Lemma finishJob_resume_records JSON_parse k fs b :
  records_kept b (finishJob_resume JSON_parse k fs b).
Proof.
  destruct (reading b !! k) as [frame|] eqn:Hk.
  - destruct (store b !! fr_job frame) as [job|] eqn:Hjob.
    + rewrite (finishJob_resume_unfold JSON_parse k fs b frame job Hk Hjob).
      by apply records_kept_same.
    + rewrite finishJob_resume_idle; [apply records_kept_refl|]. right. eauto.
  - rewrite finishJob_resume_idle; [apply records_kept_refl|]. by left.
Qed.

Lemma run_records request uuid b : records_kept b (fst (run request uuid b)).
Proof.
  destruct (run_effect request uuid b) as (timeoutRef' & timers' & ->).
  by eapply records_kept_grow.
Qed.

Lemma step_records JSON_parse b c : records_kept b (step JSON_parse b c).
Proof.
  destruct c; simpl.
  - apply run_records.
  - apply cancel_records.
  - destruct (timers b !! timer) as [[jobId delay]|]; [|apply records_kept_refl].
    eapply records_kept_trans; [|apply timeout_callback_records].
    by apply records_kept_same.
  - eapply records_kept_trans; [apply emitRunningOnce_records|].
    apply consumeStdout_records.
  - apply finishJob_records.
  - apply finishJob_records.
  - apply finishJob_resume_records.
  - apply killTree_finally_records.
Qed.

(** X1.  Whatever callbacks run, in whatever order and for whatever jobs,
    a job record keeps its output directory, and none of its flags
    [requestedCancel], [timedOut], [runningEmitted], [settled] is ever
    cleared.  Once the record is settled, [requestedCancel] and [timedOut]
    do not change at all: a cancel or a timeout that comes after the exit
    callback cannot alter what the resumed [finishJob] reads. *)
Theorem flags_kept_by_every_callback JSON_parse trace b ref job :
  store b !! ref = Some job ->
  exists job',
    store (exec JSON_parse b trace) !! ref = Some job' /\ flags_kept job job'.
Proof.
  revert b job. induction trace as [|c trace IH]; intros b job H.
  - exists job. split; [done|apply flags_kept_refl].
  - destruct (step_records JSON_parse b c ref job H) as (job1 & H1 & Hk1).
    destruct (IH _ _ H1) as (job' & H' & Hk'). exists job'. split; [done|].
    by eapply flags_kept_trans.
Qed.

Lemma flags_kept_by_every_callback_witness :
  store (sample_bridge []) !! 0
  = Some (mkJob (js "/out") false false false true (Some 0) false [])
  /\ exists job',
      store (exec sample_parse (sample_bridge []) sample_callbacks) !! 0
      = Some job'
      /\ flags_kept (mkJob (js "/out") false false false true (Some 0) false [])
           job'.
Proof.
  split; [reflexivity|].
  apply (flags_kept_by_every_callback sample_parse sample_callbacks
           (sample_bridge []) 0).
  reflexivity.
Defined.

(** ** Runs of the process-tree terminator *)

Lemma terminator_pending_insert ref b b' r job0 job1 :
  store b !! r = Some job0 ->
  killTreeRef job1 = killTreeRef job0 ->
  store b' = <[r := job1]> (store b) ->
  terminator_pending ref b' = terminator_pending ref b.
Proof.
  intros Hr Hk Hs. unfold terminator_pending. rewrite Hs.
  destruct (decide (r = ref)) as [->|Hne].
  - rewrite list_lookup_insert_eq by (by eapply lookup_lt_Some). by rewrite Hr.
  - by rewrite list_lookup_insert_ne.
Qed.

Lemma terminator_pending_grow ref b b' job1 :
  killTreeRef job1 = false ->
  store b' = store b ++ [job1] ->
  terminator_pending ref b' = terminator_pending ref b.
Proof.
  intros Hk Hs. unfold terminator_pending. rewrite Hs.
  destruct (store b !! ref) as [job|] eqn:Hjob.
  - by rewrite (lookup_app_l_Some _ _ _ _ Hjob).
  - apply lookup_ge_None in Hjob.
    destruct (decide (ref = length (store b))) as [->|Hne].
    + by rewrite lookup_app_r, Nat.sub_diag.
    + rewrite lookup_ge_None_2; [done|]. rewrite length_app. simpl. lia.
Qed.

Lemma terminator_credit_same ref b b' :
  terminated b' = terminated b ->
  terminator_pending ref b' = terminator_pending ref b ->
  terminator_credit ref b' = terminator_credit ref b.
Proof.
  intros Ht Hp. unfold terminator_credit, terminator_runs. by rewrite Ht, Hp.
Qed.

Lemma requestKillTree_credit ref jobId b :
  terminator_credit ref (requestKillTree jobId b) = terminator_credit ref b
  /\ terminator_runs ref b <= terminator_runs ref (requestKillTree jobId b).
Proof.
  unfold requestKillTree. destruct (get_job b jobId) as [[r job]|] eqn:Hget;
    [|done].
  destruct (settled job) eqn:Hs; [done|].
  destruct (killTreeRef job) eqn:Hk; [done|]. simpl.
  apply get_job_Some in Hget as [_ Hjob].
  unfold terminator_credit, terminator_runs, terminator_pending. simpl.
  rewrite count_where_snoc.
  destruct (decide (r = ref)) as [->|Hne].
  - rewrite list_lookup_insert_eq by (by eapply lookup_lt_Some).
    rewrite Hjob, Hk, Nat.eqb_refl. simpl. lia.
  - rewrite list_lookup_insert_ne by done.
    destruct (Nat.eqb_spec ref r) as [->|_]; [done|]. lia.
Qed.

Lemma killTree_finally_credit ref jobId b :
  terminator_credit ref (killTree_finally jobId b) <= terminator_credit ref b + 1
  /\ terminator_runs ref (killTree_finally jobId b) = terminator_runs ref b.
Proof.
  unfold killTree_finally. destruct (get_job b jobId) as [[r job]|] eqn:Hget;
    [|split; [lia|done]].
  split; [|done].
  unfold terminator_credit, terminator_runs. simpl.
  destruct (terminator_pending ref _), (terminator_pending ref b); lia.
Qed.

Lemma cancel_credit ref jobId b :
  terminator_credit ref (fst (cancel jobId b)) = terminator_credit ref b.
Proof.
  unfold cancel. destruct (get_job b jobId) as [[r job]|] eqn:Hget; [|done].
  destruct (settled job) eqn:Hs; [done|]. simpl.
  rewrite (proj1 (requestKillTree_credit _ _ _)).
  apply get_job_Some in Hget as [_ Hjob].
  apply terminator_credit_same; [reflexivity|].
  eapply terminator_pending_insert; [exact Hjob| |reflexivity]; reflexivity.
Qed.

Lemma timeout_callback_credit ref jobId b :
  terminator_credit ref (timeout_callback jobId b) = terminator_credit ref b.
Proof.
  unfold timeout_callback. destruct (get_job b jobId) as [[r job]|] eqn:Hget;
    [|done].
  destruct (settled job) eqn:Hs; [done|].
  rewrite (proj1 (requestKillTree_credit _ _ _)).
  apply get_job_Some in Hget as [_ Hjob].
  apply terminator_credit_same; [reflexivity|].
  eapply terminator_pending_insert; [exact Hjob| |reflexivity]; reflexivity.
Qed.

Lemma emitRunningOnce_credit ref jobId b :
  terminator_credit ref (emitRunningOnce jobId b) = terminator_credit ref b.
Proof.
  unfold emitRunningOnce. destruct (get_job b jobId) as [[r job]|] eqn:Hget;
    [|done].
  destruct (runningEmitted job); [done|].
  apply get_job_Some in Hget as [_ Hjob].
  apply terminator_credit_same; [reflexivity|].
  eapply terminator_pending_insert; [exact Hjob| |reflexivity]; reflexivity.
Qed.

Lemma consumeStdout_credit JSON_parse ref jobId chunk b :
  terminator_credit ref (consumeStdout JSON_parse jobId chunk b)
  = terminator_credit ref b.
Proof.
  destruct (get_job b jobId) as [[r job]|] eqn:Hget.
  - rewrite (consumeStdout_effect JSON_parse jobId chunk b r job Hget).
    apply get_job_Some in Hget as [_ Hjob].
    apply terminator_credit_same; [reflexivity|].
    eapply terminator_pending_insert; [exact Hjob| |reflexivity]; reflexivity.
  - unfold consumeStdout. by rewrite Hget.
Qed.

Lemma finishJob_credit ref jobId exitCode spawnError b :
  terminator_credit ref (finishJob jobId exitCode spawnError b)
  = terminator_credit ref b.
Proof.
  pose proof (finishJob_effect jobId exitCode spawnError b) as H.
  destruct (get_job b jobId) as [[r job]|] eqn:Hget; [|by rewrite H].
  destruct (settled job) eqn:Hs; [by rewrite H|].
  destruct H as [timers' ->]. apply get_job_Some in Hget as [_ Hjob].
  apply terminator_credit_same; [reflexivity|].
  eapply terminator_pending_insert; [exact Hjob| |reflexivity]; reflexivity.
Qed.

Lemma finishJob_resume_credit JSON_parse ref k fs b :
  terminator_credit ref (finishJob_resume JSON_parse k fs b)
  = terminator_credit ref b.
Proof.
  destruct (reading b !! k) as [frame|] eqn:Hk.
  - destruct (store b !! fr_job frame) as [job|] eqn:Hjob.
    + by rewrite (finishJob_resume_unfold JSON_parse k fs b frame job Hk Hjob).
    + rewrite finishJob_resume_idle; [done|]. right. eauto.
  - rewrite finishJob_resume_idle; [done|]. by left.
Qed.

Lemma run_credit ref request uuid b :
  terminator_credit ref (fst (run request uuid b)) = terminator_credit ref b.
Proof.
  destruct (run_effect request uuid b) as (timeoutRef' & timers' & ->).
  apply terminator_credit_same; [reflexivity|].
  eapply terminator_pending_grow; [|reflexivity]; reflexivity.
Qed.

Lemma step_credit JSON_parse ref b c :
  terminator_credit ref (step JSON_parse b c)
  <= terminator_credit ref b + (if is_finally c then 1 else 0).
Proof.
  destruct c; unfold step, is_finally.
  - rewrite run_credit. lia.
  - rewrite cancel_credit. lia.
  - destruct (timers b !! timer) as [[jobId delay]|]; [|lia].
    rewrite timeout_callback_credit.
    rewrite (terminator_credit_same ref b (with_timers _ b)) by reflexivity.
    lia.
  - rewrite consumeStdout_credit, emitRunningOnce_credit. lia.
  - rewrite finishJob_credit. lia.
  - rewrite finishJob_credit. lia.
  - rewrite finishJob_resume_credit. lia.
  - apply killTree_finally_credit.
Qed.

(** X2.  Process-tree terminator runs do not pile up on a job: along any
    trace, the runs started on a record are at most one more than the
    [finally] callbacks that ran, and none more if a run was pending at the
    start.  Repeated cancels and a timeout share the one run in flight. *)
Theorem one_terminator_run_at_a_time JSON_parse trace b ref :
  terminator_runs ref (exec JSON_parse b trace)
  <= terminator_runs ref b
     + (if terminator_pending ref b then 0 else 1)
     + count_where is_finally trace.
Proof.
  enough (terminator_credit ref (exec JSON_parse b trace)
          <= terminator_credit ref b + count_where is_finally trace) as H.
  { unfold terminator_credit in H. lia. }
  revert b. induction trace as [|c trace IH]; intros b; [simpl; lia|].
  change (exec JSON_parse b (c :: trace))
    with (exec JSON_parse (step JSON_parse b c) trace).
  specialize (IH (step JSON_parse b c)).
  pose proof (step_credit JSON_parse ref b c) as Hstep.
  assert (count_where is_finally (c :: trace)
          = (if is_finally c then 1 else 0) + count_where is_finally trace)
    as -> by (unfold count_where; simpl; by destruct (is_finally c)).
  lia.
Qed.

(** ** The timeout watcher *)

Lemma finishJob_unfold jobId exitCode spawnError b ref job :
  get_job b jobId = Some (ref, job) ->
  settled job = false ->
  finishJob jobId exitCode spawnError b
  = mkBridge (<[ref := with_settled true job]> (store b)) (activeJobs b)
      (match timeoutRef job with
       | Some timer => delete timer (timers b)
       | None => timers b
       end)
      (reading b ++ [mkFrame ref jobId exitCode spawnError (outputDir job)])
      (terminated b) (delivered b) (resolved b).
Proof.
  intros Hget Hs. unfold finishJob. rewrite Hget, Hs.
  by destruct (timeoutRef job).
Qed.

Lemma run_unfold request uuid b :
  fst (run request uuid b)
  = mkBridge
      (store b ++ [mkJob (req_outputDir request) false false false true
                     (match watched request with
                      | Some _ => Some (length (store b))
                      | None => None
                      end) false []])
      (<[requested_jobId request uuid := length (store b)]> (activeJobs b))
      (match watched request with
       | Some timeoutMs =>
           <[length (store b)
             := (requested_jobId request uuid,
                 setTimeout_delay (timeoutMs + KILL_TREE_ESCALATION_MS))]>
             (timers b)
       | None => timers b
       end)
      (reading b) (terminated b)
      (delivered b
       ++ [mkEvent (requested_jobId request uuid) queued None None;
           mkEvent (requested_jobId request uuid) running None None])
      (resolved b).
Proof.
  unfold run, watched, requested_jobId.
  set (jobId := default uuid (req_jobId request)).
  set (b1 := with_activeJobs _ _).
  assert (Hget : get_job (emitState jobId queued None None b1) jobId
                 = Some (length (store b),
                         mkJob (req_outputDir request) false false false false
                           None false [])).
  { apply get_job_Some. simpl. split; [apply lookup_insert_eq|].
    by rewrite lookup_app_r, Nat.sub_diag. }
  unfold emitRunningOnce. rewrite Hget. cbn [runningEmitted].
  set (b3 := emitState jobId running None None _).
  assert (Hb3 :
    b3 = mkBridge
           (store b ++ [mkJob (req_outputDir request) false false false true
                          None false []])
           (<[jobId := length (store b)]> (activeJobs b)) (timers b)
           (reading b) (terminated b)
           (delivered b ++ [mkEvent jobId queued None None;
                            mkEvent jobId running None None])
           (resolved b)).
  { unfold b3, emitState, set_job, with_delivered, with_store. simpl.
    rewrite insert_app_r_alt, Nat.sub_diag by done. simpl.
    by rewrite <- app_assoc. }
  clearbody b3. subst b3.
  destruct (req_timeoutMs request) as [timeoutMs|];
    [destruct (0 <? timeoutMs)%Z|]; [|done..].
  unfold get_job. simpl. rewrite lookup_insert_eq.
  rewrite lookup_app_r, Nat.sub_diag by done. simpl.
  unfold set_job, with_timers, with_store. simpl.
  by rewrite insert_app_r_alt, Nat.sub_diag by done.
Qed.

Lemma watcher_ok_insert ref b b' r job0 job1 :
  store b !! r = Some job0 ->
  timeoutRef job1 = timeoutRef job0 ->
  settled job1 = settled job0 ->
  store b' = <[r := job1]> (store b) ->
  timers b' = timers b ->
  watcher_ok ref b -> watcher_ok ref b'.
Proof.
  intros Hr Ht Hs Hstore Htimers (job & Hjob & Hok).
  unfold watcher_ok. rewrite Hstore, Htimers.
  destruct (decide (r = ref)) as [->|Hne].
  - exists job1. rewrite list_lookup_insert_eq by (by eapply lookup_lt_Some).
    split; [done|]. simplify_eq. rewrite Ht, Hs. exact Hok.
  - exists job. by rewrite list_lookup_insert_ne.
Qed.

Lemma watcher_ok_delete ref b b' timer :
  store b' = store b ->
  timers b' = delete timer (timers b) ->
  watcher_ok ref b -> watcher_ok ref b'.
Proof.
  intros Hstore Htimers (job & Hjob & Hok).
  exists job. rewrite Hstore, Htimers. split; [done|].
  destruct Hok as [Hnone|Hheld]; [left|].
  - by rewrite lookup_delete_None; right.
  - by right.
Qed.

Lemma watcher_ok_same ref b b' :
  store b' = store b -> timers b' = timers b ->
  watcher_ok ref b -> watcher_ok ref b'.
Proof. intros Hs Ht (job & Hjob & Hok). exists job. by rewrite Hs, Ht. Qed.

Ltac watcher_insert Hget :=
  let Hjob := fresh in
  pose proof (proj2 (proj1 (get_job_Some _ _ _ _) Hget)) as Hjob;
  eapply watcher_ok_insert; [exact Hjob| | |reflexivity|reflexivity];
  reflexivity.

Lemma requestKillTree_watcher ref jobId b :
  watcher_ok ref b -> watcher_ok ref (requestKillTree jobId b).
Proof.
  unfold requestKillTree. destruct (get_job b jobId) as [[r job]|] eqn:Hget;
    [|done].
  destruct (settled job || killTreeRef job); [done|].
  watcher_insert Hget.
Qed.

Lemma cancel_watcher ref jobId b :
  watcher_ok ref b -> watcher_ok ref (fst (cancel jobId b)).
Proof.
  unfold cancel. destruct (get_job b jobId) as [[r job]|] eqn:Hget; [|done].
  destruct (settled job); [done|]. simpl. intros H.
  apply requestKillTree_watcher. revert H. watcher_insert Hget.
Qed.

Lemma timeout_callback_watcher ref jobId b :
  watcher_ok ref b -> watcher_ok ref (timeout_callback jobId b).
Proof.
  unfold timeout_callback. destruct (get_job b jobId) as [[r job]|] eqn:Hget;
    [|done].
  destruct (settled job); [done|]. intros H.
  apply requestKillTree_watcher. revert H. watcher_insert Hget.
Qed.

Lemma emitRunningOnce_watcher ref jobId b :
  watcher_ok ref b -> watcher_ok ref (emitRunningOnce jobId b).
Proof.
  unfold emitRunningOnce. destruct (get_job b jobId) as [[r job]|] eqn:Hget;
    [|done].
  destruct (runningEmitted job); [done|]. watcher_insert Hget.
Qed.

Lemma killTree_finally_watcher ref jobId b :
  watcher_ok ref b -> watcher_ok ref (killTree_finally jobId b).
Proof.
  unfold killTree_finally. destruct (get_job b jobId) as [[r job]|] eqn:Hget;
    [|done].
  watcher_insert Hget.
Qed.

Lemma consumeStdout_watcher JSON_parse ref jobId chunk b :
  watcher_ok ref b -> watcher_ok ref (consumeStdout JSON_parse jobId chunk b).
Proof.
  destruct (get_job b jobId) as [[r job]|] eqn:Hget.
  - rewrite (consumeStdout_effect JSON_parse jobId chunk b r job Hget).
    watcher_insert Hget.
  - unfold consumeStdout. by rewrite Hget.
Qed.

Lemma finishJob_watcher ref jobId exitCode spawnError b :
  watcher_ok ref b -> watcher_ok ref (finishJob jobId exitCode spawnError b).
Proof.
  destruct (get_job b jobId) as [[r job]|] eqn:Hget;
    [|unfold finishJob; by rewrite Hget].
  destruct (settled job) eqn:Hs; [unfold finishJob; by rewrite Hget, Hs|].
  rewrite (finishJob_unfold _ _ _ _ _ _ Hget Hs).
  apply get_job_Some in Hget as [_ Hjob].
  intros (job0 & Hjob0 & Hok). unfold watcher_ok. simpl.
  destruct (decide (r = ref)) as [->|Hne].
  - exists (with_settled true job).
    rewrite list_lookup_insert_eq by (by eapply lookup_lt_Some).
    split; [done|]. left. simplify_eq.
    destruct Hok as [Hnone|[Href _]].
    + destruct (timeoutRef job); [|done]. by rewrite lookup_delete_None; right.
    + rewrite Href. apply lookup_delete_eq.
  - exists job0. rewrite list_lookup_insert_ne by done. split; [done|].
    destruct Hok as [Hnone|Hheld]; [left|by right].
    destruct (timeoutRef job); [|done]. by rewrite lookup_delete_None; right.
Qed.

Lemma finishJob_resume_watcher JSON_parse ref k fs b :
  watcher_ok ref b -> watcher_ok ref (finishJob_resume JSON_parse k fs b).
Proof.
  destruct (reading b !! k) as [frame|] eqn:Hk.
  - destruct (store b !! fr_job frame) as [job|] eqn:Hjob.
    + rewrite (finishJob_resume_unfold JSON_parse k fs b frame job Hk Hjob).
      by apply watcher_ok_same.
    + rewrite finishJob_resume_idle; [done|]. right. eauto.
  - rewrite finishJob_resume_idle; [done|]. by left.
Qed.

Lemma run_watcher ref request uuid b :
  watcher_ok ref b -> watcher_ok ref (fst (run request uuid b)).
Proof.
  rewrite run_unfold. intros (job & Hjob & Hok). exists job. simpl.
  split; [by apply lookup_app_l_Some|].
  destruct (watched request); [|done].
  rewrite lookup_insert_ne; [done|].
  apply lookup_lt_Some in Hjob. lia.
Qed.

Lemma step_watcher JSON_parse ref b c :
  watcher_ok ref b -> watcher_ok ref (step JSON_parse b c).
Proof.
  destruct c; unfold step.
  - apply run_watcher.
  - apply cancel_watcher.
  - destruct (timers b !! timer) as [[jobId delay]|]; [|done]. intros H.
    apply timeout_callback_watcher. revert H.
    by apply watcher_ok_delete with (timer := timer).
  - intros H. by apply consumeStdout_watcher, emitRunningOnce_watcher.
  - apply finishJob_watcher.
  - apply finishJob_watcher.
  - apply finishJob_resume_watcher.
  - apply killTree_finally_watcher.
Qed.

Lemma exec_watcher JSON_parse ref b trace :
  watcher_ok ref b -> watcher_ok ref (exec JSON_parse b trace).
Proof.
  revert b. induction trace as [|c trace IH]; intros b H; [done|].
  apply IH. by apply step_watcher.
Qed.

(** X3.  [run] arms the watcher of the job exactly if [timeoutMs] is a
    positive number, with the job id [run] chose.  The watcher is due
    [KILL_TREE_ESCALATION_MS] after the timeout as long as that sum is
    within the host's longest delay, 2147483647 ms (so for a [timeoutMs] of
    at most 2147482897); for a longer timeout the host arms it with a delay
    of 1 ms.  Once the job is settled its watcher is no longer armed,
    whatever callbacks have run, so a firing of it changes nothing. *)
Theorem watcher_armed_by_run_disarmed_by_exit JSON_parse request uuid b trace :
  timers b !! length (store b) = None ->
  timers (fst (run request uuid b)) !! length (store b)
  = (fun timeoutMs =>
       (requested_jobId request uuid,
        if (timeoutMs + KILL_TREE_ESCALATION_MS <=? 2147483647)%Z
        then (timeoutMs + KILL_TREE_ESCALATION_MS)%Z else 1%Z))
    <$> watched request
  /\ (is_settled (length (store b))
        (exec JSON_parse (fst (run request uuid b)) trace) = true ->
      timers (exec JSON_parse (fst (run request uuid b)) trace)
        !! length (store b) = None
      /\ step JSON_parse (exec JSON_parse (fst (run request uuid b)) trace)
           (TimerFired (length (store b)))
         = exec JSON_parse (fst (run request uuid b)) trace).
Proof.
  intros Hfree.
  assert (Harmed :
    timers (fst (run request uuid b)) !! length (store b)
    = (fun timeoutMs =>
         (requested_jobId request uuid,
          if (timeoutMs + KILL_TREE_ESCALATION_MS <=? 2147483647)%Z
          then (timeoutMs + KILL_TREE_ESCALATION_MS)%Z else 1%Z))
      <$> watched request).
  { rewrite run_unfold. simpl. unfold watched.
    destruct (req_timeoutMs request) as [timeoutMs|]; [|done].
    destruct (0 <? timeoutMs)%Z eqn:Hpositive; [|done]. simpl.
    rewrite lookup_insert_eq. do 2 f_equal.
    apply Z.ltb_lt in Hpositive.
    unfold setTimeout_delay, TIMEOUT_MAX, KILL_TREE_ESCALATION_MS.
    rewrite (proj2 (Z.leb_le 1 (timeoutMs + 750))) by lia.
    reflexivity. }
  split; [exact Harmed|]. intros Hsettled.
  assert (Hok : watcher_ok (length (store b)) (fst (run request uuid b))).
  { unfold watcher_ok. rewrite Harmed. rewrite run_unfold. simpl.
    eexists. split; [by rewrite lookup_app_r, Nat.sub_diag|].
    simpl. destruct (watched request); simpl; [by right|by left]. }
  apply (exec_watcher JSON_parse _ _ trace) in Hok.
  destruct Hok as (job & Hjob & Hok).
  rewrite (is_settled_lookup _ _ _ Hjob) in Hsettled.
  assert (Hnone : timers (exec JSON_parse (fst (run request uuid b)) trace)
                    !! length (store b) = None).
  { destruct Hok as [Hnone|[_ Hs]]; [done|congruence]. }
  split; [exact Hnone|]. unfold step. by rewrite Hnone.
Qed.

Lemma watcher_armed_by_run_disarmed_by_exit_witness :
  timers createEngineBridge !! length (store createEngineBridge) = None
  /\ timers (fst (run sample_request [] createEngineBridge)) !! 0
     = Some (sample_jobId, 1050%Z)
  /\ is_settled 0
       (exec sample_parse (fst (run sample_request [] createEngineBridge))
          sample_callbacks) = true
  /\ timers
       (exec sample_parse (fst (run sample_request [] createEngineBridge))
          sample_callbacks) !! 0 = None.
Proof.
  assert (Hfree : timers createEngineBridge
                    !! length (store createEngineBridge) = None)
    by reflexivity.
  assert (Hsettled :
    is_settled 0
      (exec sample_parse (fst (run sample_request [] createEngineBridge))
         sample_callbacks) = true) by (vm_compute; reflexivity).
  split; [exact Hfree|].
  destruct (watcher_armed_by_run_disarmed_by_exit sample_parse sample_request
              [] createEngineBridge sample_callbacks Hfree)
    as [Harmed Hdisarmed].
  split; [exact Harmed|]. split; [exact Hsettled|].
  exact (proj1 (Hdisarmed Hsettled)).
Defined.

(** ** A job without a watcher *)

Lemma unwatched_insert jobId ref b b' r job0 job1 :
  store b !! r = Some job0 ->
  (r = ref ->
   timeoutRef job1 = timeoutRef job0 /\ timedOut job1 = timedOut job0) ->
  store b' = <[r := job1]> (store b) ->
  timers b' = timers b ->
  unwatched jobId ref b -> unwatched jobId ref b'.
Proof.
  intros Hr Hsame Hstore Htimers (Hfree & job & Hjob & Href & Hflag).
  split; [by rewrite Htimers|]. rewrite Hstore.
  destruct (decide (r = ref)) as [->|Hne].
  - exists job1. rewrite list_lookup_insert_eq by (by eapply lookup_lt_Some).
    destruct (Hsame eq_refl) as [Ht Hf]. simplify_eq.
    split; [done|]. by rewrite Ht, Hf.
  - exists job. by rewrite list_lookup_insert_ne.
Qed.

Lemma unwatched_delete jobId ref b b' timer :
  store b' = store b ->
  timers b' = delete timer (timers b) ->
  unwatched jobId ref b -> unwatched jobId ref b'.
Proof.
  intros Hstore Htimers (Hfree & Hjob). split; [|by rewrite Hstore].
  intros t delay. rewrite Htimers. intros [_ Ht]%lookup_delete_Some.
  by apply (Hfree t delay).
Qed.

Lemma unwatched_same jobId ref b b' :
  store b' = store b -> timers b' = timers b ->
  unwatched jobId ref b -> unwatched jobId ref b'.
Proof. intros Hs Ht [Hfree Hjob]. split; by rewrite ?Hs, ?Ht. Qed.

Ltac unwatched_field Hget :=
  let Hjob := fresh in
  pose proof (proj2 (proj1 (get_job_Some _ _ _ _) Hget)) as Hjob;
  eapply unwatched_insert; [exact Hjob| |reflexivity|reflexivity];
  intros _; split; reflexivity.

Lemma requestKillTree_unwatched jobId ref k b :
  unwatched jobId ref b -> unwatched jobId ref (requestKillTree k b).
Proof.
  unfold requestKillTree. destruct (get_job b k) as [[r job]|] eqn:Hget;
    [|done].
  destruct (settled job || killTreeRef job); [done|].
  unwatched_field Hget.
Qed.

Lemma cancel_unwatched jobId ref k b :
  unwatched jobId ref b -> unwatched jobId ref (fst (cancel k b)).
Proof.
  unfold cancel. destruct (get_job b k) as [[r job]|] eqn:Hget; [|done].
  destruct (settled job); [done|]. simpl. intros H.
  apply requestKillTree_unwatched. revert H. unwatched_field Hget.
Qed.

(** The callback of a timer armed for another job id does not reach the
    record. *)
Lemma timeout_callback_unwatched jobId ref k b :
  (forall k', activeJobs b !! k' = Some ref -> k' = jobId) ->
  k <> jobId ->
  unwatched jobId ref b -> unwatched jobId ref (timeout_callback k b).
Proof.
  intros Hown Hother. unfold timeout_callback.
  destruct (get_job b k) as [[r job]|] eqn:Hget; [|done].
  destruct (settled job); [done|]. intros H.
  apply requestKillTree_unwatched. revert H.
  apply get_job_Some in Hget as [Hmap Hjob].
  eapply unwatched_insert; [exact Hjob| |reflexivity|reflexivity].
  intros ->. destruct Hother. by apply Hown.
Qed.

Lemma emitRunningOnce_unwatched jobId ref k b :
  unwatched jobId ref b -> unwatched jobId ref (emitRunningOnce k b).
Proof.
  unfold emitRunningOnce. destruct (get_job b k) as [[r job]|] eqn:Hget;
    [|done].
  destruct (runningEmitted job); [done|]. unwatched_field Hget.
Qed.

Lemma killTree_finally_unwatched jobId ref k b :
  unwatched jobId ref b -> unwatched jobId ref (killTree_finally k b).
Proof.
  unfold killTree_finally. destruct (get_job b k) as [[r job]|] eqn:Hget;
    [|done].
  unwatched_field Hget.
Qed.

Lemma consumeStdout_unwatched JSON_parse jobId ref k chunk b :
  unwatched jobId ref b -> unwatched jobId ref (consumeStdout JSON_parse k chunk b).
Proof.
  destruct (get_job b k) as [[r job]|] eqn:Hget.
  - rewrite (consumeStdout_effect JSON_parse k chunk b r job Hget).
    unwatched_field Hget.
  - unfold consumeStdout. by rewrite Hget.
Qed.

Lemma finishJob_unwatched jobId ref k exitCode spawnError b :
  unwatched jobId ref b ->
  unwatched jobId ref (finishJob k exitCode spawnError b).
Proof.
  destruct (get_job b k) as [[r job]|] eqn:Hget;
    [|unfold finishJob; by rewrite Hget].
  destruct (settled job) eqn:Hs; [unfold finishJob; by rewrite Hget, Hs|].
  rewrite (finishJob_unfold _ _ _ _ _ _ Hget Hs).
  apply get_job_Some in Hget as [_ Hjob]. intros H.
  assert (H1 : unwatched jobId ref
                 (with_store (<[r := with_settled true job]> (store b)) b)).
  { revert H.
    eapply unwatched_insert; [exact Hjob| |reflexivity|reflexivity].
    intros _. split; reflexivity. }
  destruct (timeoutRef job) as [timer|].
  - revert H1. by apply unwatched_delete with (timer := timer).
  - revert H1. by apply unwatched_same.
Qed.

Lemma finishJob_resume_unwatched JSON_parse jobId ref n fs b :
  unwatched jobId ref b ->
  unwatched jobId ref (finishJob_resume JSON_parse n fs b).
Proof.
  destruct (reading b !! n) as [frame|] eqn:Hn.
  - destruct (store b !! fr_job frame) as [job|] eqn:Hjob.
    + rewrite (finishJob_resume_unfold JSON_parse n fs b frame job Hn Hjob).
      by apply unwatched_same.
    + rewrite finishJob_resume_idle; [done|]. right. eauto.
  - rewrite finishJob_resume_idle; [done|]. by left.
Qed.

(** A [run] under another job id arms at most a timer that holds that other
    id. *)
Lemma run_unwatched jobId ref request uuid b :
  requested_jobId request uuid <> jobId ->
  unwatched jobId ref b -> unwatched jobId ref (fst (run request uuid b)).
Proof.
  intros Hother (Hfree & job & Hjob & Hheld). rewrite run_unfold.
  split; simpl.
  - intros timer delay. destruct (watched request); [|by apply Hfree].
    intros [[_ Hnew]|[_ Hold]]%lookup_insert_Some; [congruence|].
    by apply (Hfree timer delay).
  - exists job. split; [by apply lookup_app_l_Some|done].
Qed.

Section Unwatched.

Variable JSON_parse : jsstring -> option json.

Lemma step_unwatched jobId ref b c :
  job_owned jobId ref b ->
  reuses jobId c = false ->
  unwatched jobId ref b -> unwatched jobId ref (step JSON_parse b c).
Proof.
  intros [Hown _] Hreuse Hfree. destruct c; unfold step.
  - apply run_unwatched; [|done]. by apply bool_decide_eq_false in Hreuse.
  - by apply cancel_unwatched.
  - destruct (timers b !! timer) as [[k delay]|] eqn:Htimer; [|done].
    apply timeout_callback_unwatched.
    + exact Hown.
    + intros ->. by apply (proj1 Hfree timer delay).
    + revert Hfree. by apply unwatched_delete with (timer := timer).
  - by apply consumeStdout_unwatched, emitRunningOnce_unwatched.
  - by apply finishJob_unwatched.
  - by apply finishJob_unwatched.
  - by apply finishJob_resume_unwatched.
  - by apply killTree_finally_unwatched.
Qed.

Lemma exec_unwatched jobId ref b trace :
  job_owned jobId ref b ->
  job_phase jobId ref b ->
  Forall (fun c => reuses jobId c = false) trace ->
  unwatched jobId ref b -> unwatched jobId ref (exec JSON_parse b trace).
Proof.
  revert b. induction trace as [|c trace IH];
    intros b Howned Hphase Htrace Hfree; [done|].
  apply Forall_cons in Htrace as [Hc Htrace].
  destruct (job_phase_step JSON_parse jobId ref b c Howned Hphase Hc)
    as (Howned' & Hphase' & _).
  apply IH; try done. by apply step_unwatched.
Qed.

(** X11.  A job that [run] starts with no [timeoutMs], or with one that is
    zero or negative, has no watcher and gets none: whatever callbacks
    follow, the firing of other jobs' timers included, no armed timer holds
    its id, its record holds no timer, and its [timedOut] flag stays unset.
    The job id is not in use when [run] is called, no timer armed earlier
    holds it, and no later [run] takes it. *)
Theorem job_without_timeout_is_never_timed_out request uuid b trace :
  well_formed b ->
  unused (requested_jobId request uuid) b ->
  (forall timer delay,
      timers b !! timer <> Some (requested_jobId request uuid, delay)) ->
  (forall timeoutMs,
      req_timeoutMs request = Some timeoutMs -> (timeoutMs <= 0)%Z) ->
  Forall (fun c => reuses (requested_jobId request uuid) c = false) trace ->
  (forall timer delay,
      timers (exec JSON_parse (fst (run request uuid b)) trace) !! timer
      <> Some (requested_jobId request uuid, delay))
  /\ exists job,
      store (exec JSON_parse (fst (run request uuid b)) trace)
        !! length (store b) = Some job
      /\ timeoutRef job = None
      /\ timedOut job = false.
Proof.
  intros Hwf Hunused Hfree Htimeout Htrace.
  destruct (job_phase_run_fresh request uuid b Hwf Hunused)
    as (Howned0 & Hphase0 & _).
  fold (requested_jobId request uuid) in Howned0, Hphase0.
  assert (Hnone : watched request = None).
  { unfold watched. destruct (req_timeoutMs request) as [timeoutMs|]; [|done].
    specialize (Htimeout timeoutMs eq_refl).
    by rewrite (proj2 (Z.ltb_ge 0 timeoutMs)). }
  apply exec_unwatched; try done.
  rewrite run_unfold, Hnone. split; simpl; [exact Hfree|].
  eexists. split; [by rewrite lookup_app_r, Nat.sub_diag|]. done.
Qed.

End Unwatched.

Lemma job_without_timeout_is_never_timed_out_witness :
  well_formed createEngineBridge
  /\ unused (requested_jobId (bridge_request sample_run_request) [])
       createEngineBridge
  /\ req_timeoutMs (bridge_request sample_run_request) = Some 0%Z
  /\ exists job,
      store (exec sample_parse
               (fst (run (bridge_request sample_run_request) []
                       createEngineBridge))
               sample_callbacks) !! 0 = Some job
      /\ timeoutRef job = None
      /\ timedOut job = false.
Proof.
  assert (Hunused :
    unused (requested_jobId (bridge_request sample_run_request) [])
      createEngineBridge).
  { split; intros x Hin; by apply elem_of_nil in Hin. }
  assert (Hfree : forall timer delay,
    timers createEngineBridge !! timer
    <> Some (requested_jobId (bridge_request sample_run_request) [], delay)).
  { intros timer delay. simpl. by rewrite lookup_empty. }
  assert (Htimeout : forall timeoutMs,
    req_timeoutMs (bridge_request sample_run_request) = Some timeoutMs ->
    (timeoutMs <= 0)%Z).
  { intros timeoutMs [= <-]. lia. }
  assert (Htrace :
    Forall
      (fun c =>
         reuses (requested_jobId (bridge_request sample_run_request) []) c
         = false)
      sample_callbacks) by (repeat constructor).
  split; [exact well_formed_createEngineBridge|].
  split; [exact Hunused|]. split; [reflexivity|].
  exact (proj2 (job_without_timeout_is_never_timed_out sample_parse
                  (bridge_request sample_run_request) [] createEngineBridge
                  sample_callbacks well_formed_createEngineBridge Hunused
                  Hfree Htimeout Htrace)).
Defined.

(** ** The terminal event is the last *)

Section Silence.

Variable JSON_parse : jsstring -> option json.

Lemma emitRunningOnce_delivers jobId b :
  exists events,
    delivered (emitRunningOnce jobId b) = delivered b ++ events
    /\ Forall (fun e => ev_jobId e = jobId /\ ev_state e = running) events
    /\ (get_job b jobId = None -> emitRunningOnce jobId b = b)
    /\ (is_Some (get_job b jobId) -> is_Some (get_job (emitRunningOnce jobId b) jobId)).
Proof.
  unfold emitRunningOnce. destruct (get_job b jobId) as [[ref job]|] eqn:Hget.
  - destruct (runningEmitted job).
    + exists []. rewrite app_nil_r, Hget. by repeat split.
    + exists [mkEvent jobId running None None]. split; [done|].
      split; [by repeat constructor|]. split; [done|]. intros _.
      unfold emitState. 
      pose proof (get_job_set_job b jobId ref job (with_runningEmitted true job) Hget) as H.
      unfold get_job in *. simpl in *. by rewrite H.
  - exists []. rewrite app_nil_r, Hget. by repeat split.
Qed.

Lemma requestKillTree_delivered jobId b :
  delivered (requestKillTree jobId b) = delivered b.
Proof.
  unfold requestKillTree. destruct (get_job b jobId) as [[ref job]|]; [|done].
  by destruct (settled job || killTreeRef job).
Qed.

(** The events a callback delivers, by kind of callback. *)
Lemma step_delivers b c :
  exists events,
    delivered (step JSON_parse b c) = delivered b ++ events
    /\ match c with
       | Run request uuid =>
           Forall (fun e => ev_jobId e = requested_jobId request uuid
                            /\ terminal (ev_state e) = false) events
       | StdoutData jobId _ =>
           Forall (fun e => ev_jobId e = jobId
                            /\ is_Some (activeJobs b !! jobId)
                            /\ terminal (ev_state e) = false) events
       | ManifestRead k fs =>
           events = []
           \/ exists frame job,
               reading b !! k = Some frame
               /\ store b !! fr_job frame = Some job
               /\ events
                  = [mkEvent (fr_jobId frame)
                       (fst (finishJob_outcome job (fr_exitCode frame)
                               (readResultManifest JSON_parse fs
                                  (fr_outputDir frame))
                               (fr_spawnError frame)))
                       None
                       (Some
                          (snd (finishJob_outcome job (fr_exitCode frame)
                                  (readResultManifest JSON_parse fs
                                     (fr_outputDir frame))
                                  (fr_spawnError frame))))]
       | _ => events = []
       end.
Proof.
  destruct c as [request uuid|jobId|timer|jobId chunk|jobId error
                 |jobId exitCode|k fs|jobId]; unfold step.
  - rewrite run_unfold. simpl. eexists. split; [reflexivity|].
    by repeat constructor.
  - exists []. rewrite app_nil_r. split; [|done].
    unfold cancel. destruct (get_job b jobId) as [[ref job]|] eqn:Hget; [|done].
    destruct (settled job) eqn:Hs; [done|]. simpl.
    by rewrite requestKillTree_delivered.
  - exists []. rewrite app_nil_r. split; [|done].
    destruct (timers b !! timer) as [[jobId delay]|]; [|done].
    unfold timeout_callback.
    destruct (get_job _ jobId) as [[ref job]|] eqn:Hget; [|done].
    destruct (settled job) eqn:Hs; [done|].
    by rewrite requestKillTree_delivered.
  - destruct (emitRunningOnce_delivers jobId b)
      as (events & Hevents & Hrunning & Hnone & Hsome).
    destruct (get_job b jobId) as [[ref job]|] eqn:Hget.
    + destruct Hsome as [[ref' job'] Hget']; [done|].
      rewrite (consumeStdout_effect JSON_parse jobId chunk _ ref' job' Hget').
      simpl. rewrite Hevents, <- app_assoc. eexists. split; [reflexivity|].
      apply get_job_Some in Hget as [Hmap _].
      apply Forall_app. split.
      * eapply Forall_impl; [exact Hrunning|]. intros e [-> ->].
        by rewrite Hmap.
      * eapply Forall_impl; [apply progress_events_running|].
        intros e (-> & -> & _). by rewrite Hmap.
    + rewrite Hnone by done. unfold consumeStdout. rewrite Hget.
      exists []. by rewrite app_nil_r.
  - exists []. rewrite app_nil_r. split; [|done].
    pose proof (finishJob_effect jobId None (Some error) b) as H.
    destruct (get_job b jobId) as [[ref job]|]; [|by rewrite H].
    destruct (settled job); [by rewrite H|]. by destruct H as [timers' ->].
  - exists []. rewrite app_nil_r. split; [|done].
    pose proof (finishJob_effect jobId exitCode None b) as H.
    destruct (get_job b jobId) as [[ref job]|]; [|by rewrite H].
    destruct (settled job); [by rewrite H|]. by destruct H as [timers' ->].
  - destruct (reading b !! k) as [frame|] eqn:Hk.
    + destruct (store b !! fr_job frame) as [job|] eqn:Hjob.
      * rewrite (finishJob_resume_unfold JSON_parse k fs b frame job Hk Hjob).
        simpl. eexists. split; [reflexivity|]. right.
        by exists frame, job.
      * rewrite finishJob_resume_idle by (right; eauto).
        exists []. rewrite app_nil_r. split; [done|by left].
    + rewrite finishJob_resume_idle by (by left).
      exists []. rewrite app_nil_r. split; [done|by left].
  - exists []. rewrite app_nil_r. split; [|done].
    unfold killTree_finally. by destruct (get_job b jobId) as [[ref job]|].
Qed.

Lemma count_where_elem {A} (test : A -> bool) before x after :
  test x = true -> 1 <= count_where test (before ++ x :: after).
Proof.
  intros Hx. rewrite count_where_app. unfold count_where at 2. simpl.
  rewrite Hx. simpl. lia.
Qed.

Lemma terminal_event_last_step jobId ref b c :
  job_owned jobId ref b ->
  job_phase jobId ref b ->
  reuses jobId c = false ->
  terminal_event_last jobId (delivered b) ->
  terminal_event_last jobId (delivered (step JSON_parse b c)).
Proof.
  intros Howned Hphase Hreuse Hlast before e after Hsplit Hid Hterminal.
  destruct (step_delivers b c) as (events & Hevents & Hby).
  rewrite Hevents in Hsplit. symmetry in Hsplit.
  assert (Hfresh : forall mid,
             events = mid ++ e :: after ->
             Forall (fun e' => ev_jobId e' <> jobId) after).
  { (* the terminal event is one of this step: it is the only one *)
    intros mid Hev. destruct c; try (subst events; by destruct mid).
    - rewrite Hev in Hby. apply Forall_app in Hby as [_ Hby].
      apply Forall_cons in Hby as [[_ Hnt] _]. congruence.
    - rewrite Hev in Hby. apply Forall_app in Hby as [_ Hby].
      apply Forall_cons in Hby as [(_ & _ & Hnt) _]. congruence.
    - destruct Hby as [->|(frame & job & _ & _ & ->)]; [by destruct mid|].
      destruct mid as [|? [|? ?]]; simpl in Hev; simplify_eq; constructor. }
  apply app_eq_inv in Hsplit as [(mid & Hbef & Hev)|(mid & Hdel & Haft)];
    [by apply (Hfresh mid)|].
  destruct mid as [|e0 mid]; [by apply (Hfresh [])|].
  (* the terminal event was delivered before this step *)
  simpl in Haft. injection Haft as <- ->.
  apply Forall_app. split; [by eapply (Hlast before e mid)|].
  (* the job is settled: nothing of it is delivered any more *)
  assert (Hcount : 1 <= terminal_events jobId b).
  { unfold terminal_events. rewrite Hdel.
    apply count_where_elem. rewrite Hterminal.
    by rewrite bool_decide_eq_true_2. }
  destruct Hphase as [_ [(_ & _ & _ & H0 & _)|[(_ & _ & _ & H0 & _)
                           |(_ & Hgone & Hnone & _ & _)]]]; [lia..|].
  destruct c; try (subst events; constructor).
  - eapply Forall_impl; [exact Hby|]. intros e' [-> _].
    simpl in Hreuse. by apply bool_decide_eq_false in Hreuse.
  - eapply Forall_impl; [exact Hby|]. intros e' (-> & Hsome & _).
    intros ->. rewrite Hgone in Hsome. by destruct Hsome.
  - destruct Hby as [->|(frame & job & Hframe & _ & ->)];
      [constructor|].
    constructor; [|constructor]. cbn [ev_jobId]. intros Hframe_id.
    apply (proj2 Howned) in Hframe_id;
      [|by eapply list_elem_of_lookup_2].
    assert (1 <= suspended ref b); [|lia].
    unfold suspended.
    apply list_elem_of_lookup_2, list_elem_of_split in Hframe
      as (l1 & l2 & ->).
    apply count_where_elem. by apply Nat.eqb_eq.
Qed.

Lemma terminal_event_last_exec jobId ref b trace :
  job_owned jobId ref b ->
  job_phase jobId ref b ->
  Forall (fun c => reuses jobId c = false) trace ->
  terminal_event_last jobId (delivered b) ->
  terminal_event_last jobId (delivered (exec JSON_parse b trace)).
Proof.
  revert b. induction trace as [|c trace IH]; intros b Ho Hp Ht Hl; [done|].
  apply Forall_cons in Ht as [Hc Ht].
  destruct (job_phase_step JSON_parse jobId ref b c Ho Hp Hc) as (Ho' & Hp' & _).
  apply IH; try done. by eapply terminal_event_last_step.
Qed.

(** X4.  The terminal event of a job is its last event: for a job started
    under an unused id, and any trace that does not start another job under
    that id, no event of the job follows its terminal event in the log of
    the sink (no late progress line, no second terminal event). *)
Theorem no_event_after_terminal_event request uuid b trace :
  well_formed b ->
  unused (requested_jobId request uuid) b ->
  Forall (fun c => reuses (requested_jobId request uuid) c = false) trace ->
  forall before e after,
    delivered (exec JSON_parse (fst (run request uuid b)) trace)
    = before ++ e :: after ->
    ev_jobId e = requested_jobId request uuid ->
    terminal (ev_state e) = true ->
    Forall (fun e' => ev_jobId e' <> requested_jobId request uuid) after.
Proof.
  intros Hwf Hunused Htrace.
  destruct (job_phase_run_fresh request uuid b Hwf Hunused)
    as (Howned0 & Hphase0 & _).
  apply (terminal_event_last_exec _ _ _ trace Howned0 Hphase0 Htrace).
  intros before e after Hsplit Hid Hterminal. exfalso.
  rewrite run_unfold in Hsplit. simpl in Hsplit.
  assert (He : e ∈ delivered b
                     ++ [mkEvent (requested_jobId request uuid) queued None None;
                         mkEvent (requested_jobId request uuid) running None None]).
  { rewrite Hsplit. apply elem_of_app. right. apply elem_of_cons. by left. }
  apply elem_of_app in He as [He|He].
  - by apply (proj2 Hunused) in He.
  - apply elem_of_cons in He as [->|He]; [done|].
    apply elem_of_cons in He as [->|He]; [done|]. by apply elem_of_nil in He.
Qed.

End Silence.

Lemma no_event_after_terminal_event_witness :
  well_formed createEngineBridge
  /\ unused (requested_jobId sample_request []) createEngineBridge
  /\ Forall (fun c => reuses (requested_jobId sample_request []) c = false)
       sample_callbacks
  /\ forall before e after,
      delivered
        (exec sample_parse (fst (run sample_request [] createEngineBridge))
           sample_callbacks)
      = before ++ e :: after ->
      ev_jobId e = requested_jobId sample_request [] ->
      terminal (ev_state e) = true ->
      Forall (fun e' => ev_jobId e' <> requested_jobId sample_request [])
        after.
Proof.
  assert (Hunused : unused (requested_jobId sample_request []) createEngineBridge).
  { split; intros x Hin; by apply elem_of_nil in Hin. }
  assert (Htrace :
    Forall (fun c => reuses (requested_jobId sample_request []) c = false)
      sample_callbacks)
    by (repeat constructor).
  split; [exact well_formed_createEngineBridge|].
  split; [exact Hunused|]. split; [exact Htrace|].
  exact (no_event_after_terminal_event sample_parse sample_request []
           createEngineBridge sample_callbacks well_formed_createEngineBridge
           Hunused Htrace).
Defined.

(** ** What a cancel and a timeout decide *)

Lemma finishJob_outcome_requestedCancel job exitCode requestManifest spawnError :
  requestedCancel job = true ->
  cancelled_unless_succeeded
    (fst (finishJob_outcome job exitCode requestManifest spawnError))
    (snd (finishJob_outcome job exitCode requestManifest spawnError)).
Proof.
  intros Hcancel. unfold finishJob_outcome, cancelled_unless_succeeded.
  rewrite Hcancel. destruct (_ && _); simpl; auto.
Qed.

Lemma finishJob_outcome_timedOut job exitCode requestManifest spawnError :
  timedOut job = true ->
  timeout_if_failed
    (fst (finishJob_outcome job exitCode requestManifest spawnError))
    (snd (finishJob_outcome job exitCode requestManifest spawnError)).
Proof.
  intros Htimeout. unfold finishJob_outcome, timeout_if_failed.
  rewrite Htimeout. destruct (_ && _); simpl; [done|].
  by destruct (_ || _).
Qed.

Section Verdict.

Variable JSON_parse : jsstring -> option json.
Variable jobId : jsstring.
Variable ref : nat.
Variable flagged : ActiveJob -> Prop.
Variable verdict : EngineBridgeState -> json -> Prop.

Hypothesis flagged_kept :
  forall job job', flags_kept job job' -> flagged job -> flagged job'.
Hypothesis flagged_verdict :
  forall job exitCode requestManifest spawnError,
    flagged job ->
    verdict (fst (finishJob_outcome job exitCode requestManifest spawnError))
      (snd (finishJob_outcome job exitCode requestManifest spawnError)).

Lemma decided_step b c :
  job_owned jobId ref b ->
  reuses jobId c = false ->
  (exists job, store b !! ref = Some job /\ flagged job) ->
  decided jobId verdict (delivered b) ->
  decided jobId verdict (delivered (step JSON_parse b c)).
Proof using flagged_verdict.
  intros Howned Hreuse (job & Hjob & Hflag) Hdecided e Hin Hid Hterminal.
  destruct (step_delivers JSON_parse b c) as (events & Hevents & Hby).
  rewrite Hevents in Hin. apply elem_of_app in Hin as [Hin|Hin];
    [by apply Hdecided|].
  destruct c; try (subst events; by apply elem_of_nil in Hin).
  - apply (proj1 (Forall_forall _ _) Hby) in Hin as [_ Hnt]. congruence.
  - apply (proj1 (Forall_forall _ _) Hby) in Hin as (_ & _ & Hnt). congruence.
  - destruct Hby as [->|(frame & job' & Hframe & Hjob' & ->)];
      [by apply elem_of_nil in Hin|].
    apply list_elem_of_singleton in Hin as ->. cbn in Hid |- *.
    apply (proj2 Howned) in Hid; [|by eapply list_elem_of_lookup_2].
    rewrite Hid, Hjob in Hjob'. injection Hjob' as <-.
    eexists. split; [reflexivity|]. by apply flagged_verdict.
Qed.

Lemma decided_exec b trace :
  job_owned jobId ref b ->
  job_phase jobId ref b ->
  Forall (fun c => reuses jobId c = false) trace ->
  (exists job, store b !! ref = Some job /\ flagged job) ->
  decided jobId verdict (delivered b) ->
  decided jobId verdict (delivered (exec JSON_parse b trace)).
Proof using flagged_kept flagged_verdict.
  revert b. induction trace as [|c trace IH];
    intros b Howned Hphase Htrace Hflag Hdecided; [done|].
  apply Forall_cons in Htrace as [Hc Htrace].
  destruct (job_phase_step JSON_parse jobId ref b c Howned Hphase Hc)
    as (Howned' & Hphase' & _).
  apply IH; try done.
  - destruct Hflag as (job & Hjob & Hflag).
    destruct (step_records JSON_parse b c ref job Hjob) as (job' & Hjob' & Hkept).
    exists job'. split; [done|]. by eapply flagged_kept.
  - by apply decided_step.
Qed.

End Verdict.

Lemma decided_unsettled jobId ref verdict b :
  job_phase jobId ref b ->
  is_settled ref b = false ->
  decided jobId verdict (delivered b).
Proof.
  intros [_ Hphase] Hsettled e Hin Hid Hterminal. exfalso.
  assert (1 <= terminal_events jobId b).
  { unfold terminal_events.
    apply list_elem_of_split in Hin as (l1 & l2 & ->).
    apply count_where_elem. rewrite Hterminal.
    by rewrite bool_decide_eq_true_2. }
  destruct Hphase as [(_ & _ & _ & H0 & _)|[(Hs & _)|(Hs & _)]];
    [lia|congruence..].
Qed.

Section Decisions.

Variable JSON_parse : jsstring -> option json.

(** X5.  Once [cancel] has returned [true] for a job, the job can only end
    [cancelled] with [E_CANCELLED], or [succeeded] without an error code:
    no later callback, exit code or manifest makes it [failed], and no
    manifest or timeout replaces the error code. *)
Theorem accepted_cancel_decides_outcome request uuid b before after e :
  well_formed b ->
  unused (requested_jobId request uuid) b ->
  Forall (fun c => reuses (requested_jobId request uuid) c = false)
    (before ++ after) ->
  snd (cancel (requested_jobId request uuid)
         (exec JSON_parse (fst (run request uuid b)) before)) = true ->
  e ∈ delivered
        (exec JSON_parse
           (fst (cancel (requested_jobId request uuid)
                   (exec JSON_parse (fst (run request uuid b)) before)))
           after) ->
  ev_jobId e = requested_jobId request uuid ->
  terminal (ev_state e) = true ->
  (ev_state e = succeeded /\ ev_errorCode e = Some JNull)
  \/ (ev_state e = cancelled /\ ev_errorCode e = Some (JStr E_CANCELLED)).
Proof.
  intros Hwf Hunused [Hbefore Hafter]%Forall_app Haccepted Hin Hid Hterminal.
  destruct (job_phase_run_fresh request uuid b Hwf Hunused)
    as (Howned0 & Hphase0 & _).
  fold (requested_jobId request uuid) in Howned0, Hphase0.
  destruct (job_phase_exec JSON_parse _ _ _ before Howned0 Hphase0 Hbefore)
    as (Howned1 & Hphase1 & _).
  set (jobId := requested_jobId request uuid) in *.
  set (b1 := exec JSON_parse (fst (run request uuid b)) before) in *.
  destruct (cancel_cases jobId b1) as (_ & _ & Hcancel & _).
  destruct (Hcancel Haccepted)
    as (ref & job & Hget & Hunsettled & Hb2 & Hget2 & _).
  apply get_job_Some in Hget as [Hmap Hjob].
  assert (Href : ref = length (store b)).
  { destruct Hphase1 as [_ [(_ & Hm & _)|[(_ & Hm & _)|(_ & Hm & _)]]];
      congruence. }
  subst ref.
  destruct (job_phase_local jobId _ jobId b1 _ Howned1 Hphase1
              (cancel_local jobId b1)) as (Howned2 & Hphase2 & Hsettled2).
  rewrite (is_settled_lookup _ _ _ Hjob), Hunsettled in Hsettled2.
  assert (Hdecided :
    decided jobId cancelled_unless_succeeded
      (delivered (exec JSON_parse (fst (cancel jobId b1)) after))).
  { apply (decided_exec JSON_parse jobId (length (store b))
             (fun job => requestedCancel job = true)); try done.
    - intros j j' (_ & Hkeep & _). exact Hkeep.
    - intros. by apply finishJob_outcome_requestedCancel.
    - apply get_job_Some in Hget2 as [_ Hjob2]. eexists. split; [exact Hjob2|].
      reflexivity.
    - by eapply decided_unsettled. }
  destruct (Hdecided e Hin Hid Hterminal) as (code & Hcode & [[? ?]|[? ?]]);
    [left|right]; split; congruence.
Qed.

(** X6.  Once the watcher of a job has fired while the job was not
    settled, a failure of the job is reported as [E_TIMEOUT], whatever the
    exit code, the manifest or a spawn error say later. *)
Theorem fired_watcher_decides_failure request uuid b before after timer delay e :
  well_formed b ->
  unused (requested_jobId request uuid) b ->
  Forall (fun c => reuses (requested_jobId request uuid) c = false)
    (before ++ after) ->
  timers (exec JSON_parse (fst (run request uuid b)) before) !! timer
  = Some (requested_jobId request uuid, delay) ->
  is_settled (length (store b))
    (exec JSON_parse (fst (run request uuid b)) before) = false ->
  e ∈ delivered
        (exec JSON_parse (fst (run request uuid b))
           (before ++ TimerFired timer :: after)) ->
  ev_jobId e = requested_jobId request uuid ->
  ev_state e = failed ->
  ev_errorCode e = Some (JStr E_TIMEOUT).
Proof.
  intros Hwf Hunused [Hbefore Hafter]%Forall_app Htimer Hunsettled Hin Hid
    Hfailed.
  destruct (job_phase_run_fresh request uuid b Hwf Hunused)
    as (Howned0 & Hphase0 & _).
  fold (requested_jobId request uuid) in Howned0, Hphase0.
  destruct (job_phase_exec JSON_parse _ _ _ before Howned0 Hphase0 Hbefore)
    as (Howned1 & Hphase1 & _).
  set (jobId := requested_jobId request uuid) in *.
  unfold exec in Hin. rewrite fold_left_app in Hin.
  fold (exec JSON_parse (fst (run request uuid b)) before) in Hin.
  set (b1 := exec JSON_parse (fst (run request uuid b)) before) in *.
  cbn [fold_left] in Hin.
  fold (exec JSON_parse (step JSON_parse b1 (TimerFired timer)) after) in Hin.
  assert (Hfired : reuses jobId (TimerFired timer) = false) by done.
  destruct (job_phase_step JSON_parse jobId _ b1 _ Howned1 Hphase1 Hfired)
    as (Howned2 & Hphase2 & Hsettled2).
  rewrite Hunsettled in Hsettled2. cbn in Hsettled2.
  assert (Hflag : exists job,
             store (step JSON_parse b1 (TimerFired timer)) !! length (store b)
             = Some job /\ timedOut job = true).
  { destruct Hphase1 as [[job Hjob] Hphase1].
    assert (Hmap : activeJobs b1 !! jobId = Some (length (store b))).
    { destruct Hphase1 as [(_ & Hm & _)|[(Hs & _)|(Hs & _)]];
        [done|congruence..]. }
    pose proof (is_settled_lookup _ _ _ Hjob) as Hs.
    rewrite Hunsettled in Hs. symmetry in Hs.
    unfold step. rewrite Htimer. unfold timeout_callback.
    assert (Hget : get_job (with_timers (delete timer (timers b1)) b1) jobId
                   = Some (length (store b), job)).
    { by apply get_job_Some. }
    rewrite Hget, Hs.
    rewrite (requestKillTree_unsettled _ jobId (length (store b))
               (with_timedOut true job));
      [|by apply (get_job_set_job _ _ _ job)|done].
    cbn [store set_job with_store]. eexists. split.
    - rewrite list_insert_insert_eq. apply list_lookup_insert_eq.
      by eapply lookup_lt_Some.
    - reflexivity. }
  assert (Hdecided :
    decided jobId timeout_if_failed
      (delivered (exec JSON_parse (step JSON_parse b1 (TimerFired timer))
                    after))).
  { apply (decided_exec JSON_parse jobId (length (store b))
             (fun job => timedOut job = true)); try done.
    - intros j j' (_ & _ & Hkeep & _). exact Hkeep.
    - intros. by apply finishJob_outcome_timedOut.
    - by eapply decided_unsettled. }
  destruct (Hdecided e Hin Hid) as (code & Hcode & Hverdict);
    [by rewrite Hfailed|].
  rewrite Hcode. f_equal. by apply Hverdict.
Qed.

End Decisions.

Lemma accepted_cancel_decides_outcome_witness :
  well_formed createEngineBridge
  /\ unused (requested_jobId sample_request []) createEngineBridge
  /\ snd (cancel (requested_jobId sample_request [])
            (exec sample_parse (fst (run sample_request [] createEngineBridge))
               [TimerFired 0])) = true
  /\ mkEvent sample_jobId cancelled None (Some (JStr E_CANCELLED))
     ∈ delivered
         (exec sample_parse
            (fst (cancel (requested_jobId sample_request [])
                    (exec sample_parse
                       (fst (run sample_request [] createEngineBridge))
                       [TimerFired 0])))
            [ProcessClose sample_jobId (Some 1%Z); ManifestRead 0 blank_code_files])
  /\ ((cancelled = succeeded /\ Some (JStr E_CANCELLED) = Some JNull)
      \/ (cancelled = cancelled
          /\ Some (JStr E_CANCELLED) = Some (JStr E_CANCELLED))).
Proof.
  assert (Hunused : unused (requested_jobId sample_request []) createEngineBridge).
  { split; intros x Hin; by apply elem_of_nil in Hin. }
  assert (Htrace :
    Forall (fun c => reuses (requested_jobId sample_request []) c = false)
      ([TimerFired 0]
       ++ [ProcessClose sample_jobId (Some 1%Z);
           ManifestRead 0 blank_code_files]))
    by (repeat constructor).
  assert (Haccepted :
    snd (cancel (requested_jobId sample_request [])
           (exec sample_parse (fst (run sample_request [] createEngineBridge))
              [TimerFired 0])) = true) by (vm_compute; reflexivity).
  assert (Hin :
    mkEvent sample_jobId cancelled None (Some (JStr E_CANCELLED))
    ∈ delivered
        (exec sample_parse
           (fst (cancel (requested_jobId sample_request [])
                   (exec sample_parse
                      (fst (run sample_request [] createEngineBridge))
                      [TimerFired 0])))
           [ProcessClose sample_jobId (Some 1%Z);
            ManifestRead 0 blank_code_files])).
  { apply list_elem_of_In. vm_compute. tauto. }
  split; [exact well_formed_createEngineBridge|].
  split; [exact Hunused|]. split; [exact Haccepted|]. split; [exact Hin|].
  exact (accepted_cancel_decides_outcome sample_parse sample_request []
           createEngineBridge _ _ _ well_formed_createEngineBridge Hunused
           Htrace Haccepted Hin eq_refl eq_refl).
Defined.

Lemma fired_watcher_decides_failure_witness :
  well_formed createEngineBridge
  /\ unused (requested_jobId sample_request []) createEngineBridge
  /\ timers (exec sample_parse (fst (run sample_request [] createEngineBridge))
               []) !! 0
     = Some (requested_jobId sample_request [], 1050%Z)
  /\ mkEvent sample_jobId failed None (Some (JStr E_TIMEOUT))
     ∈ delivered
         (exec sample_parse (fst (run sample_request [] createEngineBridge))
            ([] ++ TimerFired 0
                :: [ProcessClose sample_jobId (Some 1%Z);
                    ManifestRead 0 blank_code_files]))
  /\ Some (JStr E_TIMEOUT) = Some (JStr E_TIMEOUT).
Proof.
  assert (Hunused : unused (requested_jobId sample_request []) createEngineBridge).
  { split; intros x Hin; by apply elem_of_nil in Hin. }
  assert (Htrace :
    Forall (fun c => reuses (requested_jobId sample_request []) c = false)
      ([] ++ [ProcessClose sample_jobId (Some 1%Z);
              ManifestRead 0 blank_code_files]))
    by (repeat constructor).
  assert (Htimer :
    timers (exec sample_parse (fst (run sample_request [] createEngineBridge))
              []) !! 0
    = Some (requested_jobId sample_request [], 1050%Z)) by reflexivity.
  assert (Hin :
    mkEvent sample_jobId failed None (Some (JStr E_TIMEOUT))
    ∈ delivered
        (exec sample_parse (fst (run sample_request [] createEngineBridge))
           ([] ++ TimerFired 0
               :: [ProcessClose sample_jobId (Some 1%Z);
                   ManifestRead 0 blank_code_files]))).
  { apply list_elem_of_In. vm_compute. tauto. }
  split; [exact well_formed_createEngineBridge|].
  split; [exact Hunused|]. split; [exact Htimer|]. split; [exact Hin|].
  exact (fired_watcher_decides_failure sample_parse sample_request []
           createEngineBridge [] _ 0 1050%Z _ well_formed_createEngineBridge
           Hunused Htrace Htimer eq_refl Hin eq_refl eq_refl).
Defined.

(** ** A job id used twice *)

Section Orphans.

Variable JSON_parse : jsstring -> option json.

Lemma orphaned_local ref k b b' :
  job_local k b b' -> orphaned ref b -> orphaned ref b'.
Proof.
  intros (Hmap & Hread & Hres & Hstore & _) (Hlt & Hkeys & Hsusp & Hresolved).
  unfold orphaned, suspended, resolutions in *. rewrite Hmap, Hread, Hres.
  repeat split; try done.
  destruct Hstore as [->|(r & job & job' & _ & -> & _)]; [done|].
  by rewrite length_insert.
Qed.

Lemma orphaned_step ref b c :
  orphaned ref b -> orphaned ref (step JSON_parse b c).
Proof.
  intros Horphan. pose proof (step_job_local JSON_parse b c) as Hlocal.
  destruct c as [request uuid|k|timer|k chunk|k error|k exitCode|n fs|k].
  - destruct Horphan as (Hlt & Hkeys & Hsusp & Hresolved).
    unfold step. destruct (run_effect request uuid b) as (t & ts & ->).
    unfold orphaned, suspended, resolutions in *.
    cbn [store activeJobs reading resolved].
    repeat split; try done.
    + rewrite length_app. simpl. lia.
    + intros k. destruct (decide (k = default uuid (req_jobId request)))
        as [->|Hne].
      * rewrite lookup_insert_eq. intros [= <-]. lia.
      * rewrite lookup_insert_ne by done. apply Hkeys.
  - by eapply orphaned_local.
  - destruct Hlocal as [k Hlocal]. by eapply orphaned_local.
  - by eapply orphaned_local.
  - clear Hlocal. unfold step.
    pose proof (finishJob_effect k None (Some error) b) as H.
    destruct (get_job b k) as [[r job]|] eqn:Hget; [|by rewrite H].
    destruct (settled job); [by rewrite H|]. destruct H as [ts ->].
    destruct Horphan as (Hlt & Hkeys & Hsusp & Hresolved).
    apply get_job_Some in Hget as [Hmap _].
    unfold orphaned, suspended, resolutions in *.
    cbn [store activeJobs reading resolved].
    rewrite length_insert, count_where_snoc. cbn [fr_job].
    destruct (Nat.eqb_spec r ref) as [->|_]; [by destruct (Hkeys k)|].
    repeat split; try done. lia.
  - clear Hlocal. unfold step.
    pose proof (finishJob_effect k exitCode None b) as H.
    destruct (get_job b k) as [[r job]|] eqn:Hget; [|by rewrite H].
    destruct (settled job); [by rewrite H|]. destruct H as [ts ->].
    destruct Horphan as (Hlt & Hkeys & Hsusp & Hresolved).
    apply get_job_Some in Hget as [Hmap _].
    unfold orphaned, suspended, resolutions in *.
    cbn [store activeJobs reading resolved].
    rewrite length_insert, count_where_snoc. cbn [fr_job].
    destruct (Nat.eqb_spec r ref) as [->|_]; [by destruct (Hkeys k)|].
    repeat split; try done. lia.
  - clear Hlocal. unfold step.
    destruct (reading b !! n) as [frame|] eqn:Hn;
      [|by rewrite finishJob_resume_idle by (by left)].
    destruct (store b !! fr_job frame) as [job|] eqn:Hjob;
      [|by rewrite finishJob_resume_idle by (right; eauto)].
    rewrite (finishJob_resume_unfold JSON_parse n fs b frame job Hn Hjob).
    destruct Horphan as (Hlt & Hkeys & Hsusp & Hresolved).
    assert (Hframe : Nat.eqb (fr_job frame) ref = false).
    { destruct (Nat.eqb_spec (fr_job frame) ref) as [Heq|]; [|done].
      exfalso. unfold suspended in Hsusp.
      apply list_elem_of_lookup_2, list_elem_of_split in Hn as (l1 & l2 & Hl).
      rewrite Hl in Hsusp.
      pose proof (count_where_elem (fun f => Nat.eqb (fr_job f) ref) l1 frame
                    l2 (proj2 (Nat.eqb_eq _ _) Heq)) as Hone.
      lia. }
    unfold orphaned, suspended, resolutions in *.
    cbn [store activeJobs reading resolved].
    rewrite count_where_snoc. cbn [fst]. rewrite Hframe.
    pose proof (count_where_delete (fun f => Nat.eqb (fr_job f) ref) _ _ _ Hn)
      as Hdel.
    cbv beta in Hdel. rewrite Hframe in Hdel.
    repeat split; try done; try lia.
    intros k Hk. apply lookup_delete_Some in Hk as [_ Hk]. by apply (Hkeys k).
  - by eapply orphaned_local.
Qed.

Lemma orphaned_exec ref b trace :
  orphaned ref b -> orphaned ref (exec JSON_parse b trace).
Proof.
  revert b. induction trace as [|c trace IH]; intros b H; [done|].
  apply IH. by apply orphaned_step.
Qed.

(** X26.  The bridge does not check that a job id is free.  If [run] is
    called under the id of a job that is still running, the promise of the
    first job is never resolved, whatever happens afterwards, and the
    [close] of a process run under the id settles the record of the second
    job. *)
Theorem reused_id_orphans_first_job request uuid b before request' uuid'
    after exitCode :
  well_formed b ->
  unused (requested_jobId request uuid) b ->
  Forall (fun c => reuses (requested_jobId request uuid) c = false) before ->
  is_settled (length (store b))
    (exec JSON_parse (fst (run request uuid b)) before) = false ->
  requested_jobId request' uuid' = requested_jobId request uuid ->
  resolutions (length (store b))
    (exec JSON_parse
       (fst (run request' uuid'
               (exec JSON_parse (fst (run request uuid b)) before)))
       after) = 0
  /\ is_settled
       (length (store (exec JSON_parse (fst (run request uuid b)) before)))
       (step JSON_parse
          (fst (run request' uuid'
                  (exec JSON_parse (fst (run request uuid b)) before)))
          (ProcessClose (requested_jobId request uuid) exitCode)) = true.
Proof.
  intros Hwf Hunused Hbefore Hunsettled Hsame.
  destruct (job_phase_run_fresh request uuid b Hwf Hunused)
    as (Howned0 & Hphase0 & _).
  fold (requested_jobId request uuid) in Howned0, Hphase0.
  destruct (job_phase_exec JSON_parse _ _ _ before Howned0 Hphase0 Hbefore)
    as (Howned1 & Hphase1 & _).
  set (jobId := requested_jobId request uuid) in *.
  set (b1 := exec JSON_parse (fst (run request uuid b)) before) in *.
  destruct Hphase1 as [[job Hjob] Hphase1].
  destruct Hphase1 as [(_ & Hmap & Hsusp & _ & Hres)|[(Hs & _)|(Hs & _)]];
    [|congruence..].
  unfold requested_jobId in Hsame.
  destruct (run_effect request' uuid' b1) as (ref' & timers' & Hrun).
  split.
  - apply orphaned_exec. rewrite Hrun.
    unfold orphaned, suspended, resolutions in *.
    cbn [store activeJobs reading resolved].
    repeat split; try done.
    + rewrite length_app. apply lookup_lt_Some in Hjob. lia.
    + intros k. destruct (decide (k = default uuid' (req_jobId request')))
        as [->|Hne].
      * rewrite lookup_insert_eq. intros [= Heq].
        apply lookup_lt_Some in Hjob. lia.
      * rewrite lookup_insert_ne by done. intros Hk.
        apply (proj1 Howned1) in Hk. congruence.
  - rewrite Hrun. unfold step.
    erewrite finishJob_unfold; cycle 1.
    + apply get_job_Some. cbn. rewrite <- Hsame at 1.
      split; [apply lookup_insert_eq|].
      by rewrite lookup_app_r, Nat.sub_diag.
    + reflexivity.
    + unfold is_settled. cbn.
      rewrite list_lookup_insert_eq by (rewrite length_app; simpl; lia).
      reflexivity.
Qed.

End Orphans.

Lemma reused_id_orphans_first_job_witness :
  well_formed createEngineBridge
  /\ unused (requested_jobId sample_request []) createEngineBridge
  /\ is_settled (length (store createEngineBridge))
       (exec sample_parse (fst (run sample_request [] createEngineBridge)) [])
     = false
  /\ resolutions (length (store createEngineBridge))
       (exec sample_parse
          (fst (run sample_request []
                  (exec sample_parse
                     (fst (run sample_request [] createEngineBridge)) [])))
          [ProcessClose sample_jobId (Some 0%Z);
           ManifestRead 0 succeeded_files;
           ProcessClose sample_jobId (Some 0%Z)]) = 0
  /\ resolutions 1
       (exec sample_parse
          (fst (run sample_request []
                  (exec sample_parse
                     (fst (run sample_request [] createEngineBridge)) [])))
          [ProcessClose sample_jobId (Some 0%Z);
           ManifestRead 0 succeeded_files;
           ProcessClose sample_jobId (Some 0%Z)]) = 1.
Proof.
  assert (Hunused : unused (requested_jobId sample_request []) createEngineBridge).
  { split; intros x Hin; by apply elem_of_nil in Hin. }
  assert (Hbefore :
    Forall (fun c => reuses (requested_jobId sample_request []) c = false) [])
    by constructor.
  split; [exact well_formed_createEngineBridge|].
  split; [exact Hunused|]. split; [reflexivity|].
  split; [|vm_compute; reflexivity].
  exact (proj1 (reused_id_orphans_first_job sample_parse sample_request []
                  createEngineBridge [] sample_request [] _ None
                  well_formed_createEngineBridge Hunused Hbefore eq_refl
                  eq_refl)).
Defined.

(** ** The window of cancel *)

Section CancelWindow.

Variable JSON_parse : jsstring -> option json.

(** X27.  The window of [cancel]: for a job started under an unused id,
    after any trace that does not start another job under that id,
    [cancel] returns [true] exactly if neither the [close] nor the [error]
    callback of the job has run. *)
Theorem cancel_accepted_until_exit request uuid b trace :
  well_formed b ->
  unused (requested_jobId request uuid) b ->
  Forall (fun c => reuses (requested_jobId request uuid) c = false) trace ->
  snd (cancel (requested_jobId request uuid)
         (exec JSON_parse (fst (run request uuid b)) trace))
  = negb (existsb (is_exit (requested_jobId request uuid)) trace).
Proof.
  intros Hwf Hunused Htrace.
  destruct (job_phase_run_fresh request uuid b Hwf Hunused)
    as (Howned0 & Hphase0 & Hsettled0).
  fold (requested_jobId request uuid) in Howned0, Hphase0.
  destruct (job_phase_exec JSON_parse _ _ _ trace Howned0 Hphase0 Htrace)
    as (_ & Hphase & Hsettled).
  rewrite Hsettled0 in Hsettled. cbn [orb] in Hsettled. rewrite <- Hsettled.
  set (jobId := requested_jobId request uuid) in *.
  set (b' := exec JSON_parse (fst (run request uuid b)) trace) in *.
  destruct Hphase as [[job Hjob] Hphase].
  pose proof (is_settled_lookup _ _ _ Hjob) as Hflag.
  unfold cancel, get_job.
  destruct Hphase as [(Hs & Hmap & _)|[(Hs & Hmap & _)|(Hs & Hmap & _)]];
    rewrite Hmap, ?Hjob, Hs; try done;
    rewrite Hs in Hflag; by rewrite <- Hflag.
Qed.

End CancelWindow.

Lemma cancel_accepted_until_exit_witness :
  well_formed createEngineBridge
  /\ unused (requested_jobId sample_request []) createEngineBridge
  /\ Forall (fun c => reuses (requested_jobId sample_request []) c = false)
       sample_callbacks
  /\ snd (cancel (requested_jobId sample_request [])
            (exec sample_parse (fst (run sample_request [] createEngineBridge))
               sample_callbacks))
     = negb (existsb (is_exit (requested_jobId sample_request []))
               sample_callbacks).
Proof.
  assert (Hunused : unused (requested_jobId sample_request []) createEngineBridge).
  { split; intros x Hin; by apply elem_of_nil in Hin. }
  assert (Htrace :
    Forall (fun c => reuses (requested_jobId sample_request []) c = false)
      sample_callbacks)
    by (repeat constructor).
  split; [exact well_formed_createEngineBridge|].
  split; [exact Hunused|]. split; [exact Htrace|].
  exact (cancel_accepted_until_exit sample_parse sample_request []
           createEngineBridge sample_callbacks well_formed_createEngineBridge
           Hunused Htrace).
Defined.

(** ** Cuts of the output stream *)

Lemma utf8_decode_from_app st a b :
  utf8_pending_after st a = None ->
  utf8_decode_from st (a ++ b)
  = utf8_decode_from st a ++ utf8_decode_from None b.
Proof.
  revert st. induction a as [|byte a IH]; intros st Hst.
  - simpl in Hst. subst st. reflexivity.
  - simpl in *. destruct st as [p|].
    + destruct ((lower_boundary p <=? Byte.to_N byte)%N
                && (Byte.to_N byte <=? upper_boundary p)%N).
      * destruct (bytes_needed p) as [|[|n]];
          rewrite IH by exact Hst; by rewrite ?app_assoc.
      * destruct (utf8_lead (Byte.to_N byte)) as [out st'].
        simpl in *. rewrite IH by exact Hst. by rewrite app_assoc.
    + destruct (utf8_lead (Byte.to_N byte)) as [out st'].
      simpl in *. rewrite IH by exact Hst. by rewrite app_assoc.
Qed.

Lemma utf8_decode_concat pieces :
  Forall (fun piece => utf8_pending_after None piece = None) pieces ->
  utf8_decode (concat pieces) = concat (map utf8_decode pieces).
Proof.
  induction 1 as [|piece pieces Hpiece _ IH]; [done|].
  simpl. unfold utf8_decode in *. by rewrite utf8_decode_from_app, IH.
Qed.

Lemma utf8_pending_after_ascii bytes :
  Forall (fun byte => (Byte.to_N byte <=? 0x7F)%N = true) bytes ->
  utf8_pending_after None bytes = None.
Proof.
  induction 1 as [|byte bytes Hbyte _ IH]; [done|].
  simpl. unfold utf8_lead. by rewrite Hbyte.
Qed.

Section Stream.

Variable JSON_parse : jsstring -> option json.

(** X7.  Buffers that each end where a UTF-8 character ends are as good as
    one buffer: the events delivered and the remainder kept are those of
    the concatenated bytes. *)
Theorem consumeStdout_cut_between_characters jobId piece pieces b ref job :
  get_job b jobId = Some (ref, job) ->
  Forall (fun bytes => utf8_pending_after None bytes = None) (piece :: pieces) ->
  consumeStdout_all JSON_parse jobId (map Buffer (piece :: pieces)) b
  = consumeStdout_all JSON_parse jobId [Buffer (concat (piece :: pieces))] b.
Proof.
  intros Hget Hpieces.
  apply (consumeStdout_all_same_text JSON_parse _ _ _ _ _ _ _ _ Hget).
  cbn [map concat chunk_toString]. rewrite app_nil_r.
  change (piece ++ concat pieces) with (concat (piece :: pieces)).
  rewrite (utf8_decode_concat _ Hpieces). simpl. f_equal.
  clear. induction pieces as [|p pieces IH]; [done|]. simpl. by rewrite IH.
Qed.

(** X8.  An ASCII stream can be cut into buffers anywhere, also inside a
    line or between a carriage return and its line feed, without changing
    the events delivered or the remainder kept. *)
Theorem consumeStdout_ascii_cut_anywhere jobId piece pieces b ref job :
  get_job b jobId = Some (ref, job) ->
  Forall (fun byte => (Byte.to_N byte <=? 0x7F)%N = true)
    (concat (piece :: pieces)) ->
  consumeStdout_all JSON_parse jobId (map Buffer (piece :: pieces)) b
  = consumeStdout_all JSON_parse jobId [Buffer (concat (piece :: pieces))] b.
Proof.
  intros Hget Hascii.
  apply (consumeStdout_all_same_text JSON_parse _ _ _ _ _ _ _ _ Hget).
  cbn [map concat chunk_toString]. rewrite app_nil_r.
  change (piece ++ concat pieces) with (concat (piece :: pieces)).
  rewrite utf8_decode_concat.
  - simpl. f_equal.
    clear. induction pieces as [|p pieces IH]; [done|]. simpl. by rewrite IH.
  - revert Hascii. generalize (piece :: pieces). clear.
    induction l as [|p l IH]; simpl; [constructor|].
    intros [Hp Hl]%Forall_app. constructor; [|by apply IH].
    by apply utf8_pending_after_ascii.
Qed.

Lemma exec_stdout_running jobId chunks b ref job :
  get_job b jobId = Some (ref, job) ->
  runningEmitted job = true ->
  exec JSON_parse b (map (StdoutData jobId) chunks)
  = consumeStdout_all JSON_parse jobId chunks b.
Proof.
  revert b job. induction chunks as [|c chunks IH]; intros b job Hget Hr;
    [done|].
  change (exec JSON_parse b (map (StdoutData jobId) (c :: chunks)))
    with (exec JSON_parse (step JSON_parse b (StdoutData jobId c))
            (map (StdoutData jobId) chunks)).
  change (consumeStdout_all JSON_parse jobId (c :: chunks) b)
    with (consumeStdout_all JSON_parse jobId chunks
            (consumeStdout JSON_parse jobId c b)).
  assert (Hstep : step JSON_parse b (StdoutData jobId c)
                  = consumeStdout JSON_parse jobId c b).
  { unfold step, emitRunningOnce. by rewrite Hget, Hr. }
  rewrite Hstep.
  eapply (IH _ (with_stdoutRemainder _ job)); [|exact Hr].
  rewrite (consumeStdout_effect JSON_parse jobId c b ref job Hget).
  apply get_job_Some in Hget as [Hmap Hjob]. apply get_job_Some.
  split; [exact Hmap|]. simpl. apply list_lookup_insert_eq.
  by eapply lookup_lt_Some.
Qed.

(** X9.  What follows the last line break of the output is never
    forwarded: after the chunks of a stream, the [close] of the process and
    the manifest read, the sink has received the events of the complete
    lines and then the terminal event, and nothing for the last piece (the
    remainder is not flushed when the job ends). *)
Theorem remainder_dropped_at_exit jobId chunk chunks exitCode fs b ref job :
  get_job b jobId = Some (ref, job) ->
  settled job = false ->
  runningEmitted job = true ->
  exists e,
    delivered
      (exec JSON_parse b
         (map (StdoutData jobId) (chunk :: chunks)
          ++ [ProcessClose jobId exitCode;
              ManifestRead (length (reading b)) fs]))
    = delivered b
      ++ progress_events JSON_parse jobId
           (removelast
              (split_lines
                 (stdoutRemainder job
                  ++ concat (map chunk_toString (chunk :: chunks)))))
      ++ [e]
    /\ ev_jobId e = jobId
    /\ terminal (ev_state e) = true
    /\ progressEvent e = None.
Proof.
  intros Hget Hs Hr.
  unfold exec. rewrite fold_left_app. fold (exec JSON_parse b (map (StdoutData jobId) (chunk :: chunks))).
  rewrite (exec_stdout_running _ _ _ _ _ Hget Hr).
  rewrite (consumeStdout_all_effect JSON_parse _ _ _ _ _ _ Hget).
  set (text := stdoutRemainder job ++ concat (map chunk_toString (chunk :: chunks))).
  set (job1 := with_stdoutRemainder _ job).
  set (b1 := mkBridge _ _ _ _ _ _ _).
  assert (Hget1 : get_job b1 jobId = Some (ref, job1)).
  { apply get_job_Some in Hget as [Hmap Hjob]. apply get_job_Some.
    split; [exact Hmap|]. simpl. apply list_lookup_insert_eq.
    by eapply lookup_lt_Some. }
  cbn [fold_left]. change (step JSON_parse b1 (ProcessClose jobId exitCode))
    with (finishJob jobId exitCode None b1).
  rewrite (finishJob_unfold _ _ _ _ _ _ Hget1 Hs).
  set (b2 := mkBridge _ _ _ _ _ _ _).
  change (step JSON_parse b2 (ManifestRead (length (reading b)) fs))
    with (finishJob_resume JSON_parse (length (reading b)) fs b2).
  erewrite (finishJob_resume_unfold JSON_parse _ fs b2
              (mkFrame ref jobId exitCode None (outputDir job1))
              (with_settled true job1)); cycle 1.
  - simpl. by rewrite lookup_app_r, Nat.sub_diag.
  - simpl. apply list_lookup_insert_eq. rewrite length_insert.
    apply get_job_Some in Hget as [_ Hjob]. by eapply lookup_lt_Some.
  - simpl. eexists. rewrite <- app_assoc. split; [reflexivity|].
    split; [done|]. split; [apply finishJob_outcome_terminal|done].
Qed.

End Stream.

Lemma consumeStdout_cut_between_characters_witness :
  get_job (sample_bridge []) sample_jobId
  = Some (0, mkJob (js "/out") false false false true (Some 0) false [])
  /\ Forall (fun bytes => utf8_pending_after None bytes = None)
       [ascii_bytes (json_text "{'message':'") ++ [xc3; xa9];
        ascii_bytes (json_text "'}") ++ [x0a]]
  /\ consumeStdout_all sample_parse sample_jobId
       (map Buffer
          [ascii_bytes (json_text "{'message':'") ++ [xc3; xa9];
           ascii_bytes (json_text "'}") ++ [x0a]])
       (sample_bridge [])
     = consumeStdout_all sample_parse sample_jobId
         [Buffer
            (concat
               [ascii_bytes (json_text "{'message':'") ++ [xc3; xa9];
                ascii_bytes (json_text "'}") ++ [x0a]])]
         (sample_bridge []).
Proof.
  assert (Hget : get_job (sample_bridge []) sample_jobId
                 = Some (0, mkJob (js "/out") false false false true (Some 0)
                              false [])) by reflexivity.
  assert (Hpieces :
    Forall (fun bytes => utf8_pending_after None bytes = None)
      [ascii_bytes (json_text "{'message':'") ++ [xc3; xa9];
       ascii_bytes (json_text "'}") ++ [x0a]])
    by (repeat constructor).
  split; [exact Hget|]. split; [exact Hpieces|].
  exact (consumeStdout_cut_between_characters sample_parse _ _ _ _ _ _ Hget
           Hpieces).
Defined.

Lemma consumeStdout_ascii_cut_anywhere_witness :
  get_job (sample_bridge []) sample_jobId
  = Some (0, mkJob (js "/out") false false false true (Some 0) false [])
  /\ Forall (fun byte => (Byte.to_N byte <=? 0x7F)%N = true)
       (concat
          [ascii_bytes (json_text "{'prog"); ascii_bytes (json_text "ress':42}");
           [x0d]; [x0a]])
  /\ consumeStdout_all sample_parse sample_jobId
       (map Buffer
          [ascii_bytes (json_text "{'prog"); ascii_bytes (json_text "ress':42}");
           [x0d]; [x0a]])
       (sample_bridge [])
     = consumeStdout_all sample_parse sample_jobId
         [Buffer
            (concat
               [ascii_bytes (json_text "{'prog");
                ascii_bytes (json_text "ress':42}"); [x0d]; [x0a]])]
         (sample_bridge []).
Proof.
  assert (Hget : get_job (sample_bridge []) sample_jobId
                 = Some (0, mkJob (js "/out") false false false true (Some 0)
                              false [])) by reflexivity.
  assert (Hascii :
    Forall (fun byte => (Byte.to_N byte <=? 0x7F)%N = true)
      (concat
         [ascii_bytes (json_text "{'prog"); ascii_bytes (json_text "ress':42}");
          [x0d]; [x0a]]))
    by (vm_compute; repeat constructor).
  split; [exact Hget|]. split; [exact Hascii|].
  exact (consumeStdout_ascii_cut_anywhere sample_parse _ _ _ _ _ _ Hget Hascii).
Defined.

Lemma remainder_dropped_at_exit_witness :
  get_job (sample_bridge []) sample_jobId
  = Some (0, mkJob (js "/out") false false false true (Some 0) false [])
  /\ exists e,
      delivered
        (exec sample_parse (sample_bridge [])
           (map (StdoutData sample_jobId)
              [Text (progress_line ++ [LF]); Text progress_line]
            ++ [ProcessClose sample_jobId (Some 0%Z);
                ManifestRead (length (reading (sample_bridge [])))
                  succeeded_files]))
      = delivered (sample_bridge [])
        ++ progress_events sample_parse sample_jobId
             (removelast
                (split_lines
                   ([] ++ concat
                            (map chunk_toString
                               [Text (progress_line ++ [LF]);
                                Text progress_line]))))
        ++ [e]
      /\ ev_jobId e = sample_jobId
      /\ terminal (ev_state e) = true
      /\ progressEvent e = None.
Proof.
  assert (Hget : get_job (sample_bridge []) sample_jobId
                 = Some (0, mkJob (js "/out") false false false true (Some 0)
                              false [])) by reflexivity.
  split; [exact Hget|].
  exact (remainder_dropped_at_exit sample_parse sample_jobId _ _ (Some 0%Z)
           succeeded_files _ _ _ Hget eq_refl eq_refl).
Defined.

(** ** The command line of the engine *)

Lemma indexOf_app_r name before after :
  name ∉ before ->
  indexOf name (before ++ after)
  = (fun index => length before + index) <$> indexOf name after.
Proof.
  intros Hnot. induction before as [|arg before IH]; simpl.
  - by destruct (indexOf name after).
  - apply not_elem_of_cons in Hnot as [Hne Hnot].
    rewrite bool_decide_eq_false_2 by done. rewrite IH by done.
    by destruct (indexOf name after).
Qed.

Lemma readArg_cons_ne arg argv name :
  arg <> name -> readArg (arg :: argv) name = readArg argv name.
Proof.
  intros Hne. unfold readArg. simpl. rewrite bool_decide_eq_false_2 by done.
  destruct (indexOf name argv) as [index|]; [|done]. simpl.
  by destruct (length argv <=? index + 1).
Qed.

Lemma readArg_app_r before argv name :
  name ∉ before -> readArg (before ++ argv) name = readArg argv name.
Proof.
  intros Hnot. induction before as [|arg before IH]; [done|].
  apply not_elem_of_cons in Hnot as [Hne Hnot]. simpl.
  rewrite readArg_cons_ne by done. by apply IH.
Qed.

Lemma readArg_head name value argv :
  readArg (name :: value :: argv) name = Some value.
Proof. unfold readArg. simpl. by rewrite bool_decide_eq_true_2. Qed.

Section CommandLineProperties.

Variable Number_toString : Z -> jsstring.

Lemma run_args_fixed commandPrefixArgs request uuid :
  exists optional,
    run_args Number_toString commandPrefixArgs request uuid
    = commandPrefixArgs
      ++ [js "--input"; run_inputPath request;
          js "--output"; run_outputDir request;
          js "--job-id"; default uuid (run_jobId request);
          js "--backend"; default (js "pipeline") (run_backend request);
          js "--method"; default (js "auto") (run_method request);
          js "--jsonl"]
      ++ push_number Number_toString (js "--timeout-ms")
           (run_timeoutMs request) []
      ++ optional.
Proof.
  unfold run_args, push_number.
  destruct (run_timeoutMs request), (run_lang request) as [[|c lang]|],
    (run_start request), (run_end request);
    eexists; rewrite <- ?app_assoc; simpl; try reflexivity;
    rewrite ?app_nil_r; try reflexivity.
Qed.

(** X10.  The test engine reads back what [run] passes: if none of the
    strings before the flags (the executable, the prefix arguments) and
    none of the values given is itself the name of a flag, [readArg] on the
    child's argument vector returns the input path, the output directory,
    the job id, the backend and the method of the request, with defaults
    [pipeline] and [auto]. *)
Theorem readArg_reads_back_run_args argv0 commandPrefixArgs request uuid :
  Forall (fun arg => arg ∉ valued_flags)
    (argv0 ++ commandPrefixArgs
     ++ [run_inputPath request; run_outputDir request;
         default uuid (run_jobId request);
         default (js "pipeline") (run_backend request)]) ->
  map (readArg
         (argv0 ++ run_args Number_toString commandPrefixArgs request uuid))
    valued_flags
  = [Some (run_inputPath request); Some (run_outputDir request);
     Some (default uuid (run_jobId request));
     Some (default (js "pipeline") (run_backend request));
     Some (default (js "auto") (run_method request))].
Proof.
  intros Hargs.
  destruct (run_args_fixed commandPrefixArgs request uuid) as [optional ->].
  rewrite !Forall_app in Hargs. destruct Hargs as (Hargv0 & Hprefix & Hvalues).
  rewrite Forall_forall in Hargv0. rewrite Forall_forall in Hprefix.
  rewrite !Forall_cons in Hvalues.
  destruct Hvalues as (HinputPath & HoutputDir & HjobId & Hbackend & _).
  set (inputPath := run_inputPath request) in *.
  set (outputDir := run_outputDir request) in *.
  set (jobId := default uuid (run_jobId request)) in *.
  set (backend := default (js "pipeline") (run_backend request)) in *.
  set (method := default (js "auto") (run_method request)) in *.
  set (tail := push_number _ _ _ _ ++ optional).
  assert (Hlead : forall flag argv,
             flag ∈ valued_flags ->
             readArg (argv0 ++ commandPrefixArgs ++ argv) flag
             = readArg argv flag).
  { intros flag argv Hflag. rewrite app_assoc. apply readArg_app_r.
    intros [Hin|Hin]%elem_of_app; [by apply (Hargv0 flag)|by apply (Hprefix flag)]. }
  assert (Hne : forall flag value,
             flag ∈ valued_flags -> value ∉ valued_flags -> value <> flag).
  { by intros flag value Hflag Hvalue ->. }
  unfold valued_flags in *. cbn [map app].
  rewrite !Hlead by set_solver.
  repeat first
    [ rewrite readArg_head
    | rewrite readArg_cons_ne
        by first [done | apply Hne; [set_solver|done]] ].
  reflexivity.
Qed.

End CommandLineProperties.

Lemma readArg_reads_back_run_args_witness :
  Forall (fun arg => arg ∉ valued_flags)
    ([js "node"] ++ [js "engine.cjs"]
     ++ [run_inputPath sample_run_request; run_outputDir sample_run_request;
         default [] (run_jobId sample_run_request);
         default (js "pipeline") (run_backend sample_run_request)])
  /\ map (readArg
            ([js "node"]
             ++ run_args decimal [js "engine.cjs"] sample_run_request []))
       valued_flags
     = [Some (js "/in.pdf"); Some (js "/out"); Some sample_jobId;
        Some (js "pipeline"); Some (js "auto")].
Proof.
  assert (Hargs :
    Forall (fun arg => arg ∉ valued_flags)
      ([js "node"] ++ [js "engine.cjs"]
       ++ [run_inputPath sample_run_request; run_outputDir sample_run_request;
           default [] (run_jobId sample_run_request);
           default (js "pipeline") (run_backend sample_run_request)])).
  { apply (bool_decide_unpack _). vm_compute. reflexivity. }
  split; [exact Hargs|].
  exact (readArg_reads_back_run_args decimal [js "node"] [js "engine.cjs"]
           sample_run_request [] Hargs).
Defined.

(** ** The process-tree terminator *)

Section TerminatorProperties.

Variable Number_toString : Z -> jsstring.
Variable host : Host.

(** X12.  [SIGKILL] is the last resort of the terminator: if a run sends
    it, the run has first sent [SIGTERM], then slept
    [KILL_TREE_ESCALATION_MS], and the child had no exit code after the
    sleep; nothing but [SIGKILL] follows, and [taskkill] is not used in such
    a run. *)
Theorem kill_signal_only_after_grace pid :
  existsb (sends SIGKILL) (killProcessTree Number_toString host pid) = true ->
  exists terms kills,
    killProcessTree Number_toString host pid
    = terms ++ [Sleep KILL_TREE_ESCALATION_MS] ++ kills
    /\ terms <> []
    /\ forallb (sends SIGTERM) terms = true
    /\ forallb (sends SIGKILL) kills = true
    /\ host_exitCode host (terms ++ [Sleep KILL_TREE_ESCALATION_MS]) = None.
Proof.
  unfold killProcessTree, killPosixProcessTree, killWindowsProcessTree,
    sendSignal, sleep. cbv zeta. cbn [app].
  match goal with
  | |- context [match pid with Some _ => _ | None => ?calls end] =>
      set (through_handle := calls)
  end.
  assert (Hhandle :
    existsb (sends SIGKILL) through_handle = true ->
    exists terms kills,
      through_handle = terms ++ [Sleep KILL_TREE_ESCALATION_MS] ++ kills
      /\ terms <> []
      /\ forallb (sends SIGTERM) terms = true
      /\ forallb (sends SIGKILL) kills = true
      /\ host_exitCode host (terms ++ [Sleep KILL_TREE_ESCALATION_MS]) = None).
  { unfold through_handle.
    destruct (host_exitCode host _) eqn:Hexit; [done|]. intros _.
    by exists [HandleKill SIGTERM], [HandleKill SIGKILL]. }
  destruct pid as [pid|]; [|exact Hhandle].
  destruct (pid <=? 0)%Z; [exact Hhandle|]. clear Hhandle through_handle.
  destruct (host_win32 host); [done|].
  destruct (host_process_kill host [] (- pid)%Z SIGTERM) eqn:Hgroup.
  - cbn [negb app]. destruct (host_exitCode host _) eqn:Hexit; [by cbn|].
    intros _. exists [ProcessKill (- pid)%Z SIGTERM].
    destruct (host_process_kill host _ (- pid)%Z SIGKILL);
      [|destruct (host_process_kill host _ pid SIGKILL)];
      eexists; (split; [cbn [fst app]; reflexivity|done]).
  - destruct (host_process_kill host _ pid SIGTERM) eqn:Hdirect; [|done].
    cbn [negb app]. destruct (host_exitCode host _) eqn:Hexit; [by cbn|].
    intros _. exists [ProcessKill (- pid)%Z SIGTERM; ProcessKill pid SIGTERM].
    destruct (host_process_kill host _ (- pid)%Z SIGKILL);
      [|destruct (host_process_kill host _ pid SIGKILL)];
      eexists; (split; [cbn [fst app]; reflexivity|done]).
Qed.

(** X13.  On POSIX, for a child with a valid pid, the terminator signals
    the process group first; the process itself is signalled only right
    after the signal to the group could not be delivered; nothing else is
    ever targeted; and if [SIGTERM] reaches neither, the run ends there,
    without sleeping or escalating. *)
Theorem group_signalled_first_then_process pid :
  host_win32 host = false ->
  (0 < pid)%Z ->
  (exists rest,
      killProcessTree Number_toString host (Some pid)
      = ProcessKill (- pid)%Z SIGTERM :: rest)
  /\ forallb (aims_at pid) (killProcessTree Number_toString host (Some pid))
     = true
  /\ (forall before signal after,
         killProcessTree Number_toString host (Some pid)
         = before ++ ProcessKill pid signal :: after ->
         exists earlier,
           before = earlier ++ [ProcessKill (- pid)%Z signal]
           /\ host_process_kill host earlier (- pid)%Z signal = false)
  /\ (host_process_kill host [] (- pid)%Z SIGTERM = false ->
      host_process_kill host [ProcessKill (- pid)%Z SIGTERM] pid SIGTERM
      = false ->
      killProcessTree Number_toString host (Some pid)
      = [ProcessKill (- pid)%Z SIGTERM; ProcessKill pid SIGTERM]).
Proof.
  intros Hposix Hpid.
  unfold killProcessTree, killPosixProcessTree, sendSignal, sleep.
  rewrite Hposix. destruct (Z.leb_spec pid 0) as [Hle|_]; [lia|].
  assert (Hself : pid <> (- pid)%Z) by lia.
  assert (Haims : forall signal,
             aims_at pid (ProcessKill pid signal) = true
             /\ aims_at pid (ProcessKill (- pid)%Z signal) = true).
  { intros signal. unfold aims_at. split.
    - by rewrite (bool_decide_eq_true_2 (pid = pid)).
    - rewrite (bool_decide_eq_true_2 (- pid = - pid)%Z) by done.
      apply orb_true_r. }
  destruct (host_process_kill host [] (- pid)%Z SIGTERM) eqn:Hgroup;
    [|destruct (host_process_kill host _ pid SIGTERM) eqn:Hdirect];
    cbn [negb app];
    try (destruct (host_exitCode host _) eqn:Hexit);
    try (destruct (host_process_kill host _ (- pid)%Z SIGKILL) eqn:Hgroup';
         [|destruct (host_process_kill host _ pid SIGKILL) eqn:Hdirect']);
    cbn [fst app];
    (split; [by eexists|]);
    (split; [cbn [forallb]; by rewrite ?(proj1 (Haims _)), ?(proj2 (Haims _))|]);
    (split; [|done]);
    intros before signal after Hsplit;
    repeat (destruct before as [|? before];
            [cbn [app] in Hsplit; simplify_eq;
             try lia;
             first [ by exists []
                   | by eexists [_]
                   | by eexists [_; _]
                   | by eexists [_; _; _] ]
            |cbn [app] in Hsplit; injection Hsplit as <- Hsplit]);
    try (by destruct before).
Qed.

(** X14.  [run] and the terminator agree on process groups: the child is
    spawned detached, as the leader of a group of its own, exactly on the
    platforms where the terminator starts by signalling that group. *)
Theorem group_signalled_iff_spawned_detached
    options process_env request uuid pid :
  (0 < pid)%Z ->
  spawn_detached
    (run_spawn Number_toString options process_env (host_win32 host) request
       uuid) = true
  <-> head (killProcessTree Number_toString host (Some pid))
      = Some (ProcessKill (- pid)%Z SIGTERM).
Proof.
  intros Hpid. unfold run_spawn, killProcessTree, killPosixProcessTree,
    killWindowsProcessTree, sendSignal, sleep. cbn [spawn_detached].
  destruct (Z.leb_spec pid 0) as [Hle|_]; [lia|].
  destruct (host_win32 host); [by split|].
  split; [intros _|done].
  destruct (host_process_kill host [] (- pid)%Z SIGTERM);
    [|destruct (host_process_kill host _ pid SIGTERM)];
    cbn [negb app]; try done;
    destruct (host_exitCode host _); try done;
    destruct (host_process_kill host _ (- pid)%Z SIGKILL); try done;
    by destruct (host_process_kill host _ pid SIGKILL).
Qed.

End TerminatorProperties.

Lemma kill_signal_only_after_grace_witness :
  existsb (sends SIGKILL) (killProcessTree decimal stubborn_host (Some 4242%Z))
  = true
  /\ exists terms kills,
      killProcessTree decimal stubborn_host (Some 4242%Z)
      = terms ++ [Sleep KILL_TREE_ESCALATION_MS] ++ kills
      /\ terms <> []
      /\ forallb (sends SIGTERM) terms = true
      /\ forallb (sends SIGKILL) kills = true
      /\ host_exitCode stubborn_host (terms ++ [Sleep KILL_TREE_ESCALATION_MS])
         = None.
Proof.
  split; [reflexivity|].
  exact (kill_signal_only_after_grace decimal stubborn_host (Some 4242%Z)
           eq_refl).
Defined.

Lemma group_signalled_first_then_process_witness :
  host_win32 stubborn_host = false
  /\ (0 < 4242)%Z
  /\ (exists rest,
         killProcessTree decimal stubborn_host (Some 4242%Z)
         = ProcessKill (- 4242)%Z SIGTERM :: rest)
  /\ forallb (aims_at 4242%Z)
       (killProcessTree decimal stubborn_host (Some 4242%Z)) = true.
Proof.
  split; [reflexivity|]. split; [reflexivity|].
  destruct (group_signalled_first_then_process decimal stubborn_host 4242%Z
              eq_refl eq_refl) as (Hfirst & Haims & _).
  split; [exact Hfirst|exact Haims].
Defined.

Lemma group_signalled_iff_spawned_detached_witness :
  (0 < 4242)%Z
  /\ (spawn_detached
        (run_spawn decimal (mkOptions None None None None) ∅
           (host_win32 stubborn_host) sample_run_request []) = true
      <-> head (killProcessTree decimal stubborn_host (Some 4242%Z))
          = Some (ProcessKill (- 4242)%Z SIGTERM)).
Proof.
  split; [reflexivity|].
  exact (group_signalled_iff_spawned_detached decimal stubborn_host
           (mkOptions None None None None) ∅ sample_run_request [] 4242%Z
           eq_refl).
Defined.

(** ** The startup preflight *)

Section PreflightProperties.

Import Preflight.

Variable path_resolve : list jsstring -> jsstring.
Variable path_isAbsolute : jsstring -> bool.
Variable fulfils : list FsCall -> FsCall -> bool.

Ltac preflight_paths options :=
  unfold buildPreflightPolicy, toAbsoluteDirectory;
  destruct (path_isAbsolute (path_resolve [getPath options userData])) eqn:?;
  [destruct (path_isAbsolute (path_resolve [getPath options sessionData])) eqn:?;
   [destruct (path_isAbsolute (path_resolve [getPath options logs])) eqn:?;
    [destruct (path_isAbsolute (path_resolve [getPath options temp])) eqn:?|]|]|].

Ltac preflight_checks :=
  unfold and_then, ensureDirectoryWritable; cbn [app];
  repeat match goal with
  | |- context [fulfils ?history ?call] =>
      lazymatch goal with
      | _ : fulfils history call = _ |- _ => fail
      | _ => idtac
      end;
      let H := fresh "Hcall" in
      destruct (fulfils history call) eqn:H; cbn [app]
  end.

(** X15.  A failed preflight stops at the first failure and leaves the
    environment untouched.  Either a path was not absolute and the file
    system was not touched, or the last file-system call made is the one
    that failed, every call before it succeeded, and the message names its
    directory.  [E_OUTPUT_UNWRITABLE] is only raised for the output
    directory, after the four application directories passed. *)
Theorem preflight_failure_is_first_failure options error :
  result (buildPreflightPolicy path_resolve path_isAbsolute fulfils options) = inl error ->
  env_after (buildPreflightPolicy path_resolve path_isAbsolute fulfils options) = options_env options
  /\ ((fs_calls (buildPreflightPolicy path_resolve path_isAbsolute fulfils options) = []
       /\ code error = E_PREFLIGHT_PATH_INVALID)
      \/ exists earlier call,
          fs_calls (buildPreflightPolicy path_resolve path_isAbsolute fulfils options) = earlier ++ [call]
          /\ all_fulfil fulfils [] earlier = true
          /\ fulfils earlier call = false
          /\ message error = js "Directory is not writable: " ++ call_dir call
          /\ (code error = E_OUTPUT_UNWRITABLE ->
              8 <= length earlier
              /\ call_dir call
                 = path_resolve
                     [path_resolve [getPath options userData];
                      default (js "output") (outputDirName options)])).
Proof.
  preflight_paths options; cbv zeta; cbn [result env_after fs_calls];
    try (intros [= <-]; split; [done|by left]).
  preflight_checks; cbn [result env_after fs_calls]; intros [= <-];
    (split; [done|right]);
    match goal with
    | |- exists earlier call, ?calls = _ /\ _ =>
        let n := eval cbv in (Nat.pred (length calls)) in
        exists (take n calls), (default (Mkdir []) (last calls))
    end;
    cbn [take last default app all_fulfil call_dir code message length];
    (split; [done|]);
    (split; [by rewrite ?Hcall, ?Hcall0, ?Hcall1, ?Hcall2, ?Hcall3, ?Hcall4,
                        ?Hcall5, ?Hcall6, ?Hcall7, ?Hcall8|]);
    (split; [done|]); (split; [done|]);
    try (intros [=]; fail); intros _; (split; [lia|done]).
Qed.


Lemma unset_insert_ne (env : gmap jsstring jsstring)
    (key key' value : jsstring) :
  key <> key' -> unset (<[key := value]> env) key' = unset env key'.
Proof. intros Hne. unfold unset. by rewrite lookup_insert_ne. Qed.

Lemma find_fresh_key (defaults : list (jsstring * jsstring)) (key : jsstring) :
  key ∉ fst <$> defaults ->
  List.find (fun entry => bool_decide (fst entry = key)) defaults = None.
Proof.
  induction defaults as [|[k v] defaults IH]; [done|].
  rewrite fmap_cons, not_elem_of_cons. intros [Hne Hfresh]. simpl.
  rewrite bool_decide_eq_false_2 by done. by apply IH.
Qed.

Lemma apply_defaults_lookup (defaults : list (jsstring * jsstring))
    (env : gmap jsstring jsstring) (key : jsstring) :
  NoDup (fst <$> defaults) ->
  apply_defaults defaults env !! key
  = match snd <$> List.find (fun entry => bool_decide (fst entry = key))
                    defaults with
    | Some value => if unset env key then Some value else env !! key
    | None => env !! key
    end.
Proof.
  revert env. induction defaults as [|[k v] defaults IH]; intros env Hnodup;
    [done|].
  apply NoDup_cons in Hnodup as [Hfresh Hnodup]. cbn [fst] in Hfresh.
  change (apply_defaults ((k, v) :: defaults) env)
    with (apply_defaults defaults
            (if unset env k then <[k := v]> env else env)).
  rewrite IH by done. cbn [List.find fst].
  case_bool_decide as Hkey; cbn [fst] in Hkey.
  - subst k.
    rewrite (find_fresh_key _ _ Hfresh).
    cbn [fmap option_fmap option_map snd].
    destruct (unset env key) eqn:Hunset; [apply lookup_insert_eq|done].
  - destruct (unset env k);
      [rewrite (unset_insert_ne env k key v Hkey), lookup_insert_ne|]; done.
Qed.

Lemma REQUIRED_ENV_DEFAULTS_NoDup : NoDup (fst <$> REQUIRED_ENV_DEFAULTS).
Proof. apply (bool_decide_unpack _). by vm_compute. Qed.

Lemma apply_defaults_required (env : gmap jsstring jsstring)
    (key value : jsstring) :
  required_default key = Some value ->
  unset (apply_defaults REQUIRED_ENV_DEFAULTS env) key = false.
Proof.
  intros Hrequired. unfold unset at 1.
  rewrite (apply_defaults_lookup _ _ _ REQUIRED_ENV_DEFAULTS_NoDup).
  unfold required_default in Hrequired. rewrite Hrequired.
  destruct (unset env key) eqn:Hunset.
  - revert Hrequired. unfold REQUIRED_ENV_DEFAULTS. cbn [List.find fst].
    repeat case_bool_decide; by intros [= <-].
  - revert Hunset. unfold unset. by destruct (env !! key) as [[|c v]|].
Qed.

(** What a successful run leaves behind. *)
Lemma buildPreflightPolicy_success options policy :
  result (buildPreflightPolicy path_resolve path_isAbsolute fulfils options)
  = inr policy ->
  let userDataDir := path_resolve [getPath options userData] in
  let outputDir :=
    path_resolve [userDataDir; default (js "output") (outputDirName options)] in
  let env :=
    <[js "MINERU_OUTPUT_DIR" := outputDir]>
      (apply_defaults REQUIRED_ENV_DEFAULTS (options_env options)) in
  buildPreflightPolicy path_resolve path_isAbsolute fulfils options
  = mkOutcome
      (directory_checks userDataDir
       ++ directory_checks (path_resolve [getPath options sessionData])
       ++ directory_checks (path_resolve [getPath options logs])
       ++ directory_checks (path_resolve [getPath options temp])
       ++ directory_checks outputDir)
      env
      (inr policy)
  /\ policy
     = mkPolicy DESKTOP_BACKEND_DEFAULT
         (mkDirectories userDataDir
            (path_resolve [getPath options sessionData])
            (path_resolve [getPath options logs])
            (path_resolve [getPath options temp]) outputDir)
         env
  /\ all_fulfil fulfils []
       (directory_checks userDataDir
        ++ directory_checks (path_resolve [getPath options sessionData])
        ++ directory_checks (path_resolve [getPath options logs])
        ++ directory_checks (path_resolve [getPath options temp])
        ++ directory_checks outputDir) = true
  /\ forallb path_isAbsolute
       [userDataDir; path_resolve [getPath options sessionData];
        path_resolve [getPath options logs];
        path_resolve [getPath options temp]] = true.
Proof.
  preflight_paths options; cbv zeta; cbn [result];
    try (intros [=]; fail).
  preflight_checks; cbn [result]; intros [= <-].
  unfold directory_checks. cbn [app all_fulfil forallb].
  repeat match goal with H : _ = true |- _ => rewrite H; clear H end.
  done.
Qed.

(** X16.  After a successful preflight the environment handed in and the
    one returned agree, and variable by variable: [MINERU_OUTPUT_DIR] is
    the output directory, overriding what was there; a required variable
    keeps a value that is set and not empty, and gets its default
    otherwise; every other variable is as it was. *)
Theorem preflight_env_defaults_fill_gaps options policy :
  result (buildPreflightPolicy path_resolve path_isAbsolute fulfils options)
  = inr policy ->
  env policy
  = env_after (buildPreflightPolicy path_resolve path_isAbsolute fulfils options)
  /\ forall key,
      env policy !! key
      = if bool_decide (key = js "MINERU_OUTPUT_DIR") then
          Some (outputDir (directories policy))
        else
          match required_default key with
          | Some value =>
              if unset (options_env options) key then Some value
              else options_env options !! key
          | None => options_env options !! key
          end.
Proof.
  intros Hresult.
  destruct (buildPreflightPolicy_success options policy Hresult)
    as (-> & Hpolicy & _ & _).
  clear Hresult. subst policy. cbn [env_after env directories outputDir].
  split; [done|]. intros key.
  case_bool_decide as Hkey; [subst key; apply lookup_insert_eq|].
  rewrite lookup_insert_ne by done.
  apply (apply_defaults_lookup _ _ _ REQUIRED_ENV_DEFAULTS_NoDup).
Qed.

End PreflightProperties.

Section PreflightAgain.

Import Preflight.

Variable path_resolve : list jsstring -> jsstring.
Variable path_isAbsolute : jsstring -> bool.

(** X17.  The preflight is idempotent: run again on the environment it
    returned, with the same paths, it returns the same policy, the
    environment included. *)
Theorem preflight_twice_changes_nothing fulfils fulfils' options policy policy' :
  result (buildPreflightPolicy path_resolve path_isAbsolute fulfils options)
  = inr policy ->
  result
    (buildPreflightPolicy path_resolve path_isAbsolute fulfils'
       (mkOptions (getPath options) (env policy) (outputDirName options)))
  = inr policy' ->
  policy' = policy.
Proof.
  intros Hfirst Hagain.
  destruct (buildPreflightPolicy_success _ _ fulfils _ _ Hfirst)
    as (_ & Hpolicy & _ & _).
  destruct (buildPreflightPolicy_success _ _ fulfils' _ _ Hagain)
    as (_ & Hpolicy' & _ & _).
  cbn [getPath options_env outputDirName] in Hpolicy'.
  clear Hfirst Hagain. subst policy policy'. cbn [env]. f_equal.
  set (out := path_resolve _).
  set (env1 := apply_defaults REQUIRED_ENV_DEFAULTS (options_env options)).
  apply map_eq. intros key.
  destruct (decide (key = js "MINERU_OUTPUT_DIR")) as [->|Hkey].
  { by rewrite !lookup_insert_eq. }
  rewrite !(lookup_insert_ne _ (js "MINERU_OUTPUT_DIR")) by done.
  rewrite (apply_defaults_lookup _ _ _ REQUIRED_ENV_DEFAULTS_NoDup).
  fold (required_default key).
  destruct (required_default key) as [value|] eqn:Hrequired;
    [|by rewrite lookup_insert_ne].
  rewrite unset_insert_ne by done. unfold env1 at 1.
  rewrite (apply_defaults_required _ _ _ Hrequired).
  by rewrite lookup_insert_ne.
Qed.

End PreflightAgain.

Lemma preflight_failure_is_first_failure_witness :
  Preflight.result
    (Preflight.buildPreflightPolicy sample_path_resolve sample_path_isAbsolute
       output_read_only sample_preflight)
  = inl (Preflight.mkError Preflight.E_OUTPUT_UNWRITABLE
           (js "Directory is not writable: /home/app/userData/output"))
  /\ Preflight.env_after
       (Preflight.buildPreflightPolicy sample_path_resolve
          sample_path_isAbsolute output_read_only sample_preflight)
     = sample_env.
Proof.
  assert (Hresult :
    Preflight.result
      (Preflight.buildPreflightPolicy sample_path_resolve
         sample_path_isAbsolute output_read_only sample_preflight)
    = inl (Preflight.mkError Preflight.E_OUTPUT_UNWRITABLE
             (js "Directory is not writable: /home/app/userData/output")))
    by (vm_compute; reflexivity).
  split; [exact Hresult|].
  exact (proj1 (preflight_failure_is_first_failure sample_path_resolve
                  sample_path_isAbsolute output_read_only sample_preflight _
                  Hresult)).
Defined.

Lemma preflight_env_defaults_fill_gaps_witness :
  Preflight.result
    (Preflight.buildPreflightPolicy sample_path_resolve sample_path_isAbsolute
       writable sample_preflight)
  = inr sample_policy
  /\ Preflight.env sample_policy
     = Preflight.env_after
         (Preflight.buildPreflightPolicy sample_path_resolve
            sample_path_isAbsolute writable sample_preflight)
  /\ Preflight.env sample_policy !! js "MINERU_BACKEND" = Some (js "pipeline")
  /\ Preflight.env sample_policy !! js "MINERU_METHOD" = Some (js "ocr").
Proof.
  assert (Hresult :
    Preflight.result
      (Preflight.buildPreflightPolicy sample_path_resolve
         sample_path_isAbsolute writable sample_preflight)
    = inr sample_policy) by (vm_compute; reflexivity).
  split; [exact Hresult|].
  split; [|split; vm_compute; reflexivity].
  exact (proj1 (preflight_env_defaults_fill_gaps sample_path_resolve
                  sample_path_isAbsolute writable sample_preflight
                  sample_policy Hresult)).
Defined.

Lemma preflight_twice_changes_nothing_witness :
  Preflight.result
    (Preflight.buildPreflightPolicy sample_path_resolve sample_path_isAbsolute
       output_read_only
       (Preflight.mkOptions sample_getPath sample_env (Some (js "out"))))
  = inr (Preflight.mkPolicy (js "pipeline")
           (Preflight.mkDirectories (js "/home/app/userData")
              (js "/home/app/sessionData") (js "/home/app/logs")
              (js "/home/app/temp") (js "/home/app/userData/out"))
           (<[js "MINERU_OUTPUT_DIR" := js "/home/app/userData/out"]>
              (Preflight.env sample_policy)))
  /\ Preflight.result
       (Preflight.buildPreflightPolicy sample_path_resolve
          sample_path_isAbsolute writable
          (Preflight.mkOptions sample_getPath
             (<[js "MINERU_OUTPUT_DIR" := js "/home/app/userData/out"]>
                (Preflight.env sample_policy))
             (Some (js "out"))))
     = inr (Preflight.mkPolicy (js "pipeline")
              (Preflight.mkDirectories (js "/home/app/userData")
                 (js "/home/app/sessionData") (js "/home/app/logs")
                 (js "/home/app/temp") (js "/home/app/userData/out"))
              (<[js "MINERU_OUTPUT_DIR" := js "/home/app/userData/out"]>
                 (Preflight.env sample_policy))).
Proof.
  assert (Hfirst :
    Preflight.result
      (Preflight.buildPreflightPolicy sample_path_resolve
         sample_path_isAbsolute output_read_only
         (Preflight.mkOptions sample_getPath sample_env (Some (js "out"))))
    = inr (Preflight.mkPolicy (js "pipeline")
             (Preflight.mkDirectories (js "/home/app/userData")
                (js "/home/app/sessionData") (js "/home/app/logs")
                (js "/home/app/temp") (js "/home/app/userData/out"))
             (<[js "MINERU_OUTPUT_DIR" := js "/home/app/userData/out"]>
                (Preflight.env sample_policy))))
    by (vm_compute; reflexivity).
  split; [exact Hfirst|].
  assert (Hagain :
    exists policy',
      Preflight.result
        (Preflight.buildPreflightPolicy sample_path_resolve
           sample_path_isAbsolute writable
           (Preflight.mkOptions sample_getPath
              (<[js "MINERU_OUTPUT_DIR" := js "/home/app/userData/out"]>
                 (Preflight.env sample_policy))
              (Some (js "out"))))
      = inr policy') by (eexists; vm_compute; reflexivity).
  destruct Hagain as [policy' Hagain]. rewrite Hagain. f_equal.
  exact (preflight_twice_changes_nothing sample_path_resolve
           sample_path_isAbsolute output_read_only writable
           (Preflight.mkOptions sample_getPath sample_env (Some (js "out")))
           _ policy' Hfirst Hagain).
Defined.

(** ** The smoke runner *)

Section SmokeArgs.

Import Smoke.

Lemma parseArgs_loop_filled args parsed config :
  parseArgs_loop args parsed = inr config ->
  filled parsed ->
  filled config /\ Nat.even (length args) = true.
Proof.
  revert parsed.
  induction args as [|current|current next args IH _] using list_pair_ind;
    intros parsed.
  - intros [= <-]. done.
  - done.
  - cbn [parseArgs_loop]. destruct next as [|c next]; [done|].
    intros Hloop [Hlabel Hexecutable].
    repeat case_bool_decide; try done;
      apply IH in Hloop as [Hconfig Heven];
      try (split; [exact Hconfig|exact Heven]);
      split; simpl; try done; intros path; simpl; congruence.
Qed.

(** X18.  What [parseArgs] returns can be run: the mode is [unpackaged] or
    [packaged], a packaged run has an executable that is not empty, the
    label is not empty, and the arguments came in pairs. *)
Theorem parseArgs_result_can_be_run argv config :
  parseArgs argv = inr config ->
  (mode config = js "unpackaged" \/ mode config = js "packaged")
  /\ (mode config = js "packaged" ->
      exists path, executable config = Some path /\ path <> [])
  /\ label config <> []
  /\ Nat.even (length (drop 2 argv)) = true.
Proof.
  unfold parseArgs.
  destruct (parseArgs_loop _ _) as [thrown|parsed] eqn:Hloop; [done|].
  apply parseArgs_loop_filled in Hloop as [[Hlabel Hexecutable] Heven];
    [|by split].
  repeat case_bool_decide; simpl; try done;
    destruct (executable parsed) as [[|c path]|] eqn:Hpath; try done;
    intros [= <-]; repeat split; auto; try congruence;
    try (by eexists); try (intros; congruence).
Qed.

Lemma parseArgs_loop_trailing args parsed parsed' current :
  parseArgs_loop args parsed = inr parsed' ->
  parseArgs_loop (args ++ [current]) parsed
  = inl (js "unknown argument: " ++ current)
  /\ parseArgs_loop (args ++ [current; []]) parsed
     = inl (js "unknown argument: " ++ current).
Proof.
  revert parsed.
  induction args as [|first|first next args IH _] using list_pair_ind;
    intros parsed.
  - done.
  - done.
  - cbn [parseArgs_loop app]. destruct next as [|c next]; [done|].
    repeat case_bool_decide; try done; apply IH.
Qed.

(** X19.  [parseArgs] rejects a last argument that has no value, and one
    whose value is the empty string, as an unknown argument, also when it
    is one of the flags the script knows. *)
Theorem parseArgs_rejects_flag_without_value node script args current parsed :
  parseArgs_loop args (mkConfig (js "unpackaged") None (js "unpackaged"))
  = inr parsed ->
  parseArgs (node :: script :: args ++ [current])
  = inl (js "unknown argument: " ++ current)
  /\ parseArgs (node :: script :: args ++ [current; []])
     = inl (js "unknown argument: " ++ current).
Proof.
  intros Hloop. unfold parseArgs.
  change (drop 2 (node :: script :: ?rest)) with rest.
  by destruct (parseArgs_loop_trailing _ _ _ current Hloop) as [-> ->].
Qed.

End SmokeArgs.

Section SmokeRecords.

Import Smoke.

Lemma pickTerminalRecord_loop_app later earlier :
  pickTerminalRecord_loop (later ++ earlier)
  = match pickTerminalRecord_loop later with
    | Some record => Some record
    | None => pickTerminalRecord_loop earlier
    end.
Proof.
  induction later as [|record later IH]; [done|]. simpl.
  by destruct (is_terminal_record record).
Qed.

Lemma pickTerminalRecord_loop_Some records record :
  pickTerminalRecord_loop records = Some record ->
  record ∈ records /\ is_terminal_record record = true.
Proof.
  induction records as [|first records IH]; [done|]. simpl.
  destruct (is_terminal_record first) eqn:Hfirst.
  - intros [= <-]. split; [apply elem_of_cons; by left|done].
  - intros [Hin Hterminal]%IH. split; [apply elem_of_cons; by right|done].
Qed.

Lemma pickTerminalRecord_loop_None records :
  pickTerminalRecord_loop records = None <->
  Forall (fun record => is_terminal_record record = false) records.
Proof.
  induction records as [|first records IH]; [by split|]. simpl.
  rewrite Forall_cons. destruct (is_terminal_record first); [|tauto].
  split; [done|]. by intros [? _].
Qed.

(** X20.  [pickTerminalRecord] returns the latest terminal record: a
    terminal record among the later records hides all earlier ones; what
    is returned is one of the records and its state is terminal; and
    [null] means that there is none. *)
Theorem pickTerminalRecord_latest_wins earlier later :
  pickTerminalRecord (earlier ++ later)
  = match pickTerminalRecord later with
    | Some record => Some record
    | None => pickTerminalRecord earlier
    end
  /\ (forall record,
         pickTerminalRecord later = Some record ->
         record ∈ later /\ is_terminal_record record = true)
  /\ (pickTerminalRecord later = None <->
      Forall (fun record => is_terminal_record record = false) later).
Proof.
  unfold pickTerminalRecord. rewrite rev_app_distr.
  split; [apply pickTerminalRecord_loop_app|]. split.
  - intros record [Hin Hterminal]%pickTerminalRecord_loop_Some.
    split; [|done]. apply list_elem_of_In, in_rev. by apply list_elem_of_In.
  - rewrite pickTerminalRecord_loop_None. split; intros H.
    + apply Forall_rev in H. by rewrite rev_involutive in H.
    + by apply Forall_rev.
Qed.

End SmokeRecords.

Lemma parseArgs_result_can_be_run_witness :
  Smoke.parseArgs
    [js "node"; js "smoke.cjs"; js "--mode"; js "packaged";
     js "--executable"; js "/Applications/MinerU.app"]
  = inr (Smoke.mkConfig (js "packaged") (Some (js "/Applications/MinerU.app"))
           (js "unpackaged"))
  /\ Nat.even
       (length
          (drop 2
             [js "node"; js "smoke.cjs"; js "--mode"; js "packaged";
              js "--executable"; js "/Applications/MinerU.app"])) = true.
Proof.
  assert (Hparsed :
    Smoke.parseArgs
      [js "node"; js "smoke.cjs"; js "--mode"; js "packaged";
       js "--executable"; js "/Applications/MinerU.app"]
    = inr (Smoke.mkConfig (js "packaged")
             (Some (js "/Applications/MinerU.app")) (js "unpackaged")))
    by reflexivity.
  split; [exact Hparsed|].
  exact (proj2 (proj2 (proj2 (parseArgs_result_can_be_run _ _ Hparsed)))).
Defined.

Lemma parseArgs_rejects_flag_without_value_witness :
  Smoke.parseArgs_loop [js "--label"; js "nightly"]
    (Smoke.mkConfig (js "unpackaged") None (js "unpackaged"))
  = inr (Smoke.mkConfig (js "unpackaged") None (js "nightly"))
  /\ Smoke.parseArgs
       (js "node" :: js "smoke.cjs" :: [js "--label"; js "nightly"]
        ++ [js "--mode"])
     = inl (js "unknown argument: " ++ js "--mode").
Proof.
  split; [reflexivity|].
  exact (proj1 (parseArgs_rejects_flag_without_value (js "node")
                  (js "smoke.cjs") [js "--label"; js "nightly"] (js "--mode")
                  _ eq_refl)).
Defined.

(** ** Lines of a log *)

Lemma split_lines_no_LF s : Forall (fun piece => LF ∉ piece) (split_lines s).
Proof.
  induction s as [|c|c d t IHt IHdt] using list_pair_ind.
  - repeat constructor. apply not_elem_of_nil.
  - rewrite split_lines_cons. destruct (c =? LF)%N eqn:Hc.
    + repeat constructor; apply not_elem_of_nil.
    + repeat constructor. apply N.eqb_neq in Hc.
      rewrite not_elem_of_cons. split; [done|apply not_elem_of_nil].
  - rewrite split_lines_cons. destruct (c =? LF)%N eqn:Hc.
    { constructor; [apply not_elem_of_nil|done]. }
    destruct ((c =? CR)%N && (d =? LF)%N).
    { constructor; [apply not_elem_of_nil|done]. }
    apply N.eqb_neq in Hc.
    destruct (split_lines (d :: t)) as [|p rest]; simpl.
    + repeat constructor. rewrite not_elem_of_cons.
      split; [done|apply not_elem_of_nil].
    + apply Forall_cons in IHdt as [Hp Hrest]. constructor; [|done].
      rewrite not_elem_of_cons. by split.
Qed.

Lemma split_lines_piece_LF r b :
  LF ∉ r -> split_lines (r ++ LF :: b) = strip_cr r :: split_lines b.
Proof.
  induction r as [|c r IH]; intros Hr.
  - reflexivity.
  - apply not_elem_of_cons in Hr as [Hc Hr].
    assert (Hc' : (c =? LF)%N = false) by (by apply N.eqb_neq).
    rewrite <- app_comm_cons, split_lines_cons, Hc'.
    destruct r as [|d r].
    + cbn [app strip_cr]. change (LF =? LF)%N with true.
      rewrite andb_true_r. by destruct (c =? CR)%N.
    + assert (Hd : (d =? LF)%N = false).
      { apply N.eqb_neq. intros ->. apply Hr. apply elem_of_cons. by left. }
      rewrite <- app_comm_cons, Hd, andb_false_r.
      rewrite app_comm_cons, IH by done. reflexivity.
Qed.

Lemma split_lines_one s : LF ∉ s -> split_lines s = [s].
Proof.
  induction s as [|c s IH]; intros Hs; [done|].
  apply not_elem_of_cons in Hs as [Hc Hs].
  assert (Hc' : (c =? LF)%N = false) by (by apply N.eqb_neq).
  rewrite split_lines_cons, Hc'. destruct s as [|d s]; [done|].
  assert (Hd : (d =? LF)%N = false).
  { apply N.eqb_neq. intros ->. apply Hs. apply elem_of_cons. by left. }
  rewrite Hd, andb_false_r, IH by done. reflexivity.
Qed.

Lemma strip_cr_cases s : strip_cr s = s \/ s = strip_cr s ++ [CR].
Proof.
  induction s as [|c s IH]; [by left|].
  destruct s as [|d s].
  - simpl. destruct (N.eqb_spec c CR) as [->|]; [by right|by left].
  - change (strip_cr (c :: d :: s)) with (c :: strip_cr (d :: s)).
    destruct IH as [->|IH]; [by left|right].
    rewrite <- app_comm_cons. by rewrite <- IH.
Qed.

Lemma trim_start_snoc s c :
  trim_start (s ++ [c])
  = match trim_start s with
    | [] => trim_start [c]
    | t => t ++ [c]
    end.
Proof.
  induction s as [|d s IH]; [done|]. simpl.
  destruct (is_white_space d); [exact IH|done].
Qed.

Lemma trim_snoc_white_space s c :
  is_white_space c = true -> trim (s ++ [c]) = trim s.
Proof.
  intros Hc. unfold trim. rewrite trim_start_snoc.
  destruct (trim_start s) as [|d t] eqn:Ht.
  - simpl. by rewrite Hc.
  - rewrite rev_app_distr. simpl. by rewrite Hc.
Qed.

Lemma trim_strip_cr s : trim (strip_cr s) = trim s.
Proof.
  destruct (strip_cr_cases s) as [->|Hs]; [done|].
  rewrite Hs at 2. by rewrite trim_snoc_white_space.
Qed.

(** The trimmed lines of a text with a line feed in it are those of the
    two parts. *)
Lemma trimmed_lines_LF a b :
  map trim (split_lines (a ++ LF :: b))
  = map trim (split_lines a) ++ map trim (split_lines b).
Proof.
  rewrite split_lines_app.
  pose proof (split_lines_nonempty a) as Hne.
  pose proof (split_lines_no_LF a) as Hfree.
  destruct (split_lines a) as [|p pieces] using rev_ind; [done|].
  clear IHpieces Hne. apply Forall_app in Hfree as [_ Hp].
  apply Forall_cons in Hp as [Hp _].
  rewrite removelast_last, last_snoc. simpl.
  rewrite split_lines_piece_LF by done.
  rewrite !map_app. simpl. rewrite trim_strip_cr, <- app_assoc. reflexivity.
Qed.

Section SmokeLog.

Import Smoke.

Variable JSON_parse : jsstring -> option json.

Lemma parseJsonLines_loop_app lines1 lines2 :
  parseJsonLines_loop JSON_parse (lines1 ++ lines2)
  = parseJsonLines_loop JSON_parse lines1
    ++ parseJsonLines_loop JSON_parse lines2.
Proof.
  induction lines1 as [|line lines1 IH]; [done|]. simpl.
  destruct line as [|c line]; [exact IH|].
  destruct (c =? 123)%N eqn:Hc.
  - apply N.eqb_eq in Hc as ->.
    destruct (JSON_parse (123%N :: line)); [|exact IH]. simpl. by rewrite IH.
  - destruct c as [|p]; [exact IH|].
    repeat (destruct p as [p|p|]; try exact IH; try discriminate).
Qed.

Lemma parseJsonLines_LF a b :
  parseJsonLines JSON_parse (a ++ LF :: b)
  = parseJsonLines JSON_parse a ++ parseJsonLines JSON_parse b.
Proof.
  unfold parseJsonLines.
  by rewrite trimmed_lines_LF, List.filter_app, parseJsonLines_loop_app.
Qed.

Lemma trimmed_lines_CR a :
  map trim (split_lines (a ++ [CR])) = map trim (split_lines a).
Proof.
  rewrite split_lines_app.
  pose proof (split_lines_nonempty a) as Hne.
  pose proof (split_lines_no_LF a) as Hfree.
  destruct (split_lines a) as [|p pieces] using rev_ind; [done|].
  clear IHpieces Hne. apply Forall_app in Hfree as [_ Hp].
  apply Forall_cons in Hp as [Hp _].
  rewrite removelast_last, last_snoc. simpl.
  rewrite split_lines_one.
  - rewrite !map_app. simpl. by rewrite trim_snoc_white_space.
  - rewrite not_elem_of_app, not_elem_of_cons. split; [done|].
    split; [done|apply not_elem_of_nil].
Qed.

(** X21.  [parseJsonLines] reads a log line by line: the records of a
    text are those of the part before a line break followed by those of
    the part after it, for a line feed as for a carriage return and line
    feed. *)
Theorem parseJsonLines_line_by_line a b :
  parseJsonLines JSON_parse (a ++ LF :: b)
  = parseJsonLines JSON_parse a ++ parseJsonLines JSON_parse b
  /\ parseJsonLines JSON_parse (a ++ CR :: LF :: b)
     = parseJsonLines JSON_parse a ++ parseJsonLines JSON_parse b.
Proof.
  split; [apply parseJsonLines_LF|].
  change (a ++ CR :: LF :: b) with (a ++ [CR] ++ LF :: b).
  rewrite app_assoc, parseJsonLines_LF. f_equal.
  unfold parseJsonLines. by rewrite trimmed_lines_CR.
Qed.

End SmokeLog.

(** ** The renderer *)

Section RendererPage.

Import Renderer.

Variable JSON_stringify : json -> jsstring.

Lemma assign_assign {A} (element : option A) v w :
  assign (assign element v) w = assign element w.
Proof. by destruct element. Qed.

Lemma syncControls_idempotent r :
  syncControls (syncControls r) = syncControls r.
Proof.
  unfold syncControls, with_page. simpl. by rewrite !assign_assign.
Qed.

Lemma syncControls_appendLog record r :
  syncControls (appendLog JSON_stringify record r)
  = appendLog JSON_stringify record (syncControls r).
Proof.
  by destruct r as [[? ? ? ? ? ? ? [text|] ? ? ?] ? ? ? ? ?].
Qed.

Lemma syncControls_with_invocations v r :
  syncControls (with_invocations v r) = with_invocations v (syncControls r).
Proof. reflexivity. Qed.

Lemma appendLog_shown record r :
  syncControls r = r ->
  syncControls (appendLog JSON_stringify record r)
  = appendLog JSON_stringify record r.
Proof. intros H. by rewrite syncControls_appendLog, H. Qed.

Lemma onJobEvent_cases jobEvent r :
  onJobEvent JSON_stringify jobEvent r = r
  \/ onJobEvent JSON_stringify jobEvent r
     = appendLog JSON_stringify (JObj jobEvent) r
  \/ exists state,
      own_property jobEvent (js "state") = Some (JStr state)
      /\ onJobEvent JSON_stringify jobEvent r
         = syncControls
             (mkRenderer
                (page (appendLog JSON_stringify (JObj jobEvent) r))
                (selectedInputPath r) (selectedOutputDir r) None (Some state)
                (invocations r)).
Proof.
  unfold onJobEvent.
  destruct (runningJobId r) as [[|c id]|];
    try destruct (negb _); auto;
    destruct (own_property jobEvent (js "state")) as [[| | |state| |]|]; auto;
    destruct (_ || _); auto; right; right; exists state; split; try done;
    by destruct r as [[? ? ? ? ? ? ? [text|] ? ? ?] ? ? ? ? ?].
Qed.

Lemma step_shown r input :
  syncControls r = r ->
  syncControls (step JSON_stringify r input) = step JSON_stringify r input.
Proof.
  intros Hshown.
  assert (Hinvoke : forall v, syncControls (with_invocations v r)
                              = with_invocations v r).
  { intros v. by rewrite syncControls_with_invocations, Hshown. }
  destruct input as [| | | | |k reply|jobEvent]; unfold step.
  - unfold click_inputFile, invoke. by destruct (inputFileButton (page r)).
  - unfold click_outputDir, invoke. by destruct (outputDirButton (page r)).
  - unfold click_run, invoke. destruct (runButton (page r)); [|done].
    destruct (_ || _); [done|].
    by rewrite syncControls_with_invocations, syncControls_idempotent.
  - unfold click_cancel, invoke. destruct (cancelButton (page r)); [|done].
    by destruct (runningJobId r) as [[|c id]|].
  - unfold click_openOutput, invoke.
    destruct (openOutputButton (page r)); [|done].
    by destruct (selectedOutputDir r).
  - destruct (invocations r !! k) as [invocation|]; [|done].
    specialize (Hinvoke (delete k (invocations r))).
    destruct invocation; destruct reply as [selected| | | |];
      try destruct selected as [[|c selected]|]; cbn [resume];
      first [ exact Hinvoke
            | apply syncControls_idempotent
            | by apply appendLog_shown ].
  - destruct (onJobEvent_cases jobEvent r) as [->|[->|(state & _ & ->)]].
    + done.
    + by apply appendLog_shown.
    + apply syncControls_idempotent.
Qed.

Lemma exec_shown r inputs :
  syncControls r = r ->
  syncControls (exec JSON_stringify r inputs) = exec JSON_stringify r inputs.
Proof.
  revert r. induction inputs as [|input inputs IH]; intros r H; [done|].
  apply IH. by apply step_shown.
Qed.

(** X22.  After any sequence of clicks, replies and job events the page
    shows the variables of the script: calling [syncControls] once more
    would change nothing.  So at most one status badge is visible, the run
    button is enabled only with both paths chosen and no job running, and
    the cancel button only while a job is running. *)
Theorem page_shows_the_state p inputs :
  syncControls (exec JSON_stringify (load p) inputs)
  = exec JSON_stringify (load p) inputs
  /\ visible_badges (page (exec JSON_stringify (load p) inputs)) <= 1
  /\ (runButton (page (exec JSON_stringify (load p) inputs)) = Some false ->
      selectedInputPath (exec JSON_stringify (load p) inputs) <> []
      /\ selectedOutputDir (exec JSON_stringify (load p) inputs) <> []
      /\ runningJobId (exec JSON_stringify (load p) inputs) = None)
  /\ (cancelButton (page (exec JSON_stringify (load p) inputs)) = Some false ->
      is_Some (runningJobId (exec JSON_stringify (load p) inputs))).
Proof.
  assert (Hshown : syncControls (exec JSON_stringify (load p) inputs)
                   = exec JSON_stringify (load p) inputs).
  { apply exec_shown. apply syncControls_idempotent. }
  split; [exact Hshown|].
  set (r := exec JSON_stringify (load p) inputs) in *.
  rewrite <- Hshown. unfold syncControls, visible_badges, count_where.
  cbn [page with_page statusSucceeded statusFailed statusCancelled runButton
       cancelButton selectedInputPath selectedOutputDir runningJobId].
  assert (Hsf : js "succeeded" <> js "failed") by (by vm_compute).
  assert (Hsc : js "succeeded" <> js "cancelled") by (by vm_compute).
  assert (Hfc : js "failed" <> js "cancelled") by (by vm_compute).
  split; [|split].
  - destruct (statusSucceeded (page r)), (statusFailed (page r)),
      (statusCancelled (page r)); cbn [assign List.filter];
      repeat (case_bool_decide; cbn [negb length] in * ); try lia; congruence.
  - destruct (runButton (page r)); [|done]. cbn [assign]. intros [= H].
    apply orb_false_elim in H as [H Hrunning].
    apply orb_false_elim in H as [Hinput Houtput].
    apply negb_false_iff, negb_true_iff, bool_decide_eq_false in Hinput.
    apply negb_false_iff, negb_true_iff, bool_decide_eq_false in Houtput.
    apply bool_decide_eq_false in Hrunning.
    split; [done|]. split; [done|].
    destruct (runningJobId r); [|done]. by destruct Hrunning.
  - destruct (cancelButton (page r)); [|done]. cbn [assign]. intros [= H].
    by apply negb_false_iff, bool_decide_eq_true in H.
Qed.

(** X23.  The run button stays enabled between a click on it and the
    reply of [runJob]: [runningJobId] is only set by the reply.  A second
    click in between passes the guard as well and asks for a second job. *)
Theorem second_click_starts_second_job r enabled :
  runButton (page r) = Some enabled ->
  selectedInputPath r <> [] ->
  selectedOutputDir r <> [] ->
  runningJobId r = None ->
  runButton (page (step JSON_stringify r ClickRun)) = Some false
  /\ invocations (step JSON_stringify r ClickRun)
     = invocations r ++ [RunJob (selectedInputPath r) (selectedOutputDir r)]
  /\ invocations
       (exec JSON_stringify r [ClickRun; ClickRun])
     = invocations r
       ++ [RunJob (selectedInputPath r) (selectedOutputDir r);
           RunJob (selectedInputPath r) (selectedOutputDir r)].
Proof.
  intros Hbutton Hinput Houtput Hrunning.
  assert (Hclick : forall r',
    runButton (page r') = Some enabled \/ runButton (page r') = Some false ->
    selectedInputPath r' = selectedInputPath r ->
    selectedOutputDir r' = selectedOutputDir r ->
    runningJobId r' = None ->
    runButton (page (step JSON_stringify r' ClickRun)) = Some false
    /\ invocations (step JSON_stringify r' ClickRun)
       = invocations r'
         ++ [RunJob (selectedInputPath r) (selectedOutputDir r)]
    /\ selectedInputPath (step JSON_stringify r' ClickRun)
       = selectedInputPath r
    /\ selectedOutputDir (step JSON_stringify r' ClickRun)
       = selectedOutputDir r
    /\ runningJobId (step JSON_stringify r' ClickRun) = None).
  { intros r' Hbutton' Hinput' Houtput' Hrunning'.
    destruct r' as [[ifb odb rb cb oob ifp odp lp ss sf sc] i o run ts inv].
    cbn in Hbutton', Hinput', Houtput', Hrunning'. subst i o run.
    assert (exists d, rb = Some d) as [d ->] by (destruct Hbutton'; eauto).
    unfold step, click_run.
    cbn [page runButton selectedInputPath selectedOutputDir runningJobId].
    rewrite !bool_decide_eq_false_2 by done. cbn [orb].
    destruct lp; cbn;
      rewrite !bool_decide_eq_false_2 by (done || by intros [? [=]]);
      done. }
  destruct (Hclick r (or_introl Hbutton) eq_refl eq_refl Hrunning)
    as (Hbutton1 & Hinvocations1 & Hinput1 & Houtput1 & Hrunning1).
  split; [exact Hbutton1|]. split; [exact Hinvocations1|].
  destruct (Hclick (step JSON_stringify r ClickRun) (or_intror Hbutton1)
              Hinput1 Houtput1 Hrunning1) as (_ & Hinvocations2 & _).
  change (exec JSON_stringify r [ClickRun; ClickRun])
    with (step JSON_stringify (step JSON_stringify r ClickRun) ClickRun).
  by rewrite Hinvocations2, Hinvocations1, <- app_assoc.
Qed.

End RendererPage.

Lemma second_click_starts_second_job_witness :
  Renderer.runButton (Renderer.page sample_renderer) = Some false
  /\ Renderer.selectedInputPath sample_renderer <> []
  /\ Renderer.selectedOutputDir sample_renderer <> []
  /\ Renderer.runningJobId sample_renderer = None
  /\ Renderer.invocations
       (Renderer.exec sample_stringify sample_renderer
          [Renderer.ClickRun; Renderer.ClickRun])
     = Renderer.invocations sample_renderer
       ++ [Renderer.RunJob (Renderer.selectedInputPath sample_renderer)
             (Renderer.selectedOutputDir sample_renderer);
           Renderer.RunJob (Renderer.selectedInputPath sample_renderer)
             (Renderer.selectedOutputDir sample_renderer)].
Proof.
  assert (Hinput : Renderer.selectedInputPath sample_renderer <> [])
    by discriminate.
  assert (Houtput : Renderer.selectedOutputDir sample_renderer <> [])
    by discriminate.
  split; [reflexivity|]. split; [exact Hinput|]. split; [exact Houtput|].
  split; [reflexivity|].
  exact (proj2 (proj2 (second_click_starts_second_job sample_stringify
                         sample_renderer false eq_refl Hinput Houtput
                         eq_refl))).
Defined.

(** ** The log panel, written and read back *)

Section LogPanel.

Import Renderer Smoke.

Variable JSON_stringify : json -> jsstring.
Variable JSON_parse : jsstring -> option json.

Lemma parseJsonLines_one s rest :
  LF ∉ s ->
  trim s = 123%N :: rest ->
  parseJsonLines JSON_parse s
  = match JSON_parse (123%N :: rest) with
    | Some record => [record]
    | None => []
    end.
Proof.
  intros Hs Htrim. unfold parseJsonLines. rewrite split_lines_one by done.
  simpl. rewrite Htrim. simpl. by destruct (JSON_parse _).
Qed.

Lemma parseJsonLines_appended text record :
  line_complete text ->
  readable JSON_stringify JSON_parse record ->
  parseJsonLines JSON_parse (text ++ JSON_stringify record ++ [LF])
  = parseJsonLines JSON_parse text ++ [record].
Proof.
  intros Htext (Hhead & Hfree & Htrim & Hparse).
  assert (Hline : parseJsonLines JSON_parse (JSON_stringify record ++ [LF])
                  = [record]).
  { rewrite parseJsonLines_LF.
    destruct (JSON_stringify record) as [|c rest] eqn:Hs; [done|].
    injection Hhead as ->.
    by rewrite (parseJsonLines_one _ rest Hfree Htrim), Hparse. }
  destruct Htext as [->|[before ->]]; [exact Hline|].
  rewrite <- !app_assoc. cbn [app].
  rewrite !(parseJsonLines_LF _ before), Hline.
  change (parseJsonLines JSON_parse []) with (@nil json).
  by rewrite app_nil_r.
Qed.

Lemma appendLog_text record r text :
  logPanel (page r) = Some text ->
  logPanel (page (appendLog JSON_stringify record r))
  = Some (text ++ JSON_stringify record ++ [LF]).
Proof. intros H. unfold appendLog. by rewrite H. Qed.

(** X24.  The smoke runner reads back what the renderer logs: if the log
    panel ends at a line end and each record appended is readable from the
    line [JSON.stringify] gives it, then [parseJsonLines] on the text of
    the panel returns the records read before followed by the appended
    ones, in order. *)
Theorem log_panel_read_back records r text :
  logPanel (page r) = Some text ->
  line_complete text ->
  Forall (readable JSON_stringify JSON_parse) records ->
  exists text',
    logPanel
      (page (fold_left (fun r' record => appendLog JSON_stringify record r')
               records r))
    = Some text'
    /\ line_complete text'
    /\ parseJsonLines JSON_parse text'
       = parseJsonLines JSON_parse text ++ records.
Proof.
  intros Hpanel Htext Hrecords. revert r text Hpanel Htext.
  induction Hrecords as [|record records Hrecord _ IH]; intros r text Hpanel Htext.
  - exists text. by rewrite app_nil_r.
  - destruct (IH (appendLog JSON_stringify record r)
                (text ++ JSON_stringify record ++ [LF]))
      as (text' & Hpanel' & Htext' & Hread).
    + by apply appendLog_text.
    + right. exists (text ++ JSON_stringify record). by rewrite <- app_assoc.
    + exists text'. split; [exact Hpanel'|]. split; [exact Htext'|].
      rewrite Hread, parseJsonLines_appended by done.
      by rewrite <- app_assoc.
Qed.

(** X25.  When the renderer takes a terminal job event, it shows the state
    of the event, no job is running any more, and [pickTerminalRecord] on
    the parsed log panel returns that very event: the record the smoke
    runner checks is the one behind the badge. *)
Theorem terminal_event_shown_and_picked r jobEvent text state :
  logPanel (page r) = Some text ->
  line_complete text ->
  readable JSON_stringify JSON_parse (JObj jobEvent) ->
  own_property jobEvent (js "state") = Some (JStr state) ->
  state ∈ TERMINAL_STATES ->
  taken r jobEvent ->
  exists text',
    logPanel (page (Renderer.step JSON_stringify r (JobEvent jobEvent)))
    = Some text'
    /\ pickTerminalRecord (parseJsonLines JSON_parse text')
       = Some (JObj jobEvent)
    /\ terminalState (Renderer.step JSON_stringify r (JobEvent jobEvent))
       = Some state
    /\ runningJobId (Renderer.step JSON_stringify r (JobEvent jobEvent))
       = None.
Proof.
  intros Hpanel Htext Hreadable Hstate Hterminal Htaken.
  exists (text ++ JSON_stringify (JObj jobEvent) ++ [LF]).
  assert (Hstep :
    Renderer.step JSON_stringify r (JobEvent jobEvent)
    = syncControls
        (mkRenderer
           (page (appendLog JSON_stringify (JObj jobEvent) r))
           (selectedInputPath r) (selectedOutputDir r) None (Some state)
           (invocations r))).
  { unfold Renderer.step, onJobEvent. rewrite Hstate.
    assert (Hthree : bool_decide (state = js "succeeded")
                     || bool_decide (state = js "failed")
                     || bool_decide (state = js "cancelled") = true).
    { unfold TERMINAL_STATES in Hterminal.
      rewrite !elem_of_cons in Hterminal.
      destruct Hterminal as [->|[->|[->|Hnil]]];
        [done..|by apply elem_of_nil in Hnil]. }
    rewrite Hthree. unfold taken in Htaken.
    destruct (runningJobId r) as [[|c id]|];
      [| rewrite Htaken; cbn [strictly_equals_string];
         rewrite bool_decide_eq_true_2 by done |];
      cbn [negb];
      by destruct r as [[? ? ? ? ? ? ? [panel|] ? ? ?] ? ? ? ? ?]. }
  rewrite Hstep. unfold syncControls, with_page.
  cbn [page logPanel terminalState runningJobId].
  rewrite (appendLog_text _ _ _ Hpanel).
  split; [done|]. split; [|done].
  rewrite parseJsonLines_appended by done.
  unfold pickTerminalRecord. rewrite rev_app_distr. cbn [rev app].
  cbn [pickTerminalRecord_loop].
  assert (is_terminal_record (JObj jobEvent) = true) as ->; [|done].
  unfold is_terminal_record. cbn [truthy optional_member andb].
  rewrite Hstate. by apply bool_decide_eq_true_2.
Qed.

End LogPanel.

Lemma log_panel_read_back_witness :
  Renderer.logPanel (Renderer.page (Renderer.load sample_page)) = Some []
  /\ line_complete []
  /\ Forall (readable sample_stringify log_parse)
       [started_record; JObj cancelled_event]
  /\ exists text',
      Renderer.logPanel
        (Renderer.page
           (fold_left
              (fun r' record => Renderer.appendLog sample_stringify record r')
              [started_record; JObj cancelled_event]
              (Renderer.load sample_page)))
      = Some text'
      /\ line_complete text'
      /\ Smoke.parseJsonLines log_parse text'
         = Smoke.parseJsonLines log_parse []
           ++ [started_record; JObj cancelled_event].
Proof.
  assert (Hcomplete : line_complete []) by (by left).
  assert (Hreadable :
    Forall (readable sample_stringify log_parse)
      [started_record; JObj cancelled_event]).
  { repeat constructor; try reflexivity;
      apply (bool_decide_unpack _); vm_compute; reflexivity. }
  split; [reflexivity|]. split; [exact Hcomplete|]. split; [exact Hreadable|].
  exact (log_panel_read_back sample_stringify log_parse _
           (Renderer.load sample_page) [] eq_refl Hcomplete Hreadable).
Defined.

Lemma terminal_event_shown_and_picked_witness :
  Renderer.logPanel (Renderer.page (Renderer.load sample_page)) = Some []
  /\ readable sample_stringify log_parse (JObj cancelled_event)
  /\ js "cancelled" ∈ Smoke.TERMINAL_STATES
  /\ taken (Renderer.load sample_page) cancelled_event
  /\ exists text',
      Renderer.logPanel
        (Renderer.page
           (Renderer.step sample_stringify (Renderer.load sample_page)
              (Renderer.JobEvent cancelled_event)))
      = Some text'
      /\ Smoke.pickTerminalRecord (Smoke.parseJsonLines log_parse text')
         = Some (JObj cancelled_event)
      /\ Renderer.terminalState
           (Renderer.step sample_stringify (Renderer.load sample_page)
              (Renderer.JobEvent cancelled_event))
         = Some (js "cancelled")
      /\ Renderer.runningJobId
           (Renderer.step sample_stringify (Renderer.load sample_page)
              (Renderer.JobEvent cancelled_event))
         = None.
Proof.
  assert (Hcomplete : line_complete []) by (by left).
  assert (Hreadable : readable sample_stringify log_parse (JObj cancelled_event)).
  { repeat split; try reflexivity.
    apply (bool_decide_unpack _). vm_compute. reflexivity. }
  assert (Hterminal : js "cancelled" ∈ Smoke.TERMINAL_STATES).
  { apply (bool_decide_unpack _). vm_compute. reflexivity. }
  assert (Htaken : taken (Renderer.load sample_page) cancelled_event)
    by exact I.
  split; [reflexivity|]. split; [exact Hreadable|]. split; [exact Hterminal|].
  split; [exact Htaken|].
  exact (terminal_event_shown_and_picked sample_stringify log_parse
           (Renderer.load sample_page) cancelled_event [] (js "cancelled")
           eq_refl Hcomplete Hreadable eq_refl Hterminal Htaken).
Defined.
